(** * TaskManager: the persistence, search and memoisation layer

    A shallow embedding of [lib/localStorage.ts] (class [LocalStorageService]),
    [lib/dateUtils.ts] and the [memoize] helper of [lib/performance.ts],
    followed by the properties of the specification that are settled on it.

    Conventions of the embedding.
    - A JavaScript string is a [string] of code units below 256.
    - A JavaScript value is a [value]; numbers are the integers [Z] (the only
      numbers the service handles are millisecond time stamps).
    - An array of tasks is a mutable object: it lives in a heap of arrays and
      is passed around by location, so that aliasing between the memoised
      result, the memory cache and the caller is visible.
    - A string kept in [localStorage] is represented by the outcome of
      [JSON.parse] on it: [Malformed] text, or the parsed [Json] value.
    - [Date.now()], [Math.random()] and storage faults are oracles of the
      [World] the service runs in.
    - The performance monitor (timers) has no effect on results and is left
      out. *)

From Stdlib Require Import ZArith Lia ZifyNat Bool List Sorted Ascii String DecimalString.
From stdpp Require Import base option list strings.

Local Open Scope Z_scope.

(* ================================================================== *)
(** * JavaScript strings *)
(* ================================================================== *)

Module JSString.

(** White space as [String.prototype.trim] and the regular expression
    class [\s] see it, restricted to code units below 256: TAB, LF, VT, FF,
    CR, SPACE and NBSP. *)
Definition is_space (c : ascii) : bool :=
  let n := nat_of_ascii c in
  ((9 <=? n)%nat && (n <=? 13)%nat) || (n =? 32)%nat || (n =? 160)%nat.

Fixpoint trimStart (s : string) : string :=
  match s with
  | EmptyString => EmptyString
  | String c r => if is_space c then trimStart r else s
  end.

Fixpoint trimEnd (s : string) : string :=
  match s with
  | EmptyString => EmptyString
  | String c r =>
      match trimEnd r with
      | EmptyString => if is_space c then EmptyString else String c EmptyString
      | r' => String c r'
      end
  end.

Definition trim (s : string) : string := trimEnd (trimStart s).

(** [toLowerCase] on code units below 256: A-Z and the accented capitals
    of Latin-1 (all of 192..222 but the multiplication sign 215). *)
Definition lower_char (c : ascii) : ascii :=
  let n := nat_of_ascii c in
  if ((65 <=? n)%nat && (n <=? 90)%nat)
     || ((192 <=? n)%nat && (n <=? 222)%nat && negb (n =? 215)%nat)
  then ascii_of_nat (n + 32) else c.

Fixpoint toLowerCase (s : string) : string :=
  match s with
  | EmptyString => EmptyString
  | String c r => String (lower_char c) (toLowerCase r)
  end.

(** [s.includes(q)]: [q] occurs in [s] as a contiguous substring. *)
Fixpoint includes (s q : string) : bool :=
  String.prefix q s ||
  match s with
  | EmptyString => false
  | String _ r => includes r q
  end.

(** [s.split(/\s+/)]: the pieces between maximal runs of white space.
    [cur] is the piece being read, [in_sep] tells that the previous
    character belonged to a separator. *)
Fixpoint split_go (s cur : string) (in_sep : bool) : list string :=
  match s with
  | EmptyString => [cur]
  | String c r =>
      if is_space c
      then (if in_sep then split_go r cur true
            else cur :: split_go r EmptyString true)
      else split_go r (cur ++ String c EmptyString) false
  end.

Definition split_ws (s : string) : list string := split_go s EmptyString false.

Definition nonempty (s : string) : bool :=
  match s with EmptyString => false | _ => true end.

(** [" ".join(...)] for template literals with single spaces. *)
Fixpoint join (sep : string) (l : list string) : string :=
  match l with
  | [] => EmptyString
  | [x] => x
  | x :: r => x ++ sep ++ join sep r
  end.

(** Decimal rendering of an integer, as [String(n)] gives it. *)
Definition of_Z (n : Z) : string := NilZero.string_of_int (Z.to_int n).

(** [s.padStart(w, "0")]. *)
Fixpoint zeros (n : nat) (s : string) : string :=
  match n with
  | O => s
  | S n' => String "0" (zeros n' s)
  end.

Definition padStart (w : nat) (s : string) : string :=
  zeros (w - String.length s) s.

End JSString.

(* ================================================================== *)
(** * JavaScript values *)
(* ================================================================== *)

(** The result of evaluating an expression: a value, or an exception
    (whose payload the service never inspects: every [catch] logs it). *)
Inductive outcome (A : Type) : Type :=
| Ok (a : A)
| Throw.
Arguments Ok {A} a.
Arguments Throw {A}.

#[local] Set Warnings "-register-all".

Inductive value : Type :=
| VUndef
| VNull
| VBool (b : bool)
| VNum (n : Z)
| VStr (s : string)
| VArr (l : list value)
| VObj (fs : list (string * value)).

Module JS.
Import JSString.

(** Own properties of an object, in insertion order. *)
Fixpoint assoc (k : string) (fs : list (string * value)) : value :=
  match fs with
  | [] => VUndef
  | (k', v) :: r => if String.eqb k k' then v else assoc k r
  end.

(** [v.k] for the field names the service reads ([id], [title], ...):
    a [TypeError] on [undefined] and [null], [undefined] on a primitive
    or an array, the own property on an object. *)
Definition get (k : string) (v : value) : outcome value :=
  match v with
  | VUndef | VNull => Throw
  | VObj fs => Ok (assoc k fs)
  | _ => Ok VUndef
  end.

(** [o.k = v]: an existing property keeps its place, a new one goes last. *)
Fixpoint set_prop (k : string) (v : value) (fs : list (string * value))
  : list (string * value) :=
  match fs with
  | [] => [(k, v)]
  | (k', v') :: r =>
      if String.eqb k k' then (k, v) :: r else (k', v') :: set_prop k v r
  end.

(** [{...a, ...b}] on the property lists of two objects. *)
Definition spread (a b : list (string * value)) : list (string * value) :=
  fold_left (fun acc kv => set_prop (fst kv) (snd kv) acc) b a.

Definition keys (fs : list (string * value)) : list string := map fst fs.

Definition truthy (v : value) : bool :=
  match v with
  | VUndef | VNull => false
  | VBool b => b
  | VNum n => negb (n =? 0)
  | VStr s => nonempty s
  | VArr _ | VObj _ => true
  end.

(** [a === b]. Two compound values are two objects: the fields of a task
    are primitives, and object identity inside them is not tracked. *)
Definition strict_eq (a b : value) : bool :=
  match a, b with
  | VUndef, VUndef | VNull, VNull => true
  | VBool x, VBool y => Bool.eqb x y
  | VNum x, VNum y => x =? y
  | VStr x, VStr y => String.eqb x y
  | _, _ => false
  end.

Definition is_string (v : value) : bool :=
  match v with VStr _ => true | _ => false end.
Definition is_boolean (v : value) : bool :=
  match v with VBool _ => true | _ => false end.

(** [String(v)], as a template literal interpolates a value. *)
Fixpoint toStr (v : value) : string :=
  match v with
  | VUndef => "undefined"
  | VNull => "null"
  | VBool true => "true"
  | VBool false => "false"
  | VNum n => of_Z n
  | VStr s => s
  | VArr l =>
      join "," (map (fun x => match x with
                              | VUndef | VNull => EmptyString
                              | _ => toStr x
                              end) l)
  | VObj _ => "[object Object]"
  end.

(** What [JSON.parse(JSON.stringify(v))] gives back: properties holding
    [undefined] are dropped, [undefined] in an array becomes [null]. *)
Fixpoint toJSON (v : value) : value :=
  match v with
  | VArr l =>
      VArr (map (fun x => match x with VUndef => VNull | _ => toJSON x end) l)
  | VObj fs =>
      VObj ((fix go (fs : list (string * value)) :=
               match fs with
               | [] => []
               | (k, x) :: r =>
                   match x with
                   | VUndef => go r
                   | _ => (k, toJSON x) :: go r
                   end
               end) fs)
  | _ => v
  end.

(** [Number(v)] where the service subtracts a cached time stamp from
    [Date.now()]; [None] is [NaN]. Numeric strings are read as decimal
    integers, the numbers of this embedding. *)
Fixpoint digits_value (s : string) (acc : Z) : option Z :=
  match s with
  | EmptyString => Some acc
  | String c r =>
      let n := nat_of_ascii c in
      if ((48 <=? n)%nat && (n <=? 57)%nat)
      then digits_value r (10 * acc + Z.of_nat (n - 48))
      else None
  end.

Definition string_to_number (s : string) : option Z :=
  match trim s with
  | EmptyString => Some 0
  | String "-" (String c r) => Z.opp <$> digits_value (String c r) 0
  | String "+" (String c r) => digits_value (String c r) 0
  | t => digits_value t 0
  end.

Definition toNumber (v : value) : option Z :=
  match v with
  | VUndef => None
  | VNull => Some 0
  | VBool b => Some (if b then 1 else 0)
  | VNum n => Some n
  | VStr s => string_to_number s
  | VArr _ => string_to_number (toStr v)
  | VObj _ => None
  end.

End JS.

(* ================================================================== *)
(** * [JSON.stringify] as text, and [btoa] *)
(* ================================================================== *)

(** The check sum of the service is a text: [btoa(JSON.stringify(...))].
    Both built-ins are written out, on code units below 256. *)
Module JSONText.
Import JSString.

Definition dquote : string := String (ascii_of_nat 34) EmptyString.

Definition hex_digit (n : nat) : string :=
  match String.get n "0123456789abcdef" with
  | Some c => String c EmptyString
  | None => "0"
  end.

(** One character inside a JSON string literal. *)
Definition quote_char (c : ascii) : string :=
  let n := nat_of_ascii c in
  if (n =? 34)%nat then "\" ++ dquote
  else if (n =? 92)%nat then "\\"
  else if (n =? 8)%nat then "\b"
  else if (n =? 12)%nat then "\f"
  else if (n =? 10)%nat then "\n"
  else if (n =? 13)%nat then "\r"
  else if (n =? 9)%nat then "\t"
  else if (n <? 32)%nat
       then "\u00" ++ hex_digit (n / 16) ++ hex_digit (n mod 16)
  else String c EmptyString.

Fixpoint quote_chars (s : string) : string :=
  match s with
  | EmptyString => EmptyString
  | String c r => quote_char c ++ quote_chars r
  end.

Definition quote (s : string) : string := dquote ++ quote_chars s ++ dquote.

(** [JSON.stringify(v)] for an array or an object [v]; inside an array
    [undefined] prints as [null], inside an object its property is
    skipped. *)
Fixpoint stringify (v : value) : string :=
  match v with
  | VUndef | VNull => "null"
  | VBool true => "true"
  | VBool false => "false"
  | VNum n => of_Z n
  | VStr s => quote s
  | VArr l => "[" ++ join "," (map stringify l) ++ "]"
  | VObj fs =>
      "{" ++ join ","
        ((fix go (fs : list (string * value)) : list string :=
            match fs with
            | [] => []
            | (k, x) :: r =>
                match x with
                | VUndef => go r
                | _ => (quote k ++ ":" ++ stringify x)%string :: go r
                end
            end) fs) ++ "}"
  end.

Definition b64_digit (n : nat) : ascii :=
  match String.get n
    "ABCDEFGHIJKLMNOPQRSTUVWXYZabcdefghijklmnopqrstuvwxyz0123456789+/" with
  | Some c => c
  | None => "="%char
  end.

(** Base64 of a list of bytes, three at a time, with [=] padding. *)
Fixpoint b64 (l : list nat) : string :=
  match l with
  | [] => EmptyString
  | [a] =>
      String (b64_digit (a / 4)%nat)
        (String (b64_digit (a mod 4 * 16)%nat) "==")
  | [a; b] =>
      String (b64_digit (a / 4)%nat)
        (String (b64_digit (a mod 4 * 16 + b / 16)%nat)
           (String (b64_digit (b mod 16 * 4)%nat) "="))
  | a :: b :: c :: r =>
      String (b64_digit (a / 4)%nat)
        (String (b64_digit (a mod 4 * 16 + b / 16)%nat)
           (String (b64_digit (b mod 16 * 4 + c / 64)%nat)
              (String (b64_digit (c mod 64)%nat) (b64 r))))
  end.

Definition btoa (s : string) : string :=
  b64 (map nat_of_ascii (list_ascii_of_string s)).

(** ** Reading the two texts back

    The inverse directions, used to state that the check sum tells two
    lists of [(id, updatedAt)] apart. *)

Definition b64_index (c : ascii) : option nat :=
  let n := nat_of_ascii c in
  if ((65 <=? n) && (n <=? 90))%nat then Some (n - 65)%nat
  else if ((97 <=? n) && (n <=? 122))%nat then Some (n - 71)%nat
  else if ((48 <=? n) && (n <=? 57))%nat then Some (n + 4)%nat
  else if (n =? 43)%nat then Some 62%nat
  else if (n =? 47)%nat then Some 63%nat
  else None.

Fixpoint unb64 (s : string) : option (list nat) :=
  match s with
  | EmptyString => Some []
  | String c1 (String c2 (String c3 (String c4 r))) =>
      match b64_index c1, b64_index c2 with
      | Some x1, Some x2 =>
          match b64_index c3, b64_index c4 with
          | Some x3, Some x4 =>
              match unb64 r with
              | Some l =>
                  Some ((x1 * 4 + x2 / 16) :: (x2 mod 16 * 16 + x3 / 4)
                          :: (x3 mod 4 * 64 + x4) :: l)%nat
              | None => None
              end
          | Some x3, None =>
              Some [(x1 * 4 + x2 / 16); (x2 mod 16 * 16 + x3 / 4)]%nat
          | None, _ => Some [(x1 * 4 + x2 / 16)%nat]
          end
      | _, _ => None
      end
  | _ => None
  end.

Definition unescape (e : ascii) : option ascii :=
  let n := nat_of_ascii e in
  if (n =? 34)%nat then Some e
  else if (n =? 92)%nat then Some e
  else if (n =? 98)%nat then Some (ascii_of_nat 8)
  else if (n =? 102)%nat then Some (ascii_of_nat 12)
  else if (n =? 110)%nat then Some (ascii_of_nat 10)
  else if (n =? 114)%nat then Some (ascii_of_nat 13)
  else if (n =? 116)%nat then Some (ascii_of_nat 9)
  else None.

Definition hex_value (c : ascii) : option nat :=
  let n := nat_of_ascii c in
  if ((48 <=? n) && (n <=? 57))%nat then Some (n - 48)%nat
  else if ((97 <=? n) && (n <=? 102))%nat then Some (n - 87)%nat
  else None.

(** The characters of a string literal up to its closing quote, and the
    text that follows it. *)
Fixpoint read_string (s : string) : option (string * string) :=
  match s with
  | EmptyString => None
  | String c r =>
      if (nat_of_ascii c =? 34)%nat then Some (EmptyString, r)
      else if (nat_of_ascii c =? 92)%nat then
        match r with
        | String e r' =>
            if (nat_of_ascii e =? 117)%nat then
              match r' with
              | String _ (String _ (String h1 (String h2 r''))) =>
                  match hex_value h1, hex_value h2, read_string r'' with
                  | Some a, Some b, Some (t, rest) =>
                      Some (String (ascii_of_nat (16 * a + b)) t, rest)
                  | _, _, _ => None
                  end
              | _ => None
              end
            else
              match unescape e, read_string r' with
              | Some ch, Some (t, rest) => Some (String ch t, rest)
              | _, _ => None
              end
        | EmptyString => None
        end
      else
        match read_string r with
        | Some (t, rest) => Some (String c t, rest)
        | None => None
        end
  end.

End JSONText.

(* ================================================================== *)
(** * The built-in [Date] *)
(* ================================================================== *)

(** What the host decides: the offset of local time at an instant (in
    milliseconds, [LocalTZA] of ECMAScript) and the reading of a string as
    a date ([Date.parse], whose result on text that is not in the ISO
    format is left to the implementation; [None] is an invalid date). *)
Record Host : Type := {
  LocalTZA : Z -> Z;
  Date_parse : string -> option Z
}.

Module JSDate.
Import JSString.

Definition msPerDay : Z := 86400000.

Definition Day (t : Z) : Z := t / msPerDay.
Definition TimeWithinDay (t : Z) : Z := t mod msPerDay.

(** The proleptic Gregorian date (year, month 1..12, day 1..31) of a day
    number counted from 1970-01-01. *)
Definition civil_from_days (z : Z) : Z * Z * Z :=
  let z := z + 719468 in
  let era := z / 146097 in
  let doe := z - era * 146097 in
  let yoe := (doe - doe / 1460 + doe / 36524 - doe / 146096) / 365 in
  let doy := doe - (365 * yoe + yoe / 4 - yoe / 100) in
  let mp := (5 * doy + 2) / 153 in
  let d := doy - (153 * mp + 2) / 5 + 1 in
  let m := if mp <? 10 then mp + 3 else mp - 9 in
  let y := yoe + era * 400 + (if m <=? 2 then 1 else 0) in
  (y, m, d).

(** The day number of a date: the inverse direction, used to state that
    [civil_from_days] is a calendar. *)
Definition days_from_civil (y m d : Z) : Z :=
  let y := if m <=? 2 then y - 1 else y in
  let era := y / 400 in
  let yoe := y - era * 400 in
  let doy := (153 * (if m >? 2 then m - 3 else m + 9) + 2) / 5 + d - 1 in
  let doe := yoe * 365 + yoe / 4 - yoe / 100 + doy in
  era * 146097 + doe - 719468.

Definition YearFromTime (t : Z) : Z := fst (fst (civil_from_days (Day t))).
(** [MonthFromTime] counts from 0, as [getMonth] does. *)
Definition MonthFromTime (t : Z) : Z := snd (fst (civil_from_days (Day t))) - 1.
Definition DateFromTime (t : Z) : Z := snd (civil_from_days (Day t)).
Definition WeekDay (t : Z) : Z := (Day t + 4) mod 7.

Definition HourFromTime (t : Z) : Z := TimeWithinDay t / 3600000.
Definition MinFromTime (t : Z) : Z := TimeWithinDay t / 60000 mod 60.
Definition SecFromTime (t : Z) : Z := TimeWithinDay t / 1000 mod 60.
Definition msFromTime (t : Z) : Z := TimeWithinDay t mod 1000.

Definition LocalTime (host : Host) (t : Z) : Z := t + LocalTZA host t.

Definition digits (w : nat) (n : Z) : string := padStart w (of_Z n).

(** [d.toISOString()] of a valid date: always in UTC; years outside
    0..9999 are printed with a sign and six digits. *)
Definition year_digits (y : Z) : string :=
  if (0 <=? y) && (y <=? 9999) then digits 4 y
  else if y <? 0 then String "-" (digits 6 (- y))
  else String "+" (digits 6 y).

Definition toISOString (t : Z) : string :=
  (year_digits (YearFromTime t)
   ++ "-" ++ digits 2 (MonthFromTime t + 1)%Z
   ++ "-" ++ digits 2 (DateFromTime t)
   ++ "T" ++ digits 2 (HourFromTime t)
   ++ ":" ++ digits 2 (MinFromTime t)
   ++ ":" ++ digits 2 (SecFromTime t)
   ++ "." ++ digits 3 (msFromTime t) ++ "Z")%string.

(** [d.toLocaleDateString("en-US", { weekday: "long" })]. *)
Definition weekday_long (w : Z) : string :=
  match w with
  | 0 => "Sunday" | 1 => "Monday" | 2 => "Tuesday" | 3 => "Wednesday"
  | 4 => "Thursday" | 5 => "Friday" | _ => "Saturday"
  end.

(** A reader of the format that [toISOString] prints, with a four
    digit year: [YYYY-MM-DDTHH:mm:ss.sssZ]. It serves as [Date_parse]
    of the hosts of the examples. *)
Definition field (s : string) (i n : nat) : option Z :=
  JS.digits_value (String.substring i n s) 0.

Definition parse_iso (s : string) : option Z :=
  if negb (String.eqb (String.substring 4 1 s) "-"
           && String.eqb (String.substring 7 1 s) "-"
           && String.eqb (String.substring 10 1 s) "T"
           && String.eqb (String.substring 13 1 s) ":"
           && String.eqb (String.substring 16 1 s) ":"
           && String.eqb (String.substring 19 1 s) "."
           && String.eqb (String.substring 23 2 s) "Z")
  then None
  else
    y ← field s 0 4; mo ← field s 5 2; d ← field s 8 2;
    h ← field s 11 2; mi ← field s 14 2; se ← field s 17 2;
    ms ← field s 20 3;
    if (1 <=? mo) && (mo <=? 12) && (1 <=? d) && (d <=? 31)
       && (h <=? 23) && (mi <=? 59) && (se <=? 59)
    then Some (days_from_civil y mo d * msPerDay
               + h * 3600000 + mi * 60000 + se * 1000 + ms)
    else None.

End JSDate.

(* ================================================================== *)
(** * [lib/dateUtils.ts] *)
(* ================================================================== *)

(** The argument [date: string | Date] of the helpers. A [Date] object is
    its time value, [None] when it is an invalid date. *)
Inductive date_arg : Type :=
| OfDate (d : option Z)
| OfString (s : string).

Module dateUtils.
Import JSString JSDate.

Section WithHost.
Context (host : Host).

(** [new Date(date)] *)
Definition new_Date (date : date_arg) : option Z :=
  match date with
  | OfDate d => d
  | OfString s => Date_parse host s
  end.

(** [formatDateForSearch]: [getFullYear], [getMonth] and [getDate] read
    local time, and give [NaN] on an invalid date. *)
Definition formatDateForSearch (date : date_arg) : string :=
  match new_Date date with
  | Some t =>
      let lt := LocalTime host t in
      let year := YearFromTime lt in
      let month := padStart 2 (of_Z (MonthFromTime lt + 1)%Z) in
      let day := padStart 2 (of_Z (DateFromTime lt)) in
      (of_Z year ++ "-" ++ month ++ "-" ++ day)%string
  | None => "NaN-NaN-NaN"
  end.

Definition getDayName (date : date_arg) : string :=
  match new_Date date with
  | Some t => weekday_long (WeekDay (LocalTime host t))
  | None => "Invalid Date"
  end.

Definition matchesDateSearch (date : date_arg) (searchQuery : string) : bool :=
  let dateStr := formatDateForSearch date in
  includes dateStr searchQuery.

End WithHost.
End dateUtils.

(* ================================================================== *)
(** * The built-in [Map] with string keys *)
(* ================================================================== *)

(** A [Map] iterates in insertion order, and [set] on a key that is
    present keeps its place: an association list without repeated keys. *)
Module JSMap.
Section Ops.
Context {V : Type}.

Definition t : Type := list (string * V).

Fixpoint get (k : string) (m : t) : option V :=
  match m with
  | [] => None
  | (k', v) :: r => if String.eqb k k' then Some v else get k r
  end.

Fixpoint set (k : string) (v : V) (m : t) : t :=
  match m with
  | [] => [(k, v)]
  | (k', v') :: r =>
      if String.eqb k k' then (k, v) :: r else (k', v') :: set k v r
  end.

Fixpoint delete (k : string) (m : t) : t :=
  match m with
  | [] => []
  | (k', v') :: r =>
      if String.eqb k k' then r else (k', v') :: delete k r
  end.

Definition size (m : t) : Z := Z.of_nat (length m).

End Ops.
Arguments t : clear implicits.
End JSMap.

(* ================================================================== *)
(** * [lib/performance.ts]: [memoize] *)
(* ================================================================== *)

Module performance.

Record entry (R : Type) : Type := { value_of : R; timestamp : Z }.
Arguments value_of {R} e.
Arguments timestamp {R} e.

Section Memoize.
(** [W] is the state the wrapped function and the clock act on; the
    [cache] belongs to the closure that [memoize] returns. *)
Context {W A R : Type}.
Variable Date_now : W -> Z * W.
Variable fn : A -> W -> R * W.
Variable keyGenerator : A -> string.
Variable maxSize : Z.
Variable ttl : Z.

(** [entries.sort((a, b) => a[1].timestamp - b[1].timestamp)]: the
    built-in sort is stable. *)
Fixpoint insert_by_timestamp (e : string * entry R)
  (l : list (string * entry R)) : list (string * entry R) :=
  match l with
  | [] => [e]
  | x :: r =>
      if timestamp (snd x) <? timestamp (snd e)
      then x :: insert_by_timestamp e r
      else e :: l
  end.

Definition sort_by_timestamp (l : list (string * entry R))
  : list (string * entry R) :=
  fold_right insert_by_timestamp [] l.

(** The clean-up branch: drop the [Math.floor(entries.length * 0.25)]
    entries with the smallest time stamps. *)
Definition evict (cache : JSMap.t (entry R)) : JSMap.t (entry R) :=
  let entries := sort_by_timestamp cache in
  let toRemove := (length entries / 4)%nat in
  fold_left (fun c e => JSMap.delete (fst e) c) (take toRemove entries) cache.

Definition memoized (args : A) (cache : JSMap.t (entry R)) (w : W)
  : R * JSMap.t (entry R) * W :=
  let key := keyGenerator args in
  let '(now, w) := Date_now w in
  let cached := JSMap.get key cache in
  (* cached && (!ttl || now - cached.timestamp < ttl) *)
  let hit :=
    match cached with
    | Some c =>
        if (ttl =? 0) || (now - timestamp c <? ttl)
        then Some (value_of c) else None
    | None => None
    end in
  match hit with
  | Some v => (v, cache, w)
  | None =>
      let '(result, w) := fn args w in
      let cache :=
        if JSMap.size cache >=? maxSize then evict cache else cache in
      (result, JSMap.set key {| value_of := result; timestamp := now |} cache, w)
  end.

(** [memoized.clear()] and [memoized.size()] *)
Definition clear (cache : JSMap.t (entry R)) : JSMap.t (entry R) := [].
Definition size (cache : JSMap.t (entry R)) : Z := JSMap.size cache.

End Memoize.
End performance.

(* ================================================================== *)
(** * The world of the service, and its state *)
(* ================================================================== *)

Inductive storage_key : Type := TASKS_KEY | CACHE_KEY.
Inductive storage_op : Type := OpGet | OpSet | OpRemove.

#[global] Instance storage_key_eq_dec : EqDecision storage_key.
Proof. solve_decision. Defined.
#[global] Instance storage_op_eq_dec : EqDecision storage_op.
Proof. solve_decision. Defined.

(** A string held by [localStorage], by what [JSON.parse] makes of it:
    it throws on [Malformed raw], it returns [v] on [Json v]. *)
Inductive text : Type :=
| Malformed (raw : string)
| Json (v : value).

Record World : Type := {
  window : bool;                 (* [typeof window !== "undefined"] *)
  clock : Z;                     (* the reading of [Date.now()] once [future] is used up *)
  future : list Z;               (* the next readings of [Date.now()] *)
  randoms : list string;         (* the next [Math.random().toString(36).substr(2, 9)] *)
  primary : option text;         (* the item under [TASKS_KEY] *)
  secondary : option text;       (* the item under [CACHE_KEY] *)
  faults : list (storage_op * storage_key)  (* the storage calls that throw *)
}.

(** A location of the heap of arrays. *)
Definition loc : Type := nat.

Record Service : Type := {
  heap : list (list value);
  memo : JSMap.t (performance.entry loc);  (* the cache of [memoize] around [getTasks] *)
  cache : option loc;                      (* [this.cache] *)
  cacheTimestamp : Z;                      (* [this.cacheTimestamp] *)
  searchCache : JSMap.t (loc * Z);         (* [this.searchCache]: result, timestamp *)
  world : World
}.

Definition set_heap (h : list (list value)) (s : Service) : Service :=
  {| heap := h; memo := memo s; cache := cache s;
     cacheTimestamp := cacheTimestamp s; searchCache := searchCache s;
     world := world s |}.
Definition set_memo (m : JSMap.t (performance.entry loc)) (s : Service) : Service :=
  {| heap := heap s; memo := m; cache := cache s;
     cacheTimestamp := cacheTimestamp s; searchCache := searchCache s;
     world := world s |}.
Definition set_cache (c : option loc) (s : Service) : Service :=
  {| heap := heap s; memo := memo s; cache := c;
     cacheTimestamp := cacheTimestamp s; searchCache := searchCache s;
     world := world s |}.
Definition set_cacheTimestamp (t : Z) (s : Service) : Service :=
  {| heap := heap s; memo := memo s; cache := cache s;
     cacheTimestamp := t; searchCache := searchCache s;
     world := world s |}.
Definition set_searchCache (m : JSMap.t (loc * Z)) (s : Service) : Service :=
  {| heap := heap s; memo := memo s; cache := cache s;
     cacheTimestamp := cacheTimestamp s; searchCache := m;
     world := world s |}.
Definition set_world (w : World) (s : Service) : Service :=
  {| heap := heap s; memo := memo s; cache := cache s;
     cacheTimestamp := cacheTimestamp s; searchCache := searchCache s;
     world := w |}.

Definition item (k : storage_key) (w : World) : option text :=
  match k with TASKS_KEY => primary w | CACHE_KEY => secondary w end.

Definition set_item (k : storage_key) (x : option text) (w : World) : World :=
  {| window := window w; clock := clock w; future := future w;
     randoms := randoms w;
     primary := match k with TASKS_KEY => x | CACHE_KEY => primary w end;
     secondary := match k with CACHE_KEY => x | TASKS_KEY => secondary w end;
     faults := faults w |}.

Definition throws (op : storage_op) (k : storage_key) (w : World) : bool :=
  bool_decide ((op, k) ∈ faults w).

(** * Computations of the service: state and exceptions *)

Definition JSM (A : Type) : Type := Service -> outcome A * Service.

#[global] Instance JSM_ret : MRet JSM :=
  fun (A : Type) (a : A) (s : Service) => (Ok a, s).
#[global] Instance JSM_bind : MBind JSM :=
  fun (A B : Type) (f : A -> JSM B) (m : JSM A) (s : Service) =>
  match m s with
  | (Ok a, s') => f a s'
  | (Throw, s') => (Throw, s')
  end.

#[global] Instance outcome_ret : MRet outcome :=
  fun (A : Type) (a : A) => Ok a.
#[global] Instance outcome_bind : MBind outcome :=
  fun (A B : Type) (f : A -> outcome B) (m : outcome A) =>
  match m with
  | Ok a => f a
  | Throw => Throw
  end.

(** [mapM] and [filterM] for callbacks that may throw. *)
Fixpoint mapO {A B : Type} (f : A -> outcome B) (l : list A) : outcome (list B) :=
  match l with
  | [] => Ok []
  | x :: r => y ← f x; ys ← mapO f r; Ok (y :: ys)
  end.

Fixpoint filterO {A : Type} (f : A -> outcome bool) (l : list A) : outcome (list A) :=
  match l with
  | [] => Ok []
  | x :: r => b ← f x; ys ← filterO f r; Ok (if (b : bool) then x :: ys else ys)
  end.

(** [l.findIndex(f)]; [None] is the index [-1]. *)
Fixpoint findIndexO {A : Type} (f : A -> outcome bool) (l : list A) : outcome (option nat) :=
  match l with
  | [] => Ok None
  | x :: r =>
      b ← f x;
      if (b : bool) then Ok (Some O)
      else (i ← findIndexO f r; Ok (option_map S i))
  end.

Module Run.
Definition lift {A : Type} (o : outcome A) : JSM A := fun s => (o, s).
Definition throw {A : Type} : JSM A := fun s => (Throw, s).
Definition gets {A : Type} (f : Service -> A) : JSM A := fun s => (Ok (f s), s).
Definition modify (f : Service -> Service) : JSM unit := fun s => (Ok tt, f s).

(** [try { m } catch (error) { h }] *)
Definition try_catch {A : Type} (m h : JSM A) : JSM A := fun s =>
  match m s with
  | (Ok a, s') => (Ok a, s')
  | (Throw, s') => h s'
  end.

(** [Date.now()], and [new Date()] through its time value. *)
Definition tick (w : World) : Z * World :=
  match future w with
  | [] => (clock w, w)
  | t :: f =>
      (t, {| window := window w; clock := t; future := f;
             randoms := randoms w; primary := primary w;
             secondary := secondary w; faults := faults w |})
  end.

Definition Date_now_total (s : Service) : Z * Service :=
  let '(t, w) := tick (world s) in (t, set_world w s).

Definition Date_now : JSM Z := fun s =>
  let '(t, s') := Date_now_total s in (Ok t, s').

(** [Math.random().toString(36).substr(2, 9)] *)
Definition random_suffix : JSM string := fun s =>
  let w := world s in
  match randoms w with
  | [] => (Ok EmptyString, s)
  | r :: rs =>
      (Ok r, set_world {| window := window w; clock := clock w;
                          future := future w; randoms := rs;
                          primary := primary w; secondary := secondary w;
                          faults := faults w |} s)
  end.

(** [localStorage.getItem], [setItem] and [removeItem] *)
Definition getItem (k : storage_key) : JSM (option text) := fun s =>
  if throws OpGet k (world s) then (Throw, s) else (Ok (item k (world s)), s).

Definition setItem (k : storage_key) (x : text) : JSM unit := fun s =>
  if throws OpSet k (world s) then (Throw, s)
  else (Ok tt, set_world (set_item k (Some x) (world s)) s).

Definition removeItem (k : storage_key) : JSM unit := fun s =>
  if throws OpRemove k (world s) then (Throw, s)
  else (Ok tt, set_world (set_item k None (world s)) s).

(** A string is truthy when it is not empty: [null] and the empty string
    are not. *)
Definition present (x : option text) : bool :=
  match x with
  | None => false
  | Some (Malformed raw) => JSString.nonempty raw
  | Some (Json _) => true
  end.

Definition JSON_parse (x : option text) : outcome value :=
  match x with
  | Some (Json v) => Ok v
  | _ => Throw
  end.

(** [JSON.stringify(v)], as the text it is stored as. *)
Definition JSON_stringify (v : value) : text := Json (JS.toJSON v).

(** Arrays of the heap. *)
Definition alloc (l : list value) : JSM loc := fun s =>
  (Ok (length (heap s)), set_heap (heap s ++ [l]) s).

Definition read (a : loc) : JSM (list value) := fun s =>
  (Ok (default [] (heap s !! a)), s).

Definition write (a : loc) (l : list value) : JSM unit := fun s =>
  (Ok tt, set_heap (<[a := l]> (heap s)) s).

(** A computation that cannot throw, and the outermost [catch]. *)
Definition total {A : Type} (f : Service -> A * Service) : JSM A := fun s =>
  let '(a, s') := f s in (Ok a, s').

Definition catch_all {A : Type} (m : JSM A) (h : Service -> A * Service)
  : Service -> A * Service := fun s =>
  match m s with
  | (Ok a, s') => (a, s')
  | (Throw, s') => h s'
  end.

Definition alloc_total (l : list value) (s : Service) : loc * Service :=
  (length (heap s), set_heap (heap s ++ [l]) s).

End Run.

(* ================================================================== *)
(** * [lib/localStorage.ts]: class [LocalStorageService] *)
(* ================================================================== *)

(** The argument of [addTask]. *)
Record TaskData : Type := {
  title : string;
  description : option string;
  name : option string;
  role : option string
}.

Module LocalStorageService.
Import JSString JS Run.

Definition CACHE_EXPIRY : Z := 10 * 60 * 1000.

(** [task.k] once [task] is known not to be [undefined] or [null]. *)
Definition prop (k : string) (task : value) : value :=
  match get k task with Ok v => v | Throw => VUndef end.

Definition fields (task : value) : list (string * value) :=
  match task with VObj fs => fs | _ => [] end.

(** [btoa(JSON.stringify(data.map((t) => ({ id: t.id, updatedAt: t.updatedAt }))))] *)
Definition generateChecksum (data : value) : outcome string :=
  match data with
  | VArr l =>
      pairs ← mapO (fun t =>
                 id ← get "id" t;
                 updatedAt ← get "updatedAt" t;
                 Ok (VObj [("id"%string, id); ("updatedAt"%string, updatedAt)])) l;
      Ok (JSONText.btoa (JSONText.stringify (VArr pairs)))
  | _ => Throw
  end.

(** The callback of [filter] in [validateAndCleanTasks]. *)
Definition valid_shape (task : value) : bool :=
  truthy task
  && is_string (prop "id" task)
  && is_string (prop "title" task)
  && is_boolean (prop "isCompleted" task)
  && is_string (prop "createdAt" task)
  && is_string (prop "updatedAt" task).

(** [v.trim()] *)
Definition trim_v (v : value) : outcome value :=
  match v with
  | VStr s => Ok (VStr (trim s))
  | _ => Throw
  end.

(** [v?.trim() || ""] *)
Definition trim_or_empty (v : value) : outcome value :=
  match v with
  | VUndef | VNull => Ok (VStr EmptyString)
  | VStr s => Ok (VStr (trim s))
  | _ => Throw
  end.

(** The callback of [map] in [validateAndCleanTasks]. *)
Definition clean (task : value) : outcome value :=
  title ← get "title" task ≫= trim_v;
  description ← get "description" task ≫= trim_or_empty;
  name ← get "name" task ≫= trim_or_empty;
  role ← get "role" task ≫= trim_or_empty;
  Ok (VObj (set_prop "role" role
             (set_prop "name" name
               (set_prop "description" description
                 (set_prop "title" title (fields task)))))).

Definition validateAndCleanTasks (tasks : value) : outcome (list value) :=
  match tasks with
  | VArr l => mapO clean (List.filter valid_shape l)
  | _ => Throw
  end.

Definition clearSearchCache : JSM unit := modify (set_searchCache []).

Definition updateCache (tasks : loc) : JSM unit :=
  modify (set_cache (Some tasks));;
  now ← Date_now;
  modify (set_cacheTimestamp now);;
  l ← read tasks;
  checksum ← lift (generateChecksum (VArr l));
  let cacheEntry :=
    VObj [("data"%string, VArr l); ("timestamp"%string, VNum now);
          ("checksum"%string, VStr checksum)] in
  try_catch (setItem CACHE_KEY (JSON_stringify cacheEntry)) (mret tt).

(** [Date.now() - cache.timestamp < CACHE_EXPIRY] *)
Definition fresh (now : Z) (timestamp : value) : option Z :=
  match toNumber timestamp with
  | Some n => if now - n <? CACHE_EXPIRY then Some n else None
  | None => None
  end.

(** The inner [try] of [getTasks]: the secondary cache is adopted when
    it is young and its check sum is the one of its own payload. *)
Definition adopt_secondary (cachedData : option text) : JSM (option loc) :=
  try_catch
    (cache ← lift (JSON_parse cachedData);
     now ← Date_now;
     timestamp ← lift (get "timestamp" cache);
     match fresh now timestamp with
     | Some n =>
         data ← lift (get "data" cache);
         currentChecksum ← lift (generateChecksum data);
         stored ← lift (get "checksum" cache);
         if strict_eq (VStr currentChecksum) stored
         then
           l ← alloc (match data with VArr l => l | _ => [] end);
           modify (set_cache (Some l));;
           modify (set_cacheTimestamp n);;
           mret (Some l)
         else mret None
     | None => mret None
     end)
    (removeItem CACHE_KEY;; mret None).

(** The fallback to main storage. *)
Definition read_primary : JSM loc :=
  tasks ← getItem TASKS_KEY;
  parsedTasks ← lift (if present tasks then JSON_parse tasks else Ok (VArr []));
  validTasks ← lift (validateAndCleanTasks parsedTasks);
  l ← alloc validTasks;
  updateCache l;;
  mret l.

(** The check of the secondary cache: the array to return, if any. *)
Definition secondary_cache : JSM (option loc) :=
  cachedData ← getItem CACHE_KEY;
  if present cachedData then adopt_secondary cachedData else mret None.

Definition check_secondary : JSM loc :=
  adopted ← secondary_cache;
  match adopted with
  | Some l => mret l
  | None => read_primary
  end.

(** [this.cache && Date.now() - this.cacheTimestamp < CACHE_EXPIRY] *)
Definition memory_cache : JSM (option loc) :=
  c ← gets cache;
  match c with
  | Some l =>
      now ← Date_now;
      ts ← gets cacheTimestamp;
      mret (if now - ts <? CACHE_EXPIRY then Some l else None)
  | None => mret None
  end.

(** The body of the outer [try] of [getTasks]. *)
Definition getTasks_try : JSM loc :=
  hit ← memory_cache;
  match hit with
  | Some l => mret l
  | None => check_secondary
  end.

(** The function that [memoize] wraps. *)
Definition getTasks_inner (s : Service) : loc * Service :=
  if negb (window (world s)) then alloc_total [] s
  else catch_all getTasks_try (alloc_total []) s.

(** [getTasks = memoize(..., { maxSize: 1, ttl: CACHE_EXPIRY })]; the key
    of a call without arguments is [JSON.stringify([])]. *)
Definition getTasks (s : Service) : loc * Service :=
  let '(r, c, s') :=
    performance.memoized Date_now_total (fun _ : unit => getTasks_inner)
      (fun _ => "[]"%string) 1 CACHE_EXPIRY tt (memo s) s in
  (r, set_memo c s').

Definition saveTasksImmediate (tasks : loc) (s : Service) : Service :=
  if negb (window (world s)) then s
  else snd (try_catch
              (l ← read tasks;
               setItem TASKS_KEY (JSON_stringify (VArr l));;
               updateCache tasks;;
               clearSearchCache)
              (mret tt) s).

Section WithHost.
Context (host : Host).

Definition addTask (taskData : TaskData) : JSM value :=
  now ← Date_now;
  stamp ← Date_now;
  suffix ← random_suffix;
  let newTask :=
    VObj [("id", VStr (of_Z stamp ++ "-" ++ suffix));
          ("title", VStr (trim (title taskData)));
          ("description", VStr (default EmptyString (trim <$> description taskData)));
          ("name", VStr (default EmptyString (trim <$> name taskData)));
          ("role", VStr (default EmptyString (trim <$> role taskData)));
          ("isCompleted", VBool false);
          ("createdAt", VStr (JSDate.toISOString now));
          ("updatedAt", VStr (JSDate.toISOString now));
          ("dateAdded", VStr (dateUtils.formatDateForSearch host (OfDate (Some now))));
          ("dayAdded", VStr (dateUtils.getDayName host (OfDate (Some now))))]%string in
  tasks ← total getTasks;
  l ← read tasks;
  updatedTasks ← alloc (newTask :: l);
  modify (saveTasksImmediate updatedTasks);;
  mret newTask.

(** [tasks.findIndex((task) => task.id === taskId)] *)
Definition findIndex_id (taskId : string) (l : list value) : outcome (option nat) :=
  findIndexO (fun task => id ← get "id" task; Ok (strict_eq id (VStr taskId))) l.

(** [Object.keys(updates).some((key) => currentTask[key] !== updatedTask[key])] *)
Definition hasChanges (currentTask updatedTask : value)
  (updates : list (string * value)) : bool :=
  existsb (fun key => negb (strict_eq (prop key currentTask) (prop key updatedTask)))
    (keys updates).

(** [updates] is the property list of the patch object; [None] is the
    result [null]. *)
Definition updateTask (taskId : string) (updates : list (string * value))
  : JSM (option value) :=
  tasks ← total getTasks;
  l ← read tasks;
  taskIndex ← lift (findIndex_id taskId l);
  match taskIndex with
  | None => mret None
  | Some i =>
      let currentTask := default VUndef (l !! i) in
      now ← Date_now;
      let updatedTask :=
        VObj (set_prop "updatedAt" (VStr (JSDate.toISOString now))
                (spread (fields currentTask) updates)) in
      if negb (hasChanges currentTask updatedTask updates)
      then mret (Some currentTask)
      else
        write tasks (<[i := updatedTask]> l);;
        modify (saveTasksImmediate tasks);;
        mret (Some updatedTask)
  end.

Definition deleteTask (taskId : string) : JSM bool :=
  tasks ← total getTasks;
  l ← read tasks;
  taskIndex ← lift (findIndex_id taskId l);
  match taskIndex with
  | None => mret false
  | Some i =>
      write tasks (take i l ++ drop (S i) l);;
      modify (saveTasksImmediate tasks);;
      mret true
  end.

Definition clearAllTasks : JSM unit := fun s =>
  if negb (window (world s)) then (Ok tt, s)
  else
    (removeItem TASKS_KEY;;
     removeItem CACHE_KEY;;
     modify (set_cache None);;
     modify (set_cacheTimestamp 0);;
     clearSearchCache;;
     modify (fun s => set_memo (performance.clear (memo s)) s)) s.

(** ** [searchTasks] *)

Definition toLowerCase_v (v : value) : outcome string :=
  match v with
  | VStr s => Ok (toLowerCase s)
  | _ => Throw
  end.

(** [v.includes(q)]: on a string, and on an array. *)
Definition includes_v (v : value) (q : string) : outcome bool :=
  match v with
  | VStr s => Ok (includes s q)
  | VArr l => Ok (existsb (strict_eq (VStr q)) l)
  | _ => Throw
  end.

(** [a || b] where [b] is evaluated only when [a] is falsy. *)
Definition or_else (a b : outcome bool) : outcome bool :=
  x ← a; if (x : bool) then Ok true else b.

(** [v && v.toLowerCase().includes(query)] *)
Definition guarded_includes (v : value) (query : string) : outcome bool :=
  if truthy v then (l ← toLowerCase_v v; Ok (includes l query)) else Ok false.

(** The argument [new Date(v)] gets from a value. *)
Definition date_of_value (v : value) : date_arg :=
  match v with
  | VStr s => OfString s
  | VNum n => OfDate (Some n)
  | VNull => OfDate (Some 0)
  | VBool b => OfDate (Some (if b then 1 else 0))
  | VUndef => OfDate None
  | VArr _ | VObj _ => OfString (toStr v)
  end.

(** The template literal of the multi-word branch, lowercased. *)
Definition searchText (task : value) : outcome string :=
  title ← get "title" task;
  description ← get "description" task;
  name ← get "name" task;
  role ← get "role" task;
  dateAdded ← get "dateAdded" task;
  dayAdded ← get "dayAdded" task;
  Ok (toLowerCase
        (join " " [toStr title; toStr description; toStr name; toStr role;
                   toStr dateAdded; toStr dayAdded])).

Definition single_word (task : value) (query : string) : outcome bool :=
  or_else (t ← get "title" task; l ← toLowerCase_v t; Ok (includes l query))
 (or_else (n ← get "name" task; guarded_includes n query)
 (or_else (r ← get "role" task; guarded_includes r query)
 (or_else (d ← get "dateAdded" task; includes_v d query)
 (or_else (d ← get "dayAdded" task; l ← toLowerCase_v d; Ok (includes l query))
 (or_else (d ← get "description" task; guarded_includes d query)
          (c ← get "createdAt" task;
           Ok (dateUtils.matchesDateSearch host (date_of_value c) query))))))).

(** The callback of [tasks.filter] in [searchTasks]. *)
Definition search_filter (showCompleted showPending : bool)
  (query : string) (queryWords : list string) (task : value) : outcome bool :=
  dropC ← (if negb showCompleted
           then (c ← get "isCompleted" task; Ok (truthy c)) else Ok false);
  if (dropC : bool) then Ok false else
  dropP ← (if negb showPending
           then (c ← get "isCompleted" task; Ok (negb (truthy c))) else Ok false);
  if (dropP : bool) then Ok false else
  if negb (nonempty query) then Ok true else
  if (1 <? length queryWords)%nat
  then (text ← searchText task;
        Ok (forallb (fun word => includes text word) queryWords))
  else single_word task query.

Definition bool_str (b : bool) : string := if b then "true" else "false".

Definition searchKey (searchQuery : string) (showCompleted showPending : bool) : string :=
  (searchQuery ++ "-" ++ bool_str showCompleted ++ "-" ++ bool_str showPending)%string.

Definition searchTasks (searchQuery : string) (showCompleted showPending : bool)
  : JSM loc :=
  let cacheKey := searchKey searchQuery showCompleted showPending in
  cached ← gets (fun s => JSMap.get cacheKey (searchCache s));
  hit ← match cached with
        | Some (result, timestamp) =>
            now ← Date_now;
            mret (if now - timestamp <? 30000 then Some result else None)
        | None => mret None
        end;
  match hit with
  | Some result => mret result
  | None =>
      tasks ← total getTasks;
      if negb (nonempty (trim searchQuery)) && showCompleted && showPending
      then
        now ← Date_now;
        modify (fun s => set_searchCache
                           (JSMap.set cacheKey (tasks, now) (searchCache s)) s);;
        mret tasks
      else
        let query := trim (toLowerCase searchQuery) in
        let queryWords := List.filter nonempty (split_ws query) in
        l ← read tasks;
        kept ← lift (filterO (search_filter showCompleted showPending query queryWords) l);
        filtered ← alloc kept;
        now ← Date_now;
        modify (fun s => set_searchCache
                           (JSMap.set cacheKey (filtered, now) (searchCache s)) s);;
        mret filtered
  end.

End WithHost.
End LocalStorageService.

(* ================================================================== *)
(** * The vocabulary of the specification *)
(* ================================================================== *)

Module Spec.
Import JSString JS Run LocalStorageService.

Definition opt_string (v : value) : bool :=
  match v with VUndef | VStr _ => true | _ => false end.

(** [interface Task] of [types/task.ts]: an object with the string fields
    [id], [title], [createdAt], [updatedAt], [dateAdded], [dayAdded], the
    boolean [isCompleted], and [description], [name], [role] strings when
    present. *)
Definition is_Task (v : value) : bool :=
  match v with
  | VObj _ =>
      is_string (prop "id" v) && is_string (prop "title" v)
      && opt_string (prop "description" v) && opt_string (prop "name" v)
      && opt_string (prop "role" v) && is_boolean (prop "isCompleted" v)
      && is_string (prop "createdAt" v) && is_string (prop "updatedAt" v)
      && is_string (prop "dateAdded" v) && is_string (prop "dayAdded" v)
  | _ => false
  end.

(** A task as the data model of the specification has it, and as
    [addTask] and [validateAndCleanTasks] build it: [description], [name]
    and [role] are strings, empty by default. *)
Definition is_stored_Task (v : value) : bool :=
  is_Task v && is_string (prop "description" v)
  && is_string (prop "name" v) && is_string (prop "role" v).

Definition all_Tasks (l : list value) : Prop :=
  Forall (fun t => is_Task t = true) l.

Definition all_stored (l : list value) : Prop :=
  Forall (fun t => is_stored_Task t = true) l.

(** "at least one patched field differs from the current value" *)
Definition patch_differs (task : value) (updates : list (string * value)) : bool :=
  existsb (fun kv => negb (strict_eq (prop (fst kv) task) (snd kv))) updates.

(** A string field of a task. *)
Definition str (k : string) (task : value) : string :=
  match prop k task with VStr s => s | _ => EmptyString end.

Definition completed (task : value) : bool :=
  match prop "isCompleted" task with VBool b => b | _ => false end.

(** "drop completed tasks if [showCompleted] is false, drop pending tasks
    if [showPending] is false" *)
Definition status_eligible (showCompleted showPending : bool) (task : value) : bool :=
  (showCompleted || negb (completed task)) && (showPending || completed task).

(** "lowercase and trim the query, split on whitespace into words" *)
Definition words (q : string) : list string :=
  List.filter nonempty (split_ws (trim (toLowerCase q))).

(** The six fields that a query of several words is looked up in. *)
Definition searchable (task : value) : list string :=
  [str "title" task; str "description" task; str "name" task;
   str "role" task; str "dateAdded" task; str "dayAdded" task].

(** "the lowercased concatenation of its title, description, name, role,
    dateAdded, and dayAdded", word for word: the six texts put one after
    the other. *)
Definition concatenation (task : value) : string :=
  toLowerCase (fold_right String.append EmptyString (searchable task)).

(** No character of the string is white space. *)
Fixpoint spaceless (s : string) : bool :=
  match s with
  | EmptyString => true
  | String c r => negb (is_space c) && spaceless r
  end.

(** The Gregorian calendar: leap years, the lengths of the months, and
    the triples [(year, month, day)] that are dates of it. *)
Definition leap_year (y : Z) : bool :=
  (y mod 4 =? 0) && (negb (y mod 100 =? 0) || (y mod 400 =? 0)).

Definition days_in_month (y m : Z) : Z :=
  if m =? 2 then (if leap_year y then 29 else 28)
  else if (m =? 4) || (m =? 6) || (m =? 9) || (m =? 11) then 30
  else 31.

Definition is_date (y m d : Z) : Prop :=
  1 <= m <= 12 /\ 1 <= d <= days_in_month y m.

(** The text [YYYY-MM-DD] of a date. *)
Definition date_text (y m d : Z) : string :=
  (of_Z y ++ "-" ++ padStart 2 (of_Z m) ++ "-" ++ padStart 2 (of_Z d))%string.

Section WithHost.
Context (host : Host).

(** [text] is the [YYYY-MM-DD] date part of [createdAt]: the host reads
    [createdAt] as an instant, and [text] prints the date of the calendar
    whose day number is the local day of that instant. Where the host
    finds no date in [createdAt], the fields of the date are [NaN]. *)
Definition date_part_of (task : value) (text : string) : Prop :=
  match Date_parse host (str "createdAt" task) with
  | Some t =>
      exists y m d,
        is_date y m d
        /\ JSDate.days_from_civil y m d = JSDate.Day (JSDate.LocalTime host t)
        /\ text = date_text y m d
  | None => text = "NaN-NaN-NaN"%string
  end.

End WithHost.

(** The matching rule, on the words of the query and the date part of
    [createdAt]: one word is looked up in seven places; each of several
    words is looked up in the six searchable fields, one field at a
    time. *)
Definition matches (date_part : string) (ws : list string) (task : value) : bool :=
  match ws with
  | [] => true
  | [word] =>
      includes (toLowerCase (str "title" task)) word
      || includes (toLowerCase (str "name" task)) word
      || includes (toLowerCase (str "role" task)) word
      || includes (str "dateAdded" task) word
      || includes (toLowerCase (str "dayAdded" task)) word
      || includes (toLowerCase (str "description" task)) word
      || includes date_part word
  | _ =>
      forallb (fun word =>
                 existsb (fun field => includes (toLowerCase field) word)
                   (searchable task)) ws
  end.

(** The call of [searchTasks] is not served from the 30 second result
    cache: there is no entry under its key, or [Date.now()] finds the
    entry too old. [s0] is the state in which the search then starts. *)
Definition search_miss (key : string) (s s0 : Service) : Prop :=
  match JSMap.get key (searchCache s) with
  | None => s0 = s
  | Some (_, timestamp) =>
      exists now, Date_now_total s = (now, s0) /\ 30000 <= now - timestamp
  end.

(** A call of [getTasks] reaches the check of the secondary cache: the
    wrapper [memoize] has no young result, the page has a window, and the
    memory cache is absent or too old. [s0] is the state in which the
    check then starts, [now] the reading of [Date.now()] by [memoize]. *)
Definition memo_miss (s : Service) (now : Z) (s1 : Service) : Prop :=
  Date_now_total s = (now, s1) /\
  match JSMap.get "[]" (memo s) with
  | None => True
  | Some e => CACHE_EXPIRY <= now - performance.timestamp e
  end.

Definition memory_miss (s1 s0 : Service) : Prop :=
  match cache s1 with
  | None => s0 = s1
  | Some _ =>
      exists now, Date_now_total s1 = (now, s0)
                  /\ CACHE_EXPIRY <= now - cacheTimestamp s1
  end.

(** The check of the secondary cache ends without an array to adopt,
    in state [s2]: [getTasks] falls through to the primary record. *)
Definition falls_through (s0 s2 : Service) : Prop :=
  secondary_cache s0 = (Ok None, s2).

(** What a read of the primary record gives: the cleaned records that
    pass the shape validation, or the empty collection when the storage
    call, the parse, or the cleaning throws. *)
Definition primary_view (w : World) : list value :=
  if throws OpGet TASKS_KEY w then []
  else
    match (if present (primary w) then JSON_parse (primary w) else Ok (VArr []))
            ≫= validateAndCleanTasks with
    | Ok l => l
    | Throw => []
    end.

(** The total reading of [clean] on a record whose optional fields are
    strings, [null] or absent. *)
Definition trimmed (v : value) : value :=
  match v with
  | VStr s => VStr (trim s)
  | _ => VStr EmptyString
  end.

Definition cleaned (task : value) : value :=
  VObj (set_prop "role" (trimmed (prop "role" task))
         (set_prop "name" (trimmed (prop "name" task))
           (set_prop "description" (trimmed (prop "description" task))
             (set_prop "title" (trimmed (prop "title" task)) (fields task))))).

(** Some character of the string is not white space. *)
Fixpoint has_nonspace (s : string) : bool :=
  match s with
  | EmptyString => false
  | String c r => negb (is_space c) || has_nonspace r
  end.

Definition is_object (v : value) : bool :=
  match v with VObj _ => true | _ => false end.

(** What the check sum keeps of a task, and the text it prints for it. *)
Definition id_stamp (t : value) : string * string :=
  (str "id" t, str "updatedAt" t).

Definition pair_of (i u : string) : value :=
  VObj [("id"%string, VStr i); ("updatedAt"%string, VStr u)].

Definition pair_texts (ps : list (string * string)) : list string :=
  map (fun p => JSONText.stringify (pair_of (fst p) (snd p))) ps.

(** What the check sum reads of a record of the payload. *)
Definition digest_view (t : value) : outcome value * outcome value :=
  (get "id" t, get "updatedAt" t).

Definition optional_ok (v : value) : bool :=
  match v with VUndef | VNull | VStr _ => true | _ => false end.

Definition optionals_ok (task : value) : bool :=
  optional_ok (prop "description" task) && optional_ok (prop "name" task)
  && optional_ok (prop "role" task).

End Spec.

(* ================================================================== *)
(** * Frames: what a computation leaves alone *)
(* ================================================================== *)

Module Frame.

(** [keeps R m]: the state after [m], whether [m] returns or throws, is
    related by [R] to the state before. *)
Definition keeps (R : Service -> Service -> Prop) {A : Type} (m : JSM A) : Prop :=
  forall s, R s (snd (m s)).

(** The primary record, and what decides whether it can be read and
    written, are the same. *)
Definition same_primary (s s' : Service) : Prop :=
  primary (world s') = primary (world s)
  /\ window (world s') = window (world s)
  /\ faults (world s') = faults (world s).

Definition same_heap (s s' : Service) : Prop := heap s' = heap s.

(** Nothing but the clock has moved. *)
Definition same_storage (s s' : Service) : Prop :=
  heap s' = heap s
  /\ primary (world s') = primary (world s)
  /\ secondary (world s') = secondary (world s)
  /\ window (world s') = window (world s)
  /\ faults (world s') = faults (world s).

End Frame.

(* ================================================================== *)
(** * Concrete data for the examples *)
(* ================================================================== *)

Module Demo.
Import JS Run LocalStorageService.

(** A browser one hour east of Greenwich. *)
Definition host : Host :=
  {| LocalTZA := fun _ => 3600000; Date_parse := JSDate.parse_iso |}.

Definition task (id title description : string) (done : bool) : value :=
  VObj [("id", VStr id); ("title", VStr title);
        ("description", VStr description); ("name", VStr "John Smith");
        ("role", VStr "Family Member"); ("isCompleted", VBool done);
        ("createdAt", VStr "2024-01-15T23:30:00.123Z");
        ("updatedAt", VStr "2024-01-15T23:30:00.123Z");
        ("dateAdded", VStr "2024-01-16"); ("dayAdded", VStr "Tuesday")]%string.

Definition groceries : value :=
  task "t1" "Buy groceries" "Get milk, bread, and eggs from the store" false.
Definition meeting : value :=
  task "t2" "Team meeting" "Discuss project progress and next steps" true.

(** The service of a page that has just been loaded, at time [now], over
    the given items of [localStorage]. *)
Definition loaded (now : Z) (tasks cached : option text) : Service :=
  {| heap := []; memo := []; cache := None; cacheTimestamp := 0;
     searchCache := [];
     world := {| window := true; clock := now; future := [];
                 randoms := ["k3j9x0q1z"%string];
                 primary := tasks; secondary := cached; faults := [] |} |}.

Definition stored : option text := Some (Json (VArr [groceries; meeting])).

(** 2024-01-15T23:31:40.000Z, and the instant of [updatedAt] above. *)
Definition later : Z := 1705361500000.
Definition same_instant : Z := 1705361400123.

(** A secondary cache entry over [payload] that carries the check sum of
    [digest_of]. *)
Definition cache_entry (payload digest_of : list value) (timestamp : Z) : option text :=
  Some (Json (VObj [("data", VArr payload); ("timestamp", VNum timestamp);
                    ("checksum",
                     match generateChecksum (VArr digest_of) with
                     | Ok c => VStr c
                     | Throw => VNull
                     end)]%string)).

Definition tampered : value :=
  task "t1" "Transfer the savings" "Get milk, bread, and eggs from the store" false.

(** A record that passes the shape validation and holds a number as its
    description. *)
Definition odd_record : value :=
  VObj [("id", VStr "t0"); ("title", VStr "Write report");
        ("description", VNum 5); ("isCompleted", VBool false);
        ("createdAt", VStr "2024-01-15T23:30:00.123Z");
        ("updatedAt", VStr "2024-01-15T23:30:00.123Z")]%string.

(** A clock and a function for [memoize]. *)
Definition clock (w : Z) : Z * Z := (w, w + 1).
Definition echo (a : string) (w : Z) : string * Z := (a, w).

End Demo.

(* ================================================================== *)
(** * The rest of [lib/dateUtils.ts] *)
(* ================================================================== *)

(** [isSameDay] and [getRelativeTime]. The text that [Intl] prints for a
    date ([toLocaleDateString] with a short month, a day and a year) is
    left to the host, as a function of the time value. *)
Module DateHelpers.
Import JSString JSDate.

Section WithHost.
Context (host : Host).
Context (toLocaleDateString_short : Z -> string).

(** [a === b] on two numbers, [None] being [NaN]. *)
Definition num_eq (a b : option Z) : bool :=
  match a, b with
  | Some x, Some y => x =? y
  | _, _ => false
  end.

Definition getFullYear (d : option Z) : option Z :=
  (fun t => YearFromTime (LocalTime host t)) <$> d.
Definition getMonth (d : option Z) : option Z :=
  (fun t => MonthFromTime (LocalTime host t)) <$> d.
Definition getDate (d : option Z) : option Z :=
  (fun t => DateFromTime (LocalTime host t)) <$> d.

Definition isSameDay (date1 date2 : date_arg) : bool :=
  let d1 := dateUtils.new_Date host date1 in
  let d2 := dateUtils.new_Date host date2 in
  num_eq (getFullYear d1) (getFullYear d2)
  && num_eq (getMonth d1) (getMonth d2)
  && num_eq (getDate d1) (getDate d2).

(** [`${n} unit${n > 1 ? "s" : ""} ago`] *)
Definition ago (n : Z) (unit : string) : string :=
  let plural : string := if 1 <? n then "s"%string else EmptyString in
  (of_Z n ++ " " ++ unit ++ plural ++ " ago")%string.

(** [getRelativeTime]. On an invalid date every comparison with [NaN]
    fails and [toLocaleDateString] prints [Invalid Date]. *)
Definition getRelativeTime (date : date_arg) (w : World) : string * World :=
  let d := dateUtils.new_Date host date in
  let '(now, w') := Run.tick w in
  (match d with
   | None => "Invalid Date"%string
   | Some t =>
       let diffInMs := now - t in
       let diffInMinutes := diffInMs / (1000 * 60) in
       let diffInHours := diffInMs / (1000 * 60 * 60) in
       let diffInDays := diffInMs / (1000 * 60 * 60 * 24) in
       if diffInMinutes <? 1 then "Just now"%string
       else if diffInMinutes <? 60 then ago diffInMinutes "minute"
       else if diffInHours <? 24 then ago diffInHours "hour"
       else if diffInDays <? 30 then ago diffInDays "day"
       else toLocaleDateString_short t
   end, w').

End WithHost.
End DateHelpers.

(* ================================================================== *)
(** * Timers: [setTimeout] and [clearTimeout] *)
(* ================================================================== *)

(** The timers that are pending in the event loop, each with what its
    callback closes over. The delay of a timer decides when the event
    loop runs its callback, not what the callback does: it is not kept.
    The identifier that [setTimeout] returns is truthy, in a browser (a
    positive integer) as in Node (an object): a variable that holds one
    is [Some id], and [None] when it holds [null]. *)
Module Timers.
Section Timers.
Context {C : Type}.

Record t : Type := { pending : list (nat * C); next : nat }.

Definition empty : t := {| pending := []; next := 1 |}.

Definition setTimeout (c : C) (e : t) : nat * t :=
  (next e, {| pending := pending e ++ [(next e, c)]; next := S (next e) |}).

Definition clearTimeout (id : nat) (e : t) : t :=
  {| pending := List.filter (fun p => negb (fst p =? id)%nat) (pending e);
     next := next e |}.

(** The event loop takes the timer [id] to run its callback. *)
Definition expire (id : nat) (e : t) : option (C * t) :=
  match List.find (fun p => (fst p =? id)%nat) (pending e) with
  | Some (_, c) => Some (c, clearTimeout id e)
  | None => None
  end.

End Timers.
Arguments t : clear implicits.
End Timers.

(* ================================================================== *)
(** * [lib/performance.ts]: [debounce] *)
(* ================================================================== *)

Module Debounce.
Section Debounce.
Context {A W : Type}.
(** [func] acts on a state [W] and may throw; [timeout] is the variable
    of the closure that [debounce] returns. *)
Variable func : A -> W -> outcome unit * W.
Variable immediate : bool.

(** The function that [debounce] returns, called with [args]. *)
Definition debounced (args : A) (timeout : option nat) (e : Timers.t A) (w : W)
  : outcome unit * option nat * Timers.t A * W :=
  let callNow := immediate && negb (bool_decide (is_Some timeout)) in
  let e := match timeout with
           | Some id => Timers.clearTimeout id e
           | None => e
           end in
  let '(id, e) := Timers.setTimeout args e in
  if callNow
  then let '(r, w) := func args w in (r, Some id, e, w)
  else (Ok tt, Some id, e, w).

(** The callback of the timer that a call with [args] has set. *)
Definition later (args : A) (w : W) : outcome unit * option nat * W :=
  if immediate then (Ok tt, None, w)
  else let '(r, w) := func args w in (r, None, w).

Inductive event : Type :=
| Call (args : A)
| Expire (id : nat).

(** One turn of the event loop; an exception of [func] ends the turn and
    leaves the state as it then is. A timer that is not pending does not
    expire. *)
Definition step (st : option nat * Timers.t A * W) (ev : event)
  : option nat * Timers.t A * W :=
  let '(timeout, e, w) := st in
  match ev with
  | Call args =>
      let '(_, timeout, e, w) := debounced args timeout e w in (timeout, e, w)
  | Expire id =>
      match Timers.expire id e with
      | Some (args, e) =>
          let '(_, timeout, w) := later args w in (timeout, e, w)
      | None => st
      end
  end.

Definition run (evs : list event) (st : option nat * Timers.t A * W)
  : option nat * Timers.t A * W :=
  fold_left step evs st.

End Debounce.
End Debounce.

(* ================================================================== *)
(** * [lib/performance.ts]: [getVisibleItems], items of one height *)
(* ================================================================== *)

Module VirtualScroll.
Section Items.
Context {T : Type}.

Record window_of_items : Type := {
  startIndex : Z;
  endIndex : Z;
  visibleItems : list T;
  totalHeight : Z;
  offsetY : Z
}.

(** [items.slice(start, end)]: a negative index counts from the end. *)
Definition slice (items : list T) (start stop : Z) : list T :=
  let len := Z.of_nat (length items) in
  let from := if start <? 0 then Z.max (len + start) 0 else Z.min start len in
  let to := if stop <? 0 then Z.max (len + stop) 0 else Z.min stop len in
  take (Z.to_nat (to - from)) (drop (Z.to_nat from) items).

(** [Math.ceil(a / b)] on integers, [b] not zero. *)
Definition ceil_div (a b : Z) : Z := - ((- a) / b).

(** The branch [typeof itemHeight === "number"], on integers. With
    [itemHeight] zero the quotients are not finite numbers: [None]. *)
Definition getVisibleItems (items : list T) (containerHeight itemHeight scrollTop : Z)
  (overscan : Z) : option window_of_items :=
  if itemHeight =? 0 then None
  else
    let startIndex := Z.max 0 (scrollTop / itemHeight - overscan) in
    let visibleCount := ceil_div containerHeight itemHeight + overscan * 2 in
    let endIndex := Z.min (startIndex + visibleCount) (Z.of_nat (length items) - 1) in
    Some {| startIndex := startIndex;
            endIndex := endIndex;
            visibleItems := slice items startIndex (endIndex + 1);
            totalHeight := Z.of_nat (length items) * itemHeight;
            offsetY := startIndex * itemHeight |}.

End Items.
Arguments window_of_items : clear implicits.
End VirtualScroll.

(* ================================================================== *)
(** * [lib/performance.ts]: class [PerformanceMonitor], the metrics *)
(* ================================================================== *)

(** Durations are floating-point numbers: their arithmetic is left
    abstract, the counters are integers. *)
Module PerformanceMonitor.
Section Metrics.
Context {D : Type}.
Context (zero POSITIVE_INFINITY NEGATIVE_INFINITY : D).
Context (plus minus fmin fmax : D -> D -> D).
Context (average_of : D -> Z -> D).
Context (is_inf : D -> bool) (is_neg_inf : D -> bool).

Record metric : Type := {
  times : list D;
  count : Z;
  total : D;
  min : D;
  max : D
}.

Definition fresh_metric : metric :=
  {| times := []; count := 0; total := zero;
     min := POSITIVE_INFINITY; max := NEGATIVE_INFINITY |}.

(** [recordMetric(label, duration)] on [this.metrics] *)
Definition recordMetric (label : string) (duration : D)
  (metrics : JSMap.t metric) : JSMap.t metric :=
  let metrics :=
    match JSMap.get label metrics with
    | Some _ => metrics
    | None => JSMap.set label fresh_metric metrics
    end in
  let m := default fresh_metric (JSMap.get label metrics) in
  let m := {| times := times m ++ [duration];
              count := count m + 1;
              total := plus (total m) duration;
              min := fmin (min m) duration;
              max := fmax (max m) duration |} in
  let m :=
    if (100 <? length (times m))%nat
    then match times m with
         | removed :: rest =>
             {| times := rest; count := count m - 1;
                total := minus (total m) removed;
                min := min m; max := max m |}
         | [] => m
         end
    else m in
  JSMap.set label m metrics.

Record summary : Type := {
  average : D;
  s_min : D;
  s_max : D;
  s_count : Z;
  s_total : D
}.

(** [getMetrics(label)] *)
Definition getMetrics (label : string) (metrics : JSMap.t metric) : summary :=
  match JSMap.get label metrics with
  | Some m =>
      if count m =? 0
      then {| average := zero; s_min := zero; s_max := zero;
              s_count := 0; s_total := zero |}
      else {| average := average_of (total m) (count m);
              s_min := if is_inf (min m) then zero else min m;
              s_max := if is_neg_inf (max m) then zero else max m;
              s_count := count m;
              s_total := total m |}
  | None => {| average := zero; s_min := zero; s_max := zero;
               s_count := 0; s_total := zero |}
  end.

End Metrics.
End PerformanceMonitor.

(* ================================================================== *)
(** * [lib/performance.ts]: class [BatchProcessor] *)
(* ================================================================== *)

Module BatchProcessor.

(** [options.batchSize || 10] *)
Definition batchSize_of (option : option Z) : Z :=
  match option with
  | Some n => if n =? 0 then 10 else n
  | None => 10
  end.

Section Batch.
Context {T W : Type}.
(** [processor] acts on a state [W] that does not hold the batch
    processor itself, and may throw: a processor that calls [add],
    [flush] or [clear] of the batch processor that runs it is not
    modelled. *)
Variable processor : list T -> W -> outcome unit * W.
Variable batchSize : Z.

Record t : Type := { queue : list T; timeout : option nat }.

Definition new : t := {| queue := []; timeout := None |}.

Definition scheduleProcess (b : t) (e : Timers.t unit) : t * Timers.t unit :=
  match timeout b with
  | Some _ => (b, e)
  | None =>
      let '(id, e) := Timers.setTimeout tt e in
      ({| queue := queue b; timeout := Some id |}, e)
  end.

(** [process]: [splice(0, batchSize)] takes the first items out of the
    queue before the processor runs. *)
Definition process (b : t) (e : Timers.t unit) (w : W)
  : outcome unit * t * Timers.t unit * W :=
  match queue b with
  | [] => (Ok tt, b, e, w)
  | _ =>
      let batch := take (Z.to_nat batchSize) (queue b) in
      let b := {| queue := drop (Z.to_nat batchSize) (queue b);
                  timeout := timeout b |} in
      match processor batch w with
      | (Ok _, w) =>
          match queue b with
          | [] => (Ok tt, b, e, w)
          | _ => let '(b, e) := scheduleProcess b e in (Ok tt, b, e, w)
          end
      | (Throw, w) => (Throw, b, e, w)
      end
  end.

(** The callback of the timer: [this.process(); this.timeout = null]. *)
Definition later (b : t) (e : Timers.t unit) (w : W)
  : outcome unit * t * Timers.t unit * W :=
  match process b e w with
  | (Ok _, b, e, w) => (Ok tt, {| queue := queue b; timeout := None |}, e, w)
  | (Throw, b, e, w) => (Throw, b, e, w)
  end.

Definition add (item : T) (b : t) (e : Timers.t unit) : t * Timers.t unit :=
  scheduleProcess {| queue := queue b ++ [item]; timeout := timeout b |} e.

Definition addMany (items : list T) (b : t) (e : Timers.t unit) : t * Timers.t unit :=
  scheduleProcess {| queue := queue b ++ items; timeout := timeout b |} e.

(** [if (this.timeout) { clearTimeout(this.timeout); this.timeout = null }] *)
Definition cancel (b : t) (e : Timers.t unit) : t * Timers.t unit :=
  match timeout b with
  | Some id => ({| queue := queue b; timeout := None |}, Timers.clearTimeout id e)
  | None => (b, e)
  end.

Definition flush (b : t) (e : Timers.t unit) (w : W)
  : outcome unit * t * Timers.t unit * W :=
  let '(b, e) := cancel b e in
  match queue b with
  | [] => (Ok tt, b, e, w)
  | _ =>
      match processor (queue b) w with
      | (Ok _, w) => (Ok tt, {| queue := []; timeout := timeout b |}, e, w)
      | (Throw, w) => (Throw, b, e, w)
      end
  end.

Definition clear (b : t) (e : Timers.t unit) : t * Timers.t unit :=
  let '(b, e) := cancel b e in
  ({| queue := []; timeout := timeout b |}, e).

Definition size (b : t) : Z := Z.of_nat (length (queue b)).

Inductive event : Type :=
| Add (item : T)
| AddMany (items : list T)
| Flush
| Clear
| Expire (id : nat).

(** One turn of the event loop; an exception of the processor ends the
    turn and leaves the state as it then is. A timer that is not pending
    does not expire. *)
Definition step (st : t * Timers.t unit * W) (ev : event) : t * Timers.t unit * W :=
  let '(b, e, w) := st in
  match ev with
  | Add item => let '(b, e) := add item b e in (b, e, w)
  | AddMany items => let '(b, e) := addMany items b e in (b, e, w)
  | Flush => let '(_, b, e, w) := flush b e w in (b, e, w)
  | Clear => let '(b, e) := clear b e in (b, e, w)
  | Expire id =>
      match Timers.expire id e with
      | Some (_, e) => let '(_, b, e, w) := later b e w in (b, e, w)
      | None => st
      end
  end.

Definition run (evs : list event) (st : t * Timers.t unit * W) : t * Timers.t unit * W :=
  fold_left step evs st.

End Batch.
Arguments t : clear implicits.
Arguments event : clear implicits.
End BatchProcessor.

(* ================================================================== *)
(** * [lib/localStorage.ts]: the constructor, [saveTasks] and [cleanup] *)
(* ================================================================== *)

Module BatchedService.
Import JS Run LocalStorageService.

Definition BATCH_SIZE : Z := 5.

(** The fields that [new LocalStorageService()] starts with, on a page
    that holds no array yet. *)
Definition constructor (w : World) : Service :=
  {| heap := []; memo := []; cache := None; cacheTimestamp := 0;
     searchCache := []; world := w |}.

(** The service with its batch processor and the timers of the page. An
    operation of the queue is the closure of [saveTasks] over the array
    [tasks]: it is kept as the location of the array. *)
Record t : Type := {
  service : Service;
  batchProcessor : BatchProcessor.t loc;
  timers : Timers.t unit
}.

(** The closure that [saveTasks] adds to the queue. *)
Definition save_op (tasks : loc) : JSM unit :=
  try_catch
    (l ← read tasks;
     setItem TASKS_KEY (JSON_stringify (VArr l));;
     updateCache tasks;;
     clearSearchCache)
    (mret tt).

(** The processor of the constructor: [operations.forEach((op) => op())] *)
Fixpoint processor (operations : list loc) : JSM unit :=
  match operations with
  | [] => mret tt
  | op :: r => save_op op;; processor r
  end.

Definition saveTasks (tasks : loc) (b : t) : t :=
  if negb (window (world (service b))) then b
  else
    let '(p, e) := BatchProcessor.add tasks (batchProcessor b) (timers b) in
    {| service := service b; batchProcessor := p; timers := e |}.

(** The event loop runs the timer [id] of the batch processor. *)
Definition expire (id : nat) (b : t) : option t :=
  match Timers.expire id (timers b) with
  | Some (_, e) =>
      let '(_, p, e, s) :=
        BatchProcessor.later processor (BatchProcessor.batchSize_of (Some BATCH_SIZE))
          (batchProcessor b) e (service b) in
      Some {| service := s; batchProcessor := p; timers := e |}
  | None => None
  end.

(** [cleanup]: an exception of [flush] would leave the rest undone. *)
Definition cleanup (b : t) : outcome unit * t :=
  let '(r, p, e, s) :=
    BatchProcessor.flush processor (batchProcessor b) (timers b) (service b) in
  match r with
  | Ok _ =>
      let s := set_searchCache [] s in
      let s := set_memo (performance.clear (memo s)) s in
      (Ok tt, {| service := s; batchProcessor := p; timers := e |})
  | Throw => (Throw, {| service := s; batchProcessor := p; timers := e |})
  end.

End BatchedService.

(* ================================================================== *)
(** * Vocabulary of the further properties *)
(* ================================================================== *)

Module Further.
Import JSString JS Run LocalStorageService Spec performance.

(** The four fields that [clean] writes. *)
Definition cleaned_keys : list string :=
  ["title"; "description"; "name"; "role"]%string.

(** The wrapper [memoize] of [getTasks] is in the same state. *)
Definition same_memo (s s' : Service) : Prop := memo s' = memo s.

(** A record that [JSON.stringify] and [JSON.parse] give back as it is,
    and that [validateAndCleanTasks] keeps as it is. *)
Definition settled (t : value) : Prop :=
  toJSON t = t /\ valid_shape t = true /\ clean t = Ok t.

(** A processor, or a debounced function, that records what it is given
    and returns: the state is the record. *)
Definition recording_batches {T : Type} (batch : list T) (log : list T)
  : outcome unit * list T := (Ok tt, (log ++ batch)%list).

(** A processor seen from outside: the batch that it is handed is
    recorded, then it does what [f] does, which may throw. *)
Definition observed {T W : Type} (f : list T -> W -> outcome unit * W)
  (batch : list T) (st : list T * W) : outcome unit * (list T * W) :=
  let '(r, w) := f batch st.2 in (r, ((st.1 ++ batch)%list, w)).

Definition recording_calls {A : Type} (args : A) (log : list A)
  : outcome unit * list A := (Ok tt, (log ++ [args])%list).

(** The items that a list of events adds to a batch processor. *)
Definition added {T : Type} (evs : list (BatchProcessor.event T)) : list T :=
  concat (map (fun ev => match ev with
                         | BatchProcessor.Add x => [x]
                         | BatchProcessor.AddMany l => l
                         | _ => []
                         end) evs).

(** The measurements that a list of calls of [recordMetric] records, and
    the durations among them that carry a given label, oldest first. *)
Definition durations_of {D : Type} (label : string) (calls : list (string * D)) : list D :=
  map snd (List.filter (fun c => String.eqb (fst c) label) calls).

(** What the metrics hold for a label after the durations [ds] were
    recorded under it: nothing if there was none, else the last hundred
    of them, with their number as the count. *)
Definition holds_last_hundred {D : Type}
  (x : option (PerformanceMonitor.metric (D := D))) (ds : list D) : Prop :=
  match x with
  | None => ds = []
  | Some m =>
      ds <> []
      /\ PerformanceMonitor.times m = drop (length ds - 100) ds
      /\ PerformanceMonitor.count m = Z.of_nat (length (PerformanceMonitor.times m))
  end.

(** What the timers of a batch processor look like: none is pending, or
    the one that [this.timeout] names. *)
Definition one_timer {T : Type} (b : BatchProcessor.t T) (e : Timers.t unit) : Prop :=
  Timers.pending e = []
  \/ exists id, BatchProcessor.timeout b = Some id /\ Timers.pending e = [(id, tt)].

Definition is_Clear {T : Type} (ev : BatchProcessor.event T) : bool :=
  match ev with BatchProcessor.Clear => true | _ => false end.

Section Memoize.
Context {W A R : Type}.
Variable Date_now : W -> Z * W.
Variable fn : A -> W -> R * W.
Variable keyGenerator : A -> string.
Variable maxSize : Z.
Variable ttl : Z.

(** The caches that calls of the memoised function and of its [clear]
    lead to, from the empty cache that [memoize] starts with. *)
Inductive cache_of_memoize : JSMap.t (entry R) -> Prop :=
| cache_new : cache_of_memoize []
| cache_call args c w :
    cache_of_memoize c ->
    cache_of_memoize (snd (fst (memoized Date_now fn keyGenerator maxSize ttl args c w)))
| cache_clear c :
    cache_of_memoize c -> cache_of_memoize (clear c).

End Memoize.
End Further.

(* ================================================================== *)
(** * Properties *)
(* ================================================================== *)

Import JSString JS Run LocalStorageService Spec Frame.

(** ** Strings *)

Section StringFacts.

Lemma is_space_lower c : is_space (lower_char c) = is_space c.
Proof. destruct c as [[] [] [] [] [] [] [] []]; reflexivity. Qed.

Lemma trimStart_lower s : trimStart (toLowerCase s) = toLowerCase (trimStart s).
Proof.
  induction s as [|c r IH]; simpl; [reflexivity|].
  rewrite is_space_lower. destruct (is_space c); [exact IH | reflexivity].
Qed.

Lemma trimEnd_lower s : trimEnd (toLowerCase s) = toLowerCase (trimEnd s).
Proof.
  induction s as [|c r IH]; simpl; [reflexivity|].
  rewrite IH, is_space_lower.
  destruct (trimEnd r); simpl; [destruct (is_space c)|]; reflexivity.
Qed.

Lemma trim_lower s : trim (toLowerCase s) = toLowerCase (trim s).
Proof. unfold trim. now rewrite trimStart_lower, trimEnd_lower. Qed.

Lemma lower_nonempty s : nonempty (toLowerCase s) = nonempty s.
Proof. destruct s; reflexivity. Qed.

Lemma trimStart_head s c r : trimStart s = String c r -> is_space c = false.
Proof.
  induction s as [|a s IH]; simpl; [discriminate|].
  destruct (is_space a) eqn:E; [exact IH|].
  intros [= -> _]. exact E.
Qed.

Lemma trimEnd_head c r c' r' : trimEnd (String c r) = String c' r' -> c' = c.
Proof.
  simpl. destruct (trimEnd r); [destruct (is_space c)|]; congruence.
Qed.

Lemma trimEnd_idem s : trimEnd (trimEnd s) = trimEnd s.
Proof.
  induction s as [|c r IH]; simpl; [reflexivity|].
  destruct (trimEnd r) as [|c' t] eqn:E.
  - destruct (is_space c) eqn:Ec; simpl; [reflexivity | now rewrite Ec].
  - change (trimEnd (String c (String c' t)) = String c (String c' t)).
    simpl in IH |- *. destruct (trimEnd t); [destruct (is_space c')|]; congruence.
Qed.

(** A string that [trimEnd] leaves alone: its tail is empty or again such
    a string, and it holds a character that is not white space. *)
Lemma trimEnd_fix_tail c r :
  trimEnd (String c r) = String c r ->
  (r = EmptyString /\ is_space c = false) \/ (r <> EmptyString /\ trimEnd r = r).
Proof.
  simpl. destruct (trimEnd r) as [|c' t] eqn:E.
  - destruct (is_space c) eqn:Ec; [discriminate|]. intros [= <-]. now left.
  - intros [= <-]. right. split; congruence.
Qed.

Lemma trimEnd_fix_nonspace s :
  trimEnd s = s -> s <> EmptyString -> has_nonspace s = true.
Proof.
  induction s as [|c r IH]; [congruence|].
  intros H _. destruct (trimEnd_fix_tail _ _ H) as [[-> Hc]|[Hr Hfix]]; simpl.
  - now rewrite Hc.
  - rewrite (IH Hfix Hr). apply orb_true_r.
Qed.

Lemma split_go_open_nonempty s cur :
  cur <> EmptyString -> List.filter nonempty (split_go s cur false) <> [].
Proof.
  revert cur. induction s as [|c r IH]; intros cur Hcur; simpl.
  - destruct cur; [congruence|]. simpl. discriminate.
  - destruct (is_space c).
    + simpl. destruct cur; [congruence|]. simpl. discriminate.
    + apply IH. destruct cur; discriminate.
Qed.

Lemma split_go_sep_nonempty s :
  has_nonspace s = true -> List.filter nonempty (split_go s EmptyString true) <> [].
Proof.
  induction s as [|c r IH]; simpl; [discriminate|].
  destruct (is_space c); simpl.
  - exact IH.
  - intros _. apply split_go_open_nonempty. discriminate.
Qed.

Lemma append_cons c (s r : string) :
  (String c s ++ r)%string = String c (s ++ r)%string.
Proof. reflexivity. Qed.

Lemma append_empty_r (s : string) : (s ++ "")%string = s.
Proof.
  induction s as [|ch s IH]; [reflexivity|].
  rewrite append_cons. congruence.
Qed.

Lemma append_snoc (s r : string) c :
  ((s ++ String c "") ++ r)%string = (s ++ String c r)%string.
Proof.
  induction s as [|ch s IH]; [reflexivity|].
  rewrite !append_cons. congruence.
Qed.

Lemma split_go_single s cur w :
  cur <> EmptyString ->
  s = EmptyString \/ trimEnd s = s ->
  List.filter nonempty (split_go s cur false) = [w] ->
  w = (cur ++ s)%string.
Proof.
  revert cur. induction s as [|c r IH]; intros cur Hcur Hfix; simpl.
  - destruct cur; [congruence|]. simpl. intros [= <-].
    now rewrite append_empty_r.
  - destruct Hfix as [|Hfix]; [discriminate|].
    destruct (trimEnd_fix_tail _ _ Hfix) as [[-> Hc]|[Hr Hfix']].
    + rewrite Hc. simpl. destruct (cur ++ String c "")%string eqn:E.
      * destruct cur; discriminate.
      * simpl. now intros [= <-].
    + destruct (is_space c) eqn:Ec.
      * simpl. destruct cur; [congruence|]. simpl. intros [= _ H].
        exfalso. revert H. apply split_go_sep_nonempty.
        now apply trimEnd_fix_nonspace.
      * intros H. apply IH in H; [| destruct cur; discriminate | now right].
        rewrite H. apply append_snoc.
Qed.

(** The words of a trimmed query that is not empty: there is one at
    least, and when there is exactly one it is the query itself. *)
Lemma words_of_trimmed q :
  let query := trim q in
  query <> EmptyString ->
  List.filter nonempty (split_ws query) <> []
  /\ forall w, List.filter nonempty (split_ws query) = [w] -> w = query.
Proof.
  intros query Hq. unfold split_ws.
  assert (Hfix : trimEnd query = query) by apply trimEnd_idem.
  destruct query as [|c r] eqn:E; [congruence|].
  assert (Hc : is_space c = false).
  { unfold query, trim in E. destruct (trimStart q) as [|c0 r0] eqn:E0; [discriminate|].
    pose proof (trimEnd_head _ _ _ _ E) as ->. eapply trimStart_head; eauto. }
  simpl. rewrite Hc. split.
  - apply split_go_open_nonempty. discriminate.
  - intros w H. apply split_go_single in H; [exact H | discriminate |].
    destruct (trimEnd_fix_tail _ _ Hfix) as [[-> _]|[_ ?]]; auto.
Qed.

Lemma includes_empty q : q <> EmptyString -> includes EmptyString q = false.
Proof. destruct q; [congruence | reflexivity]. Qed.

End StringFacts.

(** ** Frames *)

Ltac jsm_unfold :=
  unfold mbind, JSM_bind, mret, JSM_ret, lift, throw, gets, modify, total,
    try_catch, Date_now, getItem, setItem, removeItem, alloc, read, write,
    clearSearchCache in *.

Section Frames.
(** The rules of [keeps] for a relation that is reflexive and transitive. *)
Context (R : Service -> Service -> Prop).
Context (R_refl : forall s, R s s).
Context (R_trans : forall s1 s2 s3, R s1 s2 -> R s2 s3 -> R s1 s3).


Lemma keeps_ret {A : Type} (a : A) : keeps R (mret a).
Proof. intros s. apply R_refl. Qed.

Lemma keeps_lift {A : Type} (o : outcome A) : keeps R (lift o).
Proof. intros s. apply R_refl. Qed.

Lemma keeps_gets {A : Type} (f : Service -> A) : keeps R (gets f).
Proof. intros s. apply R_refl. Qed.

Lemma keeps_read a : keeps R (read a).
Proof. intros s. apply R_refl. Qed.

Lemma keeps_bind {A B : Type} (m : JSM A) (f : A -> JSM B) :
  keeps R m -> (forall a, keeps R (f a)) -> keeps R (m ≫= f).
Proof.
  intros Hm Hf s. specialize (Hm s). unfold mbind, JSM_bind.
  destruct (m s) as [[a|] s1]; simpl in *; [|exact Hm].
  eapply R_trans; [exact Hm | apply Hf].
Qed.

Lemma keeps_try_catch {A : Type} (m h : JSM A) :
  keeps R m -> keeps R h -> keeps R (try_catch m h).
Proof.
  intros Hm Hh s. specialize (Hm s). unfold try_catch.
  destruct (m s) as [[a|] s1]; simpl in *; [exact Hm|].
  eapply R_trans; [exact Hm | apply Hh].
Qed.

Lemma keeps_modify (f : Service -> Service) :
  (forall s, R s (f s)) -> keeps R (modify f).
Proof. intros H s. apply H. Qed.

Lemma keeps_total {A : Type} (f : Service -> A * Service) :
  (forall s, R s (snd (f s))) -> keeps R (total f).
Proof. intros H s. specialize (H s). unfold total. now destruct (f s). Qed.

Lemma keeps_catch_all {A : Type} (m : JSM A) (h : Service -> A * Service) :
  keeps R m -> (forall s, R s (snd (h s))) -> forall s, R s (snd (catch_all m h s)).
Proof.
  intros Hm Hh s. specialize (Hm s). unfold catch_all.
  destruct (m s) as [[a|] s1]; simpl in *; [exact Hm|].
  eapply R_trans; [exact Hm | apply Hh].
Qed.
End Frames.

Lemma same_primary_refl s : same_primary s s.
Proof. now repeat split. Qed.
Lemma same_primary_trans s1 s2 s3 :
  same_primary s1 s2 -> same_primary s2 s3 -> same_primary s1 s3.
Proof. unfold same_primary. intuition congruence. Qed.
Lemma same_heap_refl s : same_heap s s.
Proof. reflexivity. Qed.
Lemma same_heap_trans s1 s2 s3 : same_heap s1 s2 -> same_heap s2 s3 -> same_heap s1 s3.
Proof. unfold same_heap. congruence. Qed.

Lemma tick_same_storage s : same_storage s (snd (Date_now_total s)).
Proof.
  unfold Date_now_total, tick. destruct (future (world s)); simpl; now repeat split.
Qed.

Lemma Date_now_primary : keeps same_primary Date_now.
Proof.
  intros s. unfold Date_now. pose proof (tick_same_storage s) as H.
  destruct (Date_now_total s); simpl in *. unfold same_storage, same_primary in *. tauto.
Qed.

Lemma Date_now_heap : keeps same_heap Date_now.
Proof.
  intros s. unfold Date_now. pose proof (tick_same_storage s) as H.
  destruct (Date_now_total s); simpl in *. unfold same_storage, same_heap in *. tauto.
Qed.

Lemma getItem_primary k : keeps same_primary (getItem k).
Proof. intros s. unfold getItem. destruct (throws _ _ _); apply same_primary_refl. Qed.

Lemma setItem_cache_primary x : keeps same_primary (setItem CACHE_KEY x).
Proof. intros s. unfold setItem. destruct (throws _ _ _); simpl; now repeat split. Qed.

Lemma removeItem_cache_primary : keeps same_primary (removeItem CACHE_KEY).
Proof. intros s. unfold removeItem. destruct (throws _ _ _); simpl; now repeat split. Qed.

Lemma alloc_primary l : keeps same_primary (alloc l).
Proof. intros s. now repeat split. Qed.

Lemma setItem_heap k x : keeps same_heap (setItem k x).
Proof. intros s. unfold setItem. destruct (throws _ _ _); reflexivity. Qed.

Ltac frame_step R_refl R_trans :=
  first
    [ apply (keeps_bind _ R_trans); [|intros ?]
    | apply (keeps_try_catch _ R_trans)
    | apply (keeps_ret _ R_refl)
    | apply (keeps_lift _ R_refl)
    | apply (keeps_gets _ R_refl)
    | apply (keeps_read _ R_refl)
    | apply keeps_modify; intros ?; solve [now repeat split]
    | apply Date_now_primary | apply Date_now_heap
    | apply getItem_primary | apply setItem_cache_primary
    | apply removeItem_cache_primary | apply alloc_primary
    | apply setItem_heap
    | match goal with |- keeps _ (match ?x with _ => _ end) => destruct x end
    | match goal with |- keeps _ (if ?x then _ else _) => destruct x end
    | match goal with |- keeps _ (let _ := _ in _) => cbv zeta end ].

Ltac frame_primary := repeat frame_step same_primary_refl same_primary_trans.
Ltac frame_heap := repeat frame_step same_heap_refl same_heap_trans.

Lemma updateCache_primary a : keeps same_primary (updateCache a).
Proof. unfold updateCache. frame_primary. Qed.

Lemma updateCache_heap a : keeps same_heap (updateCache a).
Proof. unfold updateCache. frame_heap. Qed.

Lemma getTasks_try_primary : keeps same_primary getTasks_try.
Proof.
  unfold getTasks_try, memory_cache, check_secondary, adopt_secondary, read_primary.
  frame_primary.
Qed.

Lemma getTasks_inner_primary s : same_primary s (snd (getTasks_inner s)).
Proof.
  unfold getTasks_inner. destruct (negb _).
  - now repeat split.
  - apply (keeps_catch_all _ same_primary_trans); [apply getTasks_try_primary|].
    intros ?. now repeat split.
Qed.

(** The two ways through the wrapper [memoize]. *)
Lemma getTasks_hit s now s1 e :
  Date_now_total s = (now, s1) ->
  JSMap.get "[]" (memo s) = Some e ->
  now - performance.timestamp e < CACHE_EXPIRY ->
  getTasks s = (performance.value_of e, set_memo (memo s) s1).
Proof.
  intros Ht He Hf. unfold getTasks, performance.memoized. rewrite Ht, He.
  apply Z.ltb_lt in Hf. rewrite Hf, orb_true_r. reflexivity.
Qed.

Lemma getTasks_miss s now s1 :
  memo_miss s now s1 ->
  getTasks s =
    (fst (getTasks_inner s1),
     set_memo
       (JSMap.set "[]"
          {| performance.value_of := fst (getTasks_inner s1);
             performance.timestamp := now |}
          (if JSMap.size (memo s) >=? 1 then performance.evict (memo s)
           else memo s))
       (snd (getTasks_inner s1))).
Proof.
  intros [Ht He]. unfold getTasks, performance.memoized. rewrite Ht.
  destruct (JSMap.get _ _) as [e|].
  - apply Z.ltb_ge in He. rewrite He. simpl.
    destruct (getTasks_inner s1); reflexivity.
  - destruct (getTasks_inner s1); reflexivity.
Qed.

Lemma getTasks_cases s :
  exists now s1, Date_now_total s = (now, s1) /\
    ((exists e, JSMap.get "[]" (memo s) = Some e
                /\ now - performance.timestamp e < CACHE_EXPIRY)
     \/ memo_miss s now s1).
Proof.
  destruct (Date_now_total s) as [now s1] eqn:Ht. exists now, s1. split; [reflexivity|].
  unfold memo_miss. rewrite Ht.
  destruct (JSMap.get _ _) as [e|]; [|now right].
  destruct (Z.lt_ge_cases (now - performance.timestamp e) CACHE_EXPIRY); eauto.
Qed.

Lemma getTasks_primary s : same_primary s (snd (getTasks s)).
Proof.
  destruct (getTasks_cases s) as (now & s1 & Ht & [(e & He & Hf)|Hm]).
  - rewrite (getTasks_hit _ _ _ _ Ht He Hf). simpl.
    pose proof (tick_same_storage s) as H. rewrite Ht in H.
    unfold same_storage, same_primary in *. simpl in *. tauto.
  - rewrite (getTasks_miss _ _ _ Hm). simpl.
    pose proof (tick_same_storage s) as H. rewrite Ht in H.
    pose proof (getTasks_inner_primary s1) as H2.
    unfold same_storage, same_primary in *. simpl in *. intuition congruence.
Qed.

Lemma saveTasksImmediate_heap a s : heap (saveTasksImmediate a s) = heap s.
Proof.
  unfold saveTasksImmediate. destruct (negb _); [reflexivity|].
  apply (keeps_try_catch _ same_heap_trans).
  - frame_heap.
  - apply (keeps_ret _ same_heap_refl).
Qed.

Lemma saveTasksImmediate_primary a s l :
  window (world s) = true ->
  throws OpSet TASKS_KEY (world s) = false ->
  heap s !! a = Some l ->
  primary (world (saveTasksImmediate a s)) = Some (JSON_stringify (VArr l)).
Proof.
  intros Hw Hf Hl. unfold saveTasksImmediate. rewrite Hw. simpl.
  unfold try_catch, mbind, JSM_bind, read, setItem at 1. rewrite Hl, Hf. simpl.
  set (s1 := set_world _ s).
  assert (H : keeps same_primary (updateCache a;; clearSearchCache)).
  { frame_primary. }
  specialize (H s1). unfold mbind, JSM_bind in H.
  destruct (updateCache a s1) as [[[]|] s2]; simpl in *;
    destruct H as [H _]; exact H.
Qed.

(** ** Objects and the search for an id *)

Lemma is_Task_get k t : is_Task t = true -> get k t = Ok (prop k t).
Proof. destruct t; try discriminate. reflexivity. Qed.

Lemma is_Task_id t : is_Task t = true -> exists i, prop "id" t = VStr i.
Proof.
  destruct t; try discriminate. unfold is_Task.
  destruct (prop "id" _); try discriminate. eauto.
Qed.

Lemma strict_eq_str a b : strict_eq (VStr a) (VStr b) = true <-> a = b.
Proof. simpl. apply String.eqb_eq. Qed.

Lemma findIndex_id_none taskId l :
  all_Tasks l ->
  (forall t, t ∈ l -> prop "id" t <> VStr taskId) ->
  findIndex_id taskId l = Ok None.
Proof.
  unfold findIndex_id. induction 1 as [|t l Ht Hl IH]; intros Hne; [reflexivity|].
  simpl. rewrite (is_Task_get _ _ Ht). simpl.
  destruct (is_Task_id _ Ht) as [i Hi]. rewrite Hi.
  destruct (strict_eq (VStr i) (VStr taskId)) eqn:E.
  - apply strict_eq_str in E. subst. exfalso. eapply Hne; [left|]. exact Hi.
  - unfold mbind, outcome_bind in *. rewrite IH; [reflexivity|].
    intros t' Ht'. apply Hne. now right.
Qed.

Lemma findIndex_id_found taskId pre cur post :
  all_Tasks (pre ++ cur :: post) ->
  (forall t, t ∈ pre -> prop "id" t <> VStr taskId) ->
  prop "id" cur = VStr taskId ->
  findIndex_id taskId (pre ++ cur :: post) = Ok (Some (length pre)).
Proof.
  unfold findIndex_id. induction pre as [|t pre IH]; intros Hall Hne Hid.
  - simpl. inversion Hall as [|? ? Ht _]; subst.
    rewrite (is_Task_get _ _ Ht). simpl. rewrite Hid. simpl.
    now rewrite String.eqb_refl.
  - inversion Hall as [|? ? Ht Hl]; subst. simpl.
    rewrite (is_Task_get _ _ Ht). simpl.
    destruct (is_Task_id _ Ht) as [i Hi]. rewrite Hi.
    destruct (strict_eq (VStr i) (VStr taskId)) eqn:E.
    + apply strict_eq_str in E. subst. exfalso. eapply Hne; [left|]. exact Hi.
    + unfold mbind, outcome_bind in *. rewrite IH; auto.
      intros t' Ht'. apply Hne. now right.
Qed.

(** ** Objects *)

Lemma assoc_set_prop k k' v fs :
  assoc k (set_prop k' v fs) = if String.eqb k k' then v else assoc k fs.
Proof.
  induction fs as [|[k0 v0] fs IH]; simpl.
  - destruct (String.eqb k k'); reflexivity.
  - destruct (String.eqb k' k0) eqn:E0; simpl.
    + apply String.eqb_eq in E0. subst k0.
      destruct (String.eqb k k'); reflexivity.
    + destruct (String.eqb k k0) eqn:E1.
      * apply String.eqb_eq in E1. subst k0.
        rewrite String.eqb_sym in E0. now rewrite E0.
      * exact IH.
Qed.

Lemma assoc_spread k fs ups :
  NoDup (keys ups) ->
  assoc k (spread fs ups) = if bool_decide (k ∈ keys ups) then assoc k ups else assoc k fs.
Proof.
  unfold spread. revert fs. induction ups as [|[k0 v0] ups IH]; intros fs Hnd; simpl.
  - reflexivity.
  - inversion Hnd as [|? ? Hk0 Hnd']; subst. rewrite IH by assumption.
    rewrite assoc_set_prop.
    destruct (String.eqb k k0) eqn:E.
    + apply String.eqb_eq in E. subst k0.
      rewrite (bool_decide_eq_false_2 _ Hk0).
      rewrite bool_decide_eq_true_2 by left. reflexivity.
    + apply String.eqb_neq in E.
      destruct (bool_decide (k ∈ keys ups)) eqn:Ek.
      * apply bool_decide_eq_true_1 in Ek.
        rewrite bool_decide_eq_true_2 by (now right). reflexivity.
      * apply bool_decide_eq_false_1 in Ek.
        rewrite bool_decide_eq_false_2; [reflexivity|].
        intros [?|?]%elem_of_cons; tauto.
Qed.

Lemma assoc_elem k v ups : NoDup (keys ups) -> (k, v) ∈ ups -> assoc k ups = v.
Proof.
  induction ups as [|[k0 v0] ups IH]; intros Hnd Hin; [inversion Hin|].
  inversion Hnd as [|? ? Hk0 Hnd']; subst. simpl.
  apply elem_of_cons in Hin as [[= -> ->]|Hin].
  - now rewrite String.eqb_refl.
  - destruct (String.eqb k k0) eqn:E; [|auto].
    apply String.eqb_eq in E. subst k0. exfalso. apply Hk0.
    unfold keys. apply list_elem_of_fmap. exists (k, v). auto.
Qed.

(** The patched task holds the value of the patch under every key of the
    patch, but [updatedAt], which holds the time stamp. *)
Lemma prop_patched cur updates stamp k v :
  NoDup (keys updates) -> (k, v) ∈ updates -> k <> "updatedAt"%string ->
  prop k (VObj (set_prop "updatedAt" stamp (spread (fields cur) updates))) = v.
Proof.
  intros Hnd Hin Hk. unfold prop. simpl. rewrite assoc_set_prop.
  apply String.eqb_neq in Hk. rewrite Hk. rewrite assoc_spread by assumption.
  rewrite bool_decide_eq_true_2.
  - now apply assoc_elem.
  - unfold keys. apply list_elem_of_fmap. exists (k, v). auto.
Qed.

Lemma prop_stamp cur updates stamp :
  prop "updatedAt" (VObj (set_prop "updatedAt" stamp (spread (fields cur) updates))) = stamp.
Proof. unfold prop. simpl. now rewrite assoc_set_prop. Qed.

Lemma hasChanges_patch cur updates stamp :
  NoDup (keys updates) -> "updatedAt"%string ∉ keys updates ->
  hasChanges cur (VObj (set_prop "updatedAt" stamp (spread (fields cur) updates))) updates
  = patch_differs cur updates.
Proof.
  intros Hnd Hno. unfold hasChanges, patch_differs, keys.
  set (new := VObj _).
  assert (H : forall kv, kv ∈ updates -> prop (fst kv) new = snd kv).
  { intros [k v] Hin. apply prop_patched; auto. simpl.
    intros ->. apply Hno. unfold keys. apply list_elem_of_fmap. exists ("updatedAt"%string, v). auto. }
  clearbody new. clear Hnd Hno.
  induction updates as [|kv ups IH]; [reflexivity|]. simpl.
  rewrite (H kv) by left. f_equal. apply IH. intros ? ?. apply H. now right.
Qed.

(** ** [updateTask] and [deleteTask] *)

Section Mutations.

Lemma updateTask_run taskId updates s a s1 l :
  getTasks s = (a, s1) -> heap s1 !! a = Some l ->
  updateTask taskId updates s =
    match findIndex_id taskId l with
    | Throw => (Throw, s1)
    | Ok None => (Ok None, s1)
    | Ok (Some i) =>
        let '(now, s2) := Date_now_total s1 in
        let currentTask := default VUndef (l !! i) in
        let updatedTask :=
          VObj (set_prop "updatedAt" (VStr (JSDate.toISOString now))
                  (spread (fields currentTask) updates)) in
        if hasChanges currentTask updatedTask updates
        then (Ok (Some updatedTask),
              saveTasksImmediate a
                (set_heap (<[a := <[i := updatedTask]> l]> (heap s2)) s2))
        else (Ok (Some currentTask), s2)
    end.
Proof.
  intros Hg Hl. unfold updateTask. jsm_unfold. rewrite Hg. simpl. rewrite Hl. simpl.
  destruct (findIndex_id taskId l) as [[i|]|]; try reflexivity.
  destruct (Date_now_total s1) as [now s2]. simpl.
  destruct (hasChanges _ _ _); reflexivity.
Qed.

Lemma deleteTask_run taskId s a s1 l :
  getTasks s = (a, s1) -> heap s1 !! a = Some l ->
  deleteTask taskId s =
    match findIndex_id taskId l with
    | Throw => (Throw, s1)
    | Ok None => (Ok false, s1)
    | Ok (Some i) =>
        (Ok true,
         saveTasksImmediate a
           (set_heap (<[a := take i l ++ drop (S i) l]> (heap s1)) s1))
    end.
Proof.
  intros Hg Hl. unfold deleteTask. jsm_unfold. rewrite Hg. simpl. rewrite Hl. simpl.
  destruct (findIndex_id taskId l) as [[i|]|]; reflexivity.
Qed.

(** C6. On a collection that holds no task with the id, [updateTask]
    returns [null] and [deleteTask] returns [false]; neither raises. Both
    leave the service in the state that the read of the collection
    ([getTasks]) leaves: the collection in memory is untouched and the
    primary record is the one stored before the call. *)
Theorem unknown_id_is_reported_not_raised taskId updates s a s1 l :
  getTasks s = (a, s1) -> heap s1 !! a = Some l ->
  all_Tasks l ->
  (forall t, t ∈ l -> prop "id" t <> VStr taskId) ->
  updateTask taskId updates s = (Ok None, s1)
  /\ deleteTask taskId s = (Ok false, s1)
  /\ primary (world s1) = primary (world s)
  /\ heap s1 !! a = Some l.
Proof.
  intros Hg Hl Hall Hne.
  rewrite (updateTask_run _ _ _ _ _ _ Hg Hl), (deleteTask_run _ _ _ _ _ Hg Hl).
  rewrite (findIndex_id_none _ _ Hall Hne).
  repeat split; auto.
  pose proof (getTasks_primary s) as H. rewrite Hg in H. apply H.
Qed.

Lemma heap_after_save (a : loc) l (s : Service) :
  (a < length (heap s))%nat ->
  heap (saveTasksImmediate a (set_heap (<[a := l]> (heap s)) s)) !! a = Some l.
Proof.
  intros Ha. rewrite saveTasksImmediate_heap. simpl.
  now apply list_lookup_insert_eq.
Qed.

(** C9. On a collection that holds a task with the id, [updateTask]
    keeps the array of the collection, its length and its order: the
    array is [pre ++ r :: post] where [r] is the returned task, at the
    place of the first task with the id, and every other index holds what
    it held. When the task was changed and storage takes the write, the
    primary record is that same list. *)
Theorem updateTask_replaces_in_place taskId updates s a s1 pre cur post :
  getTasks s = (a, s1) -> heap s1 !! a = Some (pre ++ cur :: post) ->
  all_Tasks (pre ++ cur :: post) ->
  prop "id" cur = VStr taskId ->
  (forall t, t ∈ pre -> prop "id" t <> VStr taskId) ->
  exists r s',
    updateTask taskId updates s = (Ok (Some r), s')
    /\ heap s' !! a = Some (pre ++ r :: post)
    /\ length (pre ++ r :: post) = length (pre ++ cur :: post)
    /\ (forall j, j <> length pre ->
          (pre ++ r :: post) !! j = (pre ++ cur :: post) !! j)
    /\ (r <> cur -> window (world s1) = true ->
        throws OpSet TASKS_KEY (world s1) = false ->
        primary (world s') = Some (JSON_stringify (VArr (pre ++ r :: post)))).
Proof.
  intros Hg Hl Hall Hid Hne.
  rewrite (updateTask_run _ _ _ _ _ _ Hg Hl).
  rewrite (findIndex_id_found _ _ _ _ Hall Hne Hid).
  pose proof (tick_same_storage s1) as Ht.
  destruct (Date_now_total s1) as [now s2]. simpl in Ht.
  destruct Ht as (Hh & Hp & Hsec & Hw & Hf).
  rewrite list_lookup_middle by reflexivity. simpl.
  set (new := VObj _).
  assert (Hlen : forall r, length (pre ++ r :: post) = length (pre ++ cur :: post)).
  { intros r. rewrite !length_app. reflexivity. }
  assert (Hoth : forall r j, j <> length pre ->
             (pre ++ r :: post) !! j = (pre ++ cur :: post) !! j).
  { intros r j Hj. destruct (decide (j < length pre)%nat).
    - now rewrite !lookup_app_l.
    - rewrite !lookup_app_r by lia.
      destruct (j - length pre)%nat eqn:E; [lia | reflexivity]. }
  assert (Hins : forall r, <[length pre := r]> (pre ++ cur :: post) = pre ++ r :: post).
  { intros r. rewrite insert_app_r_alt by lia. now rewrite Nat.sub_diag. }
  assert (Ha : (a < length (heap s2))%nat).
  { rewrite Hh. eapply lookup_lt_Some; eauto. }
  destruct (hasChanges _ _ _).
  - exists new, (saveTasksImmediate a
                   (set_heap (<[a := <[length pre := new]> (pre ++ cur :: post)]> (heap s2)) s2)).
    split; [reflexivity|]. rewrite Hins.
    split; [now apply heap_after_save|].
    split; [apply Hlen|]. split; [apply Hoth|].
    intros _ Hwin Hflt. apply saveTasksImmediate_primary; simpl.
    + congruence.
    + unfold throws in *. simpl. now rewrite Hf.
    + now apply list_lookup_insert_eq.
  - exists cur, s2. split; [reflexivity|].
    split; [now rewrite Hh|]. split; [reflexivity|]. split; [reflexivity|].
    congruence.
Qed.

(** C1, amended. For a patch that does not name [updatedAt], on a
    collection that holds a task with the id: when every field of the
    patch equals the current value, [updateTask] returns the task itself
    and leaves heap and storage alone; when a field differs, it returns
    the task with the fields of the patch applied, the other fields kept
    and [updatedAt] set to the reading of the clock (changed whenever that
    reading is not the stored stamp), puts it at the place of the old one,
    and, with a window and a primary key that takes the write, stores the
    collection at once. *)
Theorem updateTask_noop_or_stamp taskId updates s a s1 pre cur post now s2 :
  getTasks s = (a, s1) -> heap s1 !! a = Some (pre ++ cur :: post) ->
  all_Tasks (pre ++ cur :: post) ->
  prop "id" cur = VStr taskId ->
  (forall t, t ∈ pre -> prop "id" t <> VStr taskId) ->
  NoDup (keys updates) -> "updatedAt"%string ∉ keys updates ->
  Date_now_total s1 = (now, s2) ->
  (patch_differs cur updates = false ->
     updateTask taskId updates s = (Ok (Some cur), s2)
     /\ heap s2 = heap s1
     /\ primary (world s2) = primary (world s1)
     /\ secondary (world s2) = secondary (world s1))
  /\ (patch_differs cur updates = true ->
      exists new s',
        updateTask taskId updates s = (Ok (Some new), s')
        /\ (forall k v, (k, v) ∈ updates -> prop k new = v)
        /\ (forall k, k ∉ keys updates -> k <> "updatedAt"%string ->
              prop k new = prop k cur)
        /\ prop "updatedAt" new = VStr (JSDate.toISOString now)
        /\ (prop "updatedAt" cur <> VStr (JSDate.toISOString now) ->
            prop "updatedAt" new <> prop "updatedAt" cur)
        /\ heap s' !! a = Some (pre ++ new :: post)
        /\ (window (world s1) = true ->
            throws OpSet TASKS_KEY (world s1) = false ->
            primary (world s') = Some (JSON_stringify (VArr (pre ++ new :: post))))).
Proof.
  intros Hg Hl Hall Hid Hne Hnd Hno Ht.
  rewrite (updateTask_run _ _ _ _ _ _ Hg Hl).
  rewrite (findIndex_id_found _ _ _ _ Hall Hne Hid).
  pose proof (tick_same_storage s1) as Hs. rewrite Ht in *. simpl in Hs.
  destruct Hs as (Hh & Hp & Hsec & Hw & Hf).
  rewrite list_lookup_middle by reflexivity. simpl.
  rewrite hasChanges_patch by assumption.
  split; intros Hd; rewrite Hd.
  - auto.
  - eexists _, _. split; [reflexivity|].
    split. { intros k v Hin. apply prop_patched; auto.
             intros ->. apply Hno. unfold keys. apply list_elem_of_fmap.
             exists ("updatedAt"%string, v). auto. }
    split. { intros k Hk Hk'. unfold prop at 1. simpl. rewrite assoc_set_prop.
             apply String.eqb_neq in Hk'. rewrite Hk'.
             rewrite assoc_spread by assumption.
             rewrite bool_decide_eq_false_2 by assumption.
             inversion Hall as [|]; subst.
             - destruct pre; discriminate.
             - apply Forall_app in Hall as [_ Hc]. inversion Hc as [|? ? Hcur _]; subst.
               destruct cur; try discriminate. reflexivity. }
    split; [apply prop_stamp|].
    split. { rewrite prop_stamp. congruence. }
    assert (Hins : forall r, <[length pre := r]> (pre ++ cur :: post) = pre ++ r :: post).
    { intros r. rewrite insert_app_r_alt by lia. now rewrite Nat.sub_diag. }
    rewrite Hins.
    assert (Ha : (a < length (heap s2))%nat).
    { rewrite Hh. eapply lookup_lt_Some; eauto. }
    split; [now apply heap_after_save|].
    intros Hwin Hflt. apply saveTasksImmediate_primary; simpl.
    + congruence.
    + unfold throws in *. simpl. now rewrite Hf.
    + now apply list_lookup_insert_eq.
Qed.

End Mutations.

(** ** The calendar, and [addTask] *)

Import JSDate.

Lemma civil_roundtrip z :
  let '(y, m, d) := civil_from_days z in
  days_from_civil y m d = z /\ 1 <= m <= 12 /\ 1 <= d <= 31.
Proof.
  unfold civil_from_days, days_from_civil.
  set (z' := z + 719468).
  set (era := z' / 146097).
  set (doe := z' - era * 146097).
  assert (Hdoe : 0 <= doe < 146097).
  { unfold doe, era. pose proof (Z.div_mod z' 146097 ltac:(lia)).
    pose proof (Z.mod_pos_bound z' 146097 ltac:(lia)). lia. }
  assert (Hz : z = era * 146097 + doe - 719468) by (unfold doe, z'; lia).
  clearbody doe era. clear z'. subst z.
  set (yoe := (doe - doe / 1460 + doe / 36524 - doe / 146096) / 365).
  assert (Hyoe : 0 <= yoe <= 399).
  { unfold yoe. Z.to_euclidean_division_equations. lia. }
  set (doy := doe - (365 * yoe + yoe / 4 - yoe / 100)).
  assert (Hdoy : 0 <= doy <= 365).
  { unfold doy, yoe. Z.to_euclidean_division_equations. lia. }
  assert (Hdoe' : doe = 365 * yoe + yoe / 4 - yoe / 100 + doy) by (unfold doy; lia).
  clearbody doy. clearbody yoe.
  set (mp := (5 * doy + 2) / 153).
  assert (Hmp : 0 <= mp <= 11).
  { unfold mp. Z.to_euclidean_division_equations. lia. }
  set (d := doy - (153 * mp + 2) / 5 + 1).
  assert (Hd : 1 <= d <= 31).
  { unfold d, mp. Z.to_euclidean_division_equations. lia. }
  assert (Hdoy' : doy = (153 * mp + 2) / 5 + d - 1) by (unfold d; lia).
  clearbody d. clearbody mp.
  destruct (mp <? 10) eqn:E1.
  - apply Z.ltb_lt in E1.
    replace (mp + 3 <=? 2) with false by (symmetry; apply Z.leb_gt; lia).
    replace (mp + 3 >? 2) with true by (symmetry; apply Z.gtb_lt; lia).
    replace (mp + 3 - 3) with mp by lia.
    replace ((yoe + era * 400 + 0) / 400) with era by (Z.to_euclidean_division_equations; lia).
    split; [|lia]. Z.to_euclidean_division_equations. lia.
  - apply Z.ltb_ge in E1.
    replace (mp - 9 <=? 2) with true by (symmetry; apply Z.leb_le; lia).
    replace (mp - 9 >? 2) with false by (symmetry; rewrite Z.gtb_ltb; apply Z.ltb_ge; lia).
    replace (mp - 9 + 9) with mp by lia.
    replace ((yoe + era * 400 + 1 - 1) / 400) with era by (Z.to_euclidean_division_equations; lia).
    split; [|lia]. Z.to_euclidean_division_equations. lia.
Qed.

(** A date of the calendar is the one that [civil_from_days] finds for
    its day number. *)
Lemma civil_of_date y m d :
  is_date y m d -> civil_from_days (days_from_civil y m d) = (y, m, d).
Proof.
  intros [Hm Hd].
  unfold civil_from_days, days_from_civil.
  set (y0 := if m <=? 2 then y - 1 else y).
  set (era := y0 / 400).
  set (yoe := y0 - era * 400).
  assert (Hyoe : 0 <= yoe <= 399).
  { unfold yoe, era. Z.to_euclidean_division_equations. lia. }
  set (mp := if m >? 2 then m - 3 else m + 9).
  assert (Hmp : 0 <= mp <= 11 /\ (mp < 10 -> m = mp + 3) /\ (10 <= mp -> m = mp - 9)).
  { unfold mp. destruct (m >? 2) eqn:E; [apply Z.gtb_lt in E | rewrite Z.gtb_ltb in E; apply Z.ltb_ge in E]; lia. }
  assert (Hy : y = yoe + era * 400 + (if m <=? 2 then 1 else 0)).
  { unfold yoe, y0. destruct (m <=? 2); lia. }
  assert (Hleap : leap_year y = true ->
            m <= 2 -> (yoe + 1) mod 4 = 0 /\ ((yoe + 1) mod 100 <> 0 \/ yoe = 399)).
  { intros Hl Hm2. unfold leap_year in Hl. rewrite Hy in Hl.
    replace (m <=? 2) with true in Hl by (symmetry; apply Z.leb_le; lia).
    apply andb_prop in Hl as [H4 H100]. apply Z.eqb_eq in H4.
    apply orb_prop in H100.
    split. { Z.to_euclidean_division_equations. lia. }
    destruct H100 as [H|H].
    - apply negb_true_iff, Z.eqb_neq in H. left. Z.to_euclidean_division_equations. lia.
    - apply Z.eqb_eq in H. right. Z.to_euclidean_division_equations. lia. }
  assert (Hnl : leap_year y = false -> m <= 2 ->
            (yoe + 1) mod 4 <> 0 \/ ((yoe + 1) mod 100 = 0 /\ yoe <> 399)).
  { intros Hl Hm2. unfold leap_year in Hl. rewrite Hy in Hl.
    replace (m <=? 2) with true in Hl by (symmetry; apply Z.leb_le; lia).
    apply andb_false_iff in Hl. destruct Hl as [H|H].
    - apply Z.eqb_neq in H. left. Z.to_euclidean_division_equations. lia.
    - apply orb_false_iff in H as [H1 H2]. apply negb_false_iff, Z.eqb_eq in H1.
      apply Z.eqb_neq in H2. right. Z.to_euclidean_division_equations. lia. }
  set (doy := (153 * mp + 2) / 5 + d - 1).
  assert (Hdoy : 0 <= doy <= 365
                 /\ (5 * doy + 2) / 153 = mp
                 /\ (doy = 365 -> (yoe + 1) mod 4 = 0 /\ ((yoe + 1) mod 100 <> 0 \/ yoe = 399))).
  { unfold doy. unfold days_in_month in Hd.
    assert (Hc : m = 1 \/ m = 2 \/ m = 3 \/ m = 4 \/ m = 5 \/ m = 6 \/ m = 7 \/ m = 8
                 \/ m = 9 \/ m = 10 \/ m = 11 \/ m = 12) by lia.
    destruct Hc as [E|[E|[E|[E|[E|[E|[E|[E|[E|[E|[E|E]]]]]]]]]]];
      subst m; unfold mp in *; simpl in *;
      try (destruct (leap_year y) eqn:El;
           [specialize (Hleap eq_refl ltac:(lia)) | specialize (Hnl eq_refl ltac:(lia))]);
      (split; [lia|split; [Z.to_euclidean_division_equations; lia | intros; try lia; try tauto]]). }
  assert (Hd' : doy - (153 * mp + 2) / 5 + 1 = d) by (unfold doy; lia).
  clearbody doy.
  destruct Hdoy as (Hdoy & Hmp' & Hlast).
  set (doe := yoe * 365 + yoe / 4 - yoe / 100 + doy).
  assert (Hdoe : 0 <= doe < 146097).
  { unfold doe. Z.to_euclidean_division_equations. lia. }
  assert (Hera : (era * 146097 + doe - 719468 + 719468) / 146097 = era).
  { Z.to_euclidean_division_equations. lia. }
  rewrite Hera.
  replace (era * 146097 + doe - 719468 + 719468 - era * 146097) with doe by lia.
  assert (Hyoe' : (doe - doe / 1460 + doe / 36524 - doe / 146096) / 365 = yoe).
  { assert (Hc : doy <= 364 \/ doy = 365) by lia.
    destruct Hc as [Hc|Hc].
    - unfold doe. Z.to_euclidean_division_equations. lia.
    - destruct (Hlast Hc) as [H4 H100]. unfold doe.
      Z.to_euclidean_division_equations. lia. }
  rewrite Hyoe'.
  replace (doe - (365 * yoe + yoe / 4 - yoe / 100)) with doy by (unfold doe; lia).
  rewrite Hmp', Hd'.
  destruct Hmp as (Hmp & Hlo & Hhi).
  destruct (mp <? 10) eqn:E; [apply Z.ltb_lt in E | apply Z.ltb_ge in E].
  - rewrite <- (Hlo E). rewrite Hy. reflexivity.
  - rewrite <- (Hhi E). rewrite Hy. reflexivity.
Qed.

(** [civil_from_days] finds a date of the calendar. *)
Lemma civil_from_days_date z :
  let '(y, m, d) := civil_from_days z in is_date y m d.
Proof.
  unfold civil_from_days, is_date, days_in_month, leap_year.
  set (z' := z + 719468).
  set (era := z' / 146097).
  set (doe := z' - era * 146097).
  assert (Hdoe : 0 <= doe < 146097).
  { unfold doe, era. Z.to_euclidean_division_equations. lia. }
  clearbody doe era. clear z'.
  set (yoe := (doe - doe / 1460 + doe / 36524 - doe / 146096) / 365).
  assert (Hyoe : 0 <= yoe <= 399).
  { unfold yoe. Z.to_euclidean_division_equations. lia. }
  set (doy := doe - (365 * yoe + yoe / 4 - yoe / 100)).
  assert (Hdoy : 0 <= doy <= 365
                 /\ (doy = 365 -> (yoe + 1) mod 4 = 0 /\ ((yoe + 1) mod 100 <> 0 \/ yoe = 399))).
  { unfold doy, yoe. split; [Z.to_euclidean_division_equations; lia|].
    intros H. split.
    - Z.to_euclidean_division_equations. lia.
    - Z.to_euclidean_division_equations. lia. }
  clearbody doy. clearbody yoe. destruct Hdoy as [Hdoy Hlast].
  set (mp := (5 * doy + 2) / 153).
  assert (Hmp : 0 <= mp <= 11).
  { unfold mp. Z.to_euclidean_division_equations. lia. }
  set (d := doy - (153 * mp + 2) / 5 + 1).
  assert (Hc : mp = 0 \/ mp = 1 \/ mp = 2 \/ mp = 3 \/ mp = 4 \/ mp = 5 \/ mp = 6 \/ mp = 7
               \/ mp = 8 \/ mp = 9 \/ mp = 10 \/ mp = 11) by lia.
  assert (Hd : 1 <= d
               /\ (mp <> 11 -> d <= (if (mp =? 1) || (mp =? 3) || (mp =? 6) || (mp =? 8) then 30 else 31))
               /\ (mp = 11 -> d <= 29 /\ (d = 29 -> doy = 365))).
  { unfold d, mp. repeat split; intros; try (Z.to_euclidean_division_equations; lia).
    destruct Hc as [E|[E|[E|[E|[E|[E|[E|[E|[E|[E|[E|E]]]]]]]]]]]; unfold mp in E;
      rewrite E; simpl; Z.to_euclidean_division_equations; lia. }
  clearbody d. clearbody mp.
  destruct Hd as (Hd1 & Hd2 & Hd3).
  destruct Hc as [E|[E|[E|[E|[E|[E|[E|[E|[E|[E|[E|E]]]]]]]]]]]; subst mp; simpl;
    try (specialize (Hd2 ltac:(lia)); simpl in Hd2; lia).
  destruct (Hd3 eq_refl) as [Hd29 Hd365].
  split; [lia|]. split; [lia|].
  match goal with |- d <= (if ?b then 29 else 28) => destruct b eqn:El end; [lia|].
  assert (d <> 29); [|lia]. intros H29. destruct (Hlast (Hd365 H29)) as [H4 H100].
  apply andb_false_iff in El. destruct El as [El|El].
  - apply Z.eqb_neq in El. apply El. Z.to_euclidean_division_equations. lia.
  - apply orb_false_iff in El as [E1 E2]. apply negb_false_iff, Z.eqb_eq in E1.
    apply Z.eqb_neq in E2. destruct H100 as [H100|H100].
    + apply H100. Z.to_euclidean_division_equations. lia.
    + apply E2. Z.to_euclidean_division_equations. lia.
Qed.

Section Creation.
Context (host : Host).

(** The object that [addTask] builds from the readings of the clock and
    of the random source. *)
Lemma addTask_run taskData s :
  exists now s1 id s',
    Date_now_total s = (now, s1) /\
    addTask host taskData s =
      (Ok (VObj [("id", VStr id);
                 ("title", VStr (trim (title taskData)));
                 ("description", VStr (default EmptyString (trim <$> description taskData)));
                 ("name", VStr (default EmptyString (trim <$> name taskData)));
                 ("role", VStr (default EmptyString (trim <$> role taskData)));
                 ("isCompleted", VBool false);
                 ("createdAt", VStr (JSDate.toISOString now));
                 ("updatedAt", VStr (JSDate.toISOString now));
                 ("dateAdded", VStr (dateUtils.formatDateForSearch host (OfDate (Some now))));
                 ("dayAdded", VStr (dateUtils.getDayName host (OfDate (Some now))))]%string),
       s').
Proof.
  unfold addTask. jsm_unfold. unfold random_suffix.
  destruct (Date_now_total s) as [now s1].
  destruct (Date_now_total s1) as [stamp s2].
  destruct (randoms (world s2));
    destruct (getTasks _) as [a s3]; simpl; eauto 10.
Qed.

(** C10. The task that [addTask] returns has [isCompleted] false,
    whatever the input and the state. *)
Theorem addTask_starts_pending taskData s :
  exists task s',
    addTask host taskData s = (Ok task, s')
    /\ prop "isCompleted" task = VBool false.
Proof.
  destruct (addTask_run taskData s) as (now & s1 & id & s' & _ & ->).
  eexists _, _. split; reflexivity.
Qed.


End Creation.

(** ** Words without white space *)

Lemma spaceless_app a b : spaceless (a ++ b) = spaceless a && spaceless b.
Proof.
  induction a as [|c a IH]; [reflexivity|].
  rewrite append_cons. simpl. rewrite IH. now rewrite andb_assoc.
Qed.

Lemma split_go_spaceless s cur in_sep :
  spaceless cur = true ->
  Forall (fun w => spaceless w = true) (split_go s cur in_sep).
Proof.
  revert cur in_sep. induction s as [|c r IH]; intros cur in_sep Hcur; simpl.
  - constructor; [exact Hcur | constructor].
  - destruct (is_space c) eqn:E.
    + destruct in_sep; [now apply IH|].
      constructor; [exact Hcur|]. now apply IH.
    + apply IH. rewrite spaceless_app, Hcur. simpl. now rewrite E.
Qed.

Lemma words_spaceless q :
  Forall (fun w => spaceless w = true /\ w <> EmptyString) (words q).
Proof.
  unfold words, split_ws.
  pose proof (split_go_spaceless (trim (toLowerCase q)) EmptyString false eq_refl) as H.
  induction H as [|w l Hw _ IH]; simpl; [constructor|].
  destruct w; simpl; [exact IH|].
  constructor; [|exact IH]. split; [exact Hw | discriminate].
Qed.

Lemma toLowerCase_app a b :
  toLowerCase (a ++ b) = (toLowerCase a ++ toLowerCase b)%string.
Proof.
  induction a as [|c a IH]; [reflexivity|].
  rewrite append_cons. simpl. rewrite append_cons. now rewrite IH.
Qed.

(** A word without white space that begins a text with a space in it
    ends before the space. *)
Lemma prefix_before_space w a b :
  spaceless w = true ->
  String.prefix w (a ++ String " " b) = String.prefix w a.
Proof.
  revert a. induction w as [|c w IH]; intros a Hw; [now destruct a|].
  simpl in Hw. apply andb_prop in Hw as [Hc Hw].
  destruct a as [|d a].
  - simpl. destruct (ascii_dec c " ") as [->|]; [discriminate | reflexivity].
  - rewrite append_cons. simpl. destruct (ascii_dec c d); [now apply IH | reflexivity].
Qed.

Lemma includes_across_space w a b :
  spaceless w = true -> w <> EmptyString ->
  includes (a ++ String " " b) w = includes a w || includes b w.
Proof.
  intros Hw Hne. induction a as [|d a IH].
  - change (EmptyString ++ String " " b)%string with (String " " b).
    rewrite (includes_empty w Hne). cbn [includes].
    assert (H : String.prefix w (String " " b) = String.prefix w EmptyString)
      by exact (prefix_before_space w EmptyString b Hw).
    rewrite H. destruct w; [congruence | reflexivity].
  - rewrite append_cons. cbn [includes].
    rewrite <- append_cons, (prefix_before_space w (String d a) b Hw), IH.
    now rewrite orb_assoc.
Qed.

Lemma includes_join w l :
  spaceless w = true -> w <> EmptyString ->
  includes (toLowerCase (join " " l)) w
  = existsb (fun field => includes (toLowerCase field) w) l.
Proof.
  intros Hw Hne. induction l as [|a l IH]; [now apply includes_empty|].
  destruct l as [|b l].
  - simpl. now rewrite orb_false_r.
  - change (join " " (a :: b :: l)) with (a ++ " " ++ join " " (b :: l))%string.
    rewrite toLowerCase_app.
    change (" " ++ join " " (b :: l))%string with (String " " (join " " (b :: l))).
    cbn [toLowerCase].
    change (lower_char " ") with " "%char.
    rewrite includes_across_space by assumption.
    rewrite IH. reflexivity.
Qed.

(** ** [searchTasks] *)

Section Search.
Context (host : Host).

Lemma is_Task_completed t :
  is_Task t = true -> prop "isCompleted" t = VBool (completed t).
Proof.
  destruct t; try discriminate. unfold is_Task, completed.
  destruct (prop "isCompleted" _); try reflexivity;
    rewrite ?andb_false_r; simpl; try discriminate;
    intros H; repeat (apply andb_prop in H as [H ?]); discriminate.
Qed.

Lemma is_string_str k t : is_string (prop k t) = true -> prop k t = VStr (str k t).
Proof. unfold str. destruct (prop k t); try discriminate. reflexivity. Qed.

Lemma filterO_pure (f : value -> outcome bool) (g : value -> bool) l :
  Forall (fun t => f t = Ok (g t)) l -> filterO f l = Ok (List.filter g l).
Proof.
  induction 1 as [|t l Ht _ IH]; [reflexivity|].
  simpl. rewrite Ht. simpl. unfold mbind, outcome_bind in *. rewrite IH. simpl.
  destruct (g t); reflexivity.
Qed.

(** The status filter alone, which is all that a blank query asks. *)
Lemma search_filter_blank c p ws t :
  is_Task t = true ->
  search_filter host c p EmptyString ws t = Ok (status_eligible c p t).
Proof.
  intros Ht. unfold search_filter, status_eligible.
  rewrite (is_Task_get _ _ Ht), (is_Task_completed _ Ht). simpl.
  destruct c, p, (completed t); reflexivity.
Qed.

Lemma guarded_includes_str s q :
  q <> EmptyString ->
  guarded_includes (VStr s) q = Ok (includes (toLowerCase s) q).
Proof.
  intros Hq. unfold guarded_includes. simpl.
  destruct s; simpl; [|reflexivity].
  destruct q; [congruence | reflexivity].
Qed.

Lemma stored_is_Task t : is_stored_Task t = true -> is_Task t = true.
Proof. unfold is_stored_Task. intros H. repeat (apply andb_prop in H as [H ?]). exact H. Qed.

Lemma stored_fields t :
  is_stored_Task t = true ->
  prop "title" t = VStr (str "title" t)
  /\ prop "description" t = VStr (str "description" t)
  /\ prop "name" t = VStr (str "name" t)
  /\ prop "role" t = VStr (str "role" t)
  /\ prop "createdAt" t = VStr (str "createdAt" t)
  /\ prop "dateAdded" t = VStr (str "dateAdded" t)
  /\ prop "dayAdded" t = VStr (str "dayAdded" t).
Proof.
  intros H. unfold is_stored_Task in H.
  destruct t; try discriminate. unfold is_Task in H.
  repeat (apply andb_prop in H as [H ?]).
  repeat split; now apply is_string_str.
Qed.

(** The date part of [createdAt] is the text that [formatDateForSearch]
    prints for it, and no other. *)
Lemma date_part_unique t text :
  date_part_of host t text ->
  dateUtils.formatDateForSearch host (OfString (str "createdAt" t)) = text.
Proof.
  unfold date_part_of, dateUtils.formatDateForSearch, dateUtils.new_Date.
  destruct (Date_parse host (str "createdAt" t)) as [ms|]; [|congruence].
  intros (y & m & d & Hdate & Hday & ->).
  unfold YearFromTime, MonthFromTime, DateFromTime.
  rewrite <- Hday, (civil_of_date y m d Hdate). simpl.
  unfold date_text. now replace (m - 1 + 1) with m by lia.
Qed.

Lemma date_part_exists t :
  date_part_of host t (dateUtils.formatDateForSearch host (OfString (str "createdAt" t))).
Proof.
  unfold date_part_of, dateUtils.formatDateForSearch, dateUtils.new_Date.
  destruct (Date_parse host (str "createdAt" t)) as [ms|]; [|reflexivity].
  pose proof (civil_from_days_date (Day (LocalTime host ms))) as Hdate.
  pose proof (civil_roundtrip (Day (LocalTime host ms))) as Hday.
  unfold YearFromTime, MonthFromTime, DateFromTime.
  destruct (civil_from_days (Day (LocalTime host ms))) as [[y m] d].
  exists y, m, d. split; [exact Hdate|]. split; [apply Hday|].
  simpl. unfold date_text. now replace (m - 1 + 1) with m by lia.
Qed.

Lemma single_word_stored t q text :
  is_stored_Task t = true -> q <> EmptyString ->
  date_part_of host t text ->
  single_word host t q = Ok (matches text [q] t).
Proof.
  intros Ht Hq Hd. pose proof (stored_is_Task _ Ht) as HT.
  destruct (stored_fields _ Ht) as (H1 & H2 & H3 & H4 & H5 & H6 & H7).
  unfold single_word, matches.
  rewrite !(is_Task_get _ _ HT). simpl.
  rewrite H1, H2, H3, H4, H5, H6, H7. simpl.
  rewrite !guarded_includes_str by assumption. simpl.
  unfold dateUtils.matchesDateSearch. rewrite (date_part_unique t text Hd).
  repeat match goal with |- context [includes ?a ?b] =>
    let x := fresh "b" in generalize (includes a b); intros x end.
  repeat match goal with b : bool |- _ => destruct b end; reflexivity.
Qed.

Lemma searchText_stored t :
  is_stored_Task t = true ->
  searchText t = Ok (toLowerCase (join " " (searchable t))).
Proof.
  intros Ht. pose proof (stored_is_Task _ Ht) as HT.
  destruct (stored_fields _ Ht) as (H1 & H2 & H3 & H4 & H5 & H6 & H7).
  unfold searchText, searchable. rewrite !(is_Task_get _ _ HT). simpl.
  now rewrite H1, H2, H3, H4, H6, H7.
Qed.

Lemma words_query q :
  nonempty (trim q) = true ->
  let query := trim (toLowerCase q) in
  query <> EmptyString /\ words q <> []
  /\ (forall w, words q = [w] -> w = query).
Proof.
  intros Hq query.
  assert (Hne : query <> EmptyString).
  { unfold query. rewrite trim_lower. intros E.
    assert (H : nonempty (toLowerCase (trim q)) = false) by now rewrite E.
    rewrite lower_nonempty in H. congruence. }
  split; [exact Hne|]. apply (words_of_trimmed (toLowerCase q)). exact Hne.
Qed.

Lemma forallb_same {A : Type} (f g : A -> bool) l :
  Forall (fun x => f x = g x) l -> forallb f l = forallb g l.
Proof. induction 1 as [|x l Hx _ IH]; simpl; congruence. Qed.

Lemma search_filter_stored c p q t text :
  nonempty (trim q) = true -> is_stored_Task t = true ->
  date_part_of host t text ->
  search_filter host c p (trim (toLowerCase q)) (words q) t
  = Ok (status_eligible c p t && matches text (words q) t).
Proof.
  intros Hq Ht Hd. pose proof (stored_is_Task _ Ht) as HT.
  destruct (words_query q Hq) as (Hne & Hws & Hone).
  unfold search_filter, status_eligible.
  rewrite (is_Task_get _ _ HT), (is_Task_completed _ HT). simpl.
  assert (Hn : nonempty (trim (toLowerCase q)) = true).
  { destruct (trim (toLowerCase q)); [congruence | reflexivity]. }
  rewrite Hn. simpl.
  assert (Hbody :
    (if (1 <? length (words q))%nat
     then text ← searchText t; Ok (forallb (fun word => includes text word) (words q))
     else single_word host t (trim (toLowerCase q)))
    = Ok (matches text (words q) t)).
  { pose proof (words_spaceless q) as Hsp.
    destruct (words q) as [|w [|w' ws]] eqn:E; [congruence| |].
    - simpl. rewrite <- (Hone w eq_refl). apply single_word_stored; auto.
      rewrite (Hone w eq_refl). exact Hne.
    - change (1 <? length (w :: w' :: ws))%nat with true. cbv iota.
      rewrite (searchText_stored _ Ht).
      change (Ok (forallb (fun word =>
                             includes (toLowerCase (join " " (searchable t))) word)
                    (w :: w' :: ws))
              = Ok (matches text (w :: w' :: ws) t)).
      unfold matches. f_equal.
      apply forallb_same. eapply Forall_impl; [exact Hsp|].
      intros x [Hs Hx]. now apply includes_join. }
  destruct c, p, (completed t); simpl; try reflexivity; exact Hbody.
Qed.

Lemma searchTasks_run q c p s s0 a s1 :
  search_miss (searchKey q c p) s s0 ->
  getTasks s0 = (a, s1) ->
  searchTasks host q c p s =
    if negb (nonempty (trim q)) && c && p
    then
      let '(now, s2) := Date_now_total s1 in
      (Ok a, set_searchCache
               (JSMap.set (searchKey q c p) (a, now) (searchCache s2)) s2)
    else
      match filterO (search_filter host c p (trim (toLowerCase q)) (words q))
              (default [] (heap s1 !! a)) with
      | Ok kept =>
          let s2 := set_heap (heap s1 ++ [kept]) s1 in
          let '(now, s3) := Date_now_total s2 in
          (Ok (length (heap s1)),
           set_searchCache
             (JSMap.set (searchKey q c p) (length (heap s1), now) (searchCache s3)) s3)
      | Throw => (Throw, s1)
      end.
Proof.
  intros Hm Hg. unfold searchTasks. jsm_unfold. unfold search_miss in Hm.
  destruct (JSMap.get _ _) as [[r ts]|].
  - destruct Hm as (now & -> & Hold). apply Z.ltb_ge in Hold. rewrite Hold.
    rewrite Hg. simpl.
    destruct (negb _ && c && p).
    + destruct (Date_now_total s1); reflexivity.
    + unfold words. destruct (filterO _ _); [|reflexivity].
      simpl. destruct (Date_now_total _); reflexivity.
  - subst s0. rewrite Hg. simpl.
    destruct (negb _ && c && p).
    + destruct (Date_now_total s1); reflexivity.
    + unfold words. destruct (filterO _ _); [|reflexivity].
      simpl. destruct (Date_now_total _); reflexivity.
Qed.

Lemma heap_tick s : heap (snd (Date_now_total s)) = heap s.
Proof. apply tick_same_storage. Qed.

(** C5. A search with a blank query that is not served from the result
    cache returns the tasks that pass the status filter; with both flags
    true it returns the array of the collection itself, and with
    [showCompleted] true and [showPending] false exactly the completed
    tasks. *)
Theorem search_blank_query q c p s s0 a s1 l :
  nonempty (trim q) = false ->
  search_miss (searchKey q c p) s s0 ->
  getTasks s0 = (a, s1) -> heap s1 !! a = Some l ->
  all_Tasks l ->
  exists r s',
    searchTasks host q c p s = (Ok r, s')
    /\ heap s' !! r = Some (List.filter (status_eligible c p) l)
    /\ (c = true -> p = true -> r = a /\ heap s' !! r = Some l)
    /\ (c = true -> p = false -> heap s' !! r = Some (List.filter completed l)).
Proof.
  intros Hq Hm Hg Hl Hall.
  rewrite (searchTasks_run _ _ _ _ _ _ _ Hm Hg). rewrite Hq, Hl. simpl.
  assert (Hq' : trim (toLowerCase q) = EmptyString).
  { rewrite trim_lower. destruct (trim q); [reflexivity | discriminate]. }
  destruct (c && p) eqn:Ecp.
  - apply andb_prop in Ecp as [-> ->].
    pose proof (heap_tick s1) as Hh.
    destruct (Date_now_total s1) as [now s2]. simpl in *.
    exists a, (set_searchCache (JSMap.set (searchKey q true true) (a, now) (searchCache s2)) s2).
    simpl. rewrite Hh, Hl.
    assert (Hall' : List.filter (status_eligible true true) l = l).
    { clear. induction l as [|t l IH]; simpl; [reflexivity|]. now rewrite IH. }
    rewrite Hall'. repeat split; auto. discriminate.
  - rewrite Hq'.
    rewrite (filterO_pure _ (status_eligible c p)).
    2:{ eapply Forall_impl; [exact Hall|]. intros t Ht. now apply search_filter_blank. }
    pose proof (heap_tick (set_heap (heap s1 ++ [List.filter (status_eligible c p) l]) s1)) as Hh.
    destruct (Date_now_total _) as [now s3]. simpl in *.
    eexists _, _. split; [reflexivity|]. simpl. rewrite Hh.
    rewrite lookup_app_r by lia. rewrite Nat.sub_diag. simpl.
    split; [reflexivity|]. split.
    + intros -> ->. discriminate.
    + intros -> ->. reflexivity.
Qed.

(** C2. A search with a query that is not blank, not served from the
    result cache, over a collection of stored tasks, keeps among the
    status-eligible tasks exactly those that [matches] accepts on the
    words of the lowercased and trimmed query: with several words, the
    tasks that hold every word in one of the six searchable fields, a
    word never reaching across two fields; with one word, the tasks that
    hold it in one of the seven places, the last of which is the date
    part of [createdAt], the local calendar date of its instant. *)
Theorem search_query_matches q c p s s0 a s1 l (date_part : value -> string) :
  nonempty (trim q) = true ->
  search_miss (searchKey q c p) s s0 ->
  getTasks s0 = (a, s1) -> heap s1 !! a = Some l ->
  all_stored l ->
  (forall t, t ∈ l -> date_part_of host t (date_part t)) ->
  exists r s',
    searchTasks host q c p s = (Ok r, s')
    /\ heap s' !! r
       = Some (List.filter
                 (fun t => status_eligible c p t
                           && matches (date_part t) (words q) t) l)
    /\ words q <> [].
Proof.
  intros Hq Hm Hg Hl Hall Hd.
  rewrite (searchTasks_run _ _ _ _ _ _ _ Hm Hg). rewrite Hq, Hl. simpl.
  rewrite (filterO_pure _
             (fun t => status_eligible c p t && matches (date_part t) (words q) t)).
  2:{ apply Forall_forall. intros t Ht.
      apply search_filter_stored; [exact Hq | | now apply Hd].
      unfold all_stored in Hall. rewrite Forall_forall in Hall. now apply Hall. }
  set (kept := List.filter _ l).
  pose proof (heap_tick (set_heap (heap s1 ++ [kept]) s1)) as Hh.
  destruct (Date_now_total _) as [now s3]. simpl in *.
  eexists _, _. split; [reflexivity|]. simpl. rewrite Hh.
  rewrite lookup_app_r by lia. rewrite Nat.sub_diag. simpl.
  split; [reflexivity|]. apply (words_query q Hq).
Qed.
End Search.


(** ** The check sum tells lists of [(id, updatedAt)] apart *)

Import JSONText.


Lemma b64_index_digit n : (n < 64)%nat -> b64_index (b64_digit n) = Some n.
Proof.
  intros H. do 64 (destruct n as [|n]; [reflexivity|]). lia.
Qed.

Lemma b64_index_pad : b64_index "="%char = None.
Proof. reflexivity. Qed.

Lemma list_ind3 {A : Type} (P : list A -> Prop) :
  P [] -> (forall a, P [a]) -> (forall a b, P [a; b]) ->
  (forall a b c r, P r -> P (a :: b :: c :: r)) ->
  forall l, P l.
Proof.
  intros H0 H1 H2 H3.
  fix IH 1. intros [|a [|b [|c r]]];
    [exact H0 | apply H1 | apply H2 | apply H3, IH].
Qed.

Lemma sextets a b c :
  (a < 256 -> b < 256 -> c < 256 ->
   a / 4 < 64 /\ a mod 4 * 16 + b / 16 < 64
   /\ b mod 16 * 4 + c / 64 < 64 /\ c mod 64 < 64
   /\ a / 4 * 4 + (a mod 4 * 16 + b / 16) / 16 = a
   /\ (a mod 4 * 16 + b / 16) mod 16 * 16 + (b mod 16 * 4 + c / 64) / 4 = b
   /\ (b mod 16 * 4 + c / 64) mod 4 * 64 + c mod 64 = c)%nat.
Proof.
  intros Ha Hb Hc. zify. Z.to_euclidean_division_equations. lia.
Qed.

Lemma unb64_b64 l :
  Forall (fun n => (n < 256)%nat) l -> unb64 (b64 l) = Some l.
Proof.
  induction l as [|a|a b|a b c r IH] using list_ind3; intros H.
  - reflexivity.
  - inversion H as [|? ? Ha _]; subst.
    destruct (sextets a 0 0 Ha ltac:(lia) ltac:(lia)) as (H1 & H2 & _ & _ & E1 & _).
    cbn [b64 unb64]. rewrite Nat.Div0.div_0_l, Nat.add_0_r in *.
    rewrite !b64_index_digit by assumption. rewrite b64_index_pad.
    now rewrite E1.
  - inversion H as [|? ? Ha H']; subst. inversion H' as [|? ? Hb _]; subst.
    destruct (sextets a b 0 Ha Hb ltac:(lia)) as (H1 & H2 & H3 & _ & E1 & E2 & _).
    cbn [b64 unb64]. rewrite Nat.Div0.div_0_l, Nat.add_0_r in *.
    rewrite !b64_index_digit by assumption. rewrite b64_index_pad.
    now rewrite E1, E2.
  - inversion H as [|? ? Ha H']; subst. inversion H' as [|? ? Hb H'']; subst.
    inversion H'' as [|? ? Hc Hr]; subst.
    destruct (sextets a b c Ha Hb Hc) as (H1 & H2 & H3 & H4 & E1 & E2 & E3).
    cbn [b64 unb64]. rewrite !b64_index_digit by assumption.
    rewrite (IH Hr). now rewrite E1, E2, E3.
Qed.

Lemma bytes_bounded s :
  Forall (fun n => (n < 256)%nat) (map nat_of_ascii (list_ascii_of_string s)).
Proof.
  induction s as [|c s IH]; simpl; constructor; [apply nat_ascii_bounded | exact IH].
Qed.

Lemma btoa_inj s s' : btoa s = btoa s' -> s = s'.
Proof.
  unfold btoa. intros H.
  assert (E : Some (map nat_of_ascii (list_ascii_of_string s))
              = Some (map nat_of_ascii (list_ascii_of_string s'))).
  { rewrite <- !unb64_b64 by apply bytes_bounded. now rewrite H. }
  injection E as E.
  assert (E' : list_ascii_of_string s = list_ascii_of_string s').
  { revert E. generalize (list_ascii_of_string s), (list_ascii_of_string s').
    intros l. induction l as [|x l IH]; intros [|y l'] E; try discriminate; [reflexivity|].
    simpl in E. injection E as E1 E2.
    rewrite <- (ascii_nat_embedding x), <- (ascii_nat_embedding y), E1.
    f_equal. now apply IH. }
  rewrite <- (string_of_list_ascii_of_string s), <- (string_of_list_ascii_of_string s').
  now rewrite E'.
Qed.

Lemma append_assoc (a b c : string) : ((a ++ b) ++ c)%string = (a ++ (b ++ c))%string.
Proof.
  induction a as [|x a IH]; [reflexivity|].
  rewrite !append_cons. now rewrite IH.
Qed.

Lemma read_quote_char c x :
  read_string (quote_char c ++ x)
  = match read_string x with
    | Some (t, rest) => Some (String c t, rest)
    | None => None
    end.
Proof.
  destruct c as [[] [] [] [] [] [] [] []]; reflexivity.
Qed.

Lemma read_quote_chars s rest :
  read_string (quote_chars s ++ dquote ++ rest) = Some (s, rest).
Proof.
  induction s as [|c s IH]; [reflexivity|].
  cbn [quote_chars]. rewrite append_assoc, read_quote_char. now rewrite IH.
Qed.

Lemma quote_chars_inj s s' rest rest' :
  (quote_chars s ++ dquote ++ rest)%string = (quote_chars s' ++ dquote ++ rest')%string ->
  s = s' /\ rest = rest'.
Proof.
  intros H. pose proof (read_quote_chars s rest) as E.
  rewrite H, read_quote_chars in E. now injection E.
Qed.

(** The text of one pair, followed by [rest]. *)
Lemma pair_text i u rest :
  (stringify (pair_of i u) ++ rest)%string
  = String "{" (dquote ++ "id" ++ dquote ++ ":" ++ dquote ++ quote_chars i ++ dquote
      ++ "," ++ dquote ++ "updatedAt" ++ dquote ++ ":" ++ dquote ++ quote_chars u
      ++ dquote ++ "}" ++ rest)%string.
Proof.
  unfold pair_of. cbn [stringify join]. unfold quote.
  rewrite !append_assoc. reflexivity.
Qed.

Lemma pair_text_inj i u rest i' u' rest' :
  (stringify (pair_of i u) ++ rest)%string = (stringify (pair_of i' u') ++ rest')%string ->
  i = i' /\ u = u' /\ rest = rest'.
Proof.
  rewrite !pair_text. intros H. injection H as H.
  apply quote_chars_inj in H as [-> H]. injection H as H.
  apply quote_chars_inj in H as [-> H]. injection H as H.
  auto.
Qed.

Lemma stringify_pair_head i u rest :
  exists x, (stringify (pair_of i u) ++ rest)%string = String "{" x.
Proof. rewrite pair_text. eauto. Qed.

Lemma join_pair_texts (p : string * string) qs :
  (join "," (pair_texts (p :: qs)) ++ "]")%string
  = (stringify (pair_of (fst p) (snd p))
     ++ match qs with
        | [] => "]"
        | _ => "," ++ join "," (pair_texts qs) ++ "]"
        end)%string.
Proof.
  destruct qs as [|q qs]; [reflexivity|].
  cbn [pair_texts map join]. now rewrite !append_assoc.
Qed.

Lemma pairs_text_inj ps ps' :
  (join "," (pair_texts ps) ++ "]")%string = (join "," (pair_texts ps') ++ "]")%string ->
  ps = ps'.
Proof.
  revert ps'. induction ps as [|[i u] ps IH]; intros [|[i' u'] ps'] H.
  - reflexivity.
  - exfalso. rewrite join_pair_texts in H.
    match type of H with _ = (stringify (pair_of ?a ?b) ++ ?r)%string =>
      destruct (stringify_pair_head a b r) as [x E]; rewrite E in H end.
    discriminate.
  - exfalso. rewrite join_pair_texts in H.
    match type of H with (stringify (pair_of ?a ?b) ++ ?r)%string = _ =>
      destruct (stringify_pair_head a b r) as [x E]; rewrite E in H end.
    discriminate.
  - rewrite !join_pair_texts in H. cbn [fst snd] in H.
    apply pair_text_inj in H as (-> & -> & H).
    destruct ps as [|q ps], ps' as [|q' ps']; try discriminate; [reflexivity|].
    injection H as H. f_equal. apply IH. exact H.
Qed.

Lemma generateChecksum_tasks l :
  all_Tasks l ->
  generateChecksum (VArr l)
  = Ok (btoa ("[" ++ join "," (pair_texts (map id_stamp l)) ++ "]")).
Proof.
  intros H. unfold generateChecksum.
  assert (E : mapO (fun t => id ← get "id" t; updatedAt ← get "updatedAt" t;
                Ok (VObj [("id"%string, id); ("updatedAt"%string, updatedAt)])) l
              = Ok (map (fun t => pair_of (str "id" t) (str "updatedAt" t)) l)).
  { induction H as [|t l Ht _ IH]; [reflexivity|].
    cbn [mapO map]. rewrite !(is_Task_get _ _ Ht).
    unfold mbind, outcome_bind in *. rewrite IH.
    assert (Hi : prop "id" t = VStr (str "id" t)).
    { apply is_string_str. destruct t; try discriminate. unfold is_Task in Ht.
      repeat (apply andb_prop in Ht as [Ht ?]). assumption. }
    assert (Hu : prop "updatedAt" t = VStr (str "updatedAt" t)).
    { apply is_string_str. destruct t; try discriminate. unfold is_Task in Ht.
      repeat (apply andb_prop in Ht as [Ht ?]). assumption. }
    now rewrite Hi, Hu. }
  rewrite E. cbn [mbind outcome_bind]. unfold mbind, outcome_bind. do 2 f_equal.
  cbn [stringify]. do 2 f_equal. unfold pair_texts. rewrite !map_map. reflexivity.
Qed.

(** Two collections of tasks with one check sum have the same ids and
    the same [updatedAt] stamps, in the same order. *)
Lemma generateChecksum_tells_apart l l' :
  all_Tasks l -> all_Tasks l' ->
  generateChecksum (VArr l) = generateChecksum (VArr l') ->
  map id_stamp l = map id_stamp l'.
Proof.
  intros H H' E. rewrite !generateChecksum_tasks in E by assumption.
  injection E as E. apply btoa_inj in E. injection E as E.
  now apply pairs_text_inj.
Qed.

(** ** [getTasks]: the way to the primary record *)

Lemma clean_object t v : clean t = Ok v -> is_object v = true.
Proof.
  unfold clean. unfold mbind, outcome_bind.
  destruct (get "title" t) as [x|]; [|discriminate].
  destruct (trim_v x); [|discriminate].
  destruct (get "description" t) as [y|]; [|discriminate].
  destruct (trim_or_empty y); [|discriminate].
  destruct (get "name" t) as [z|]; [|discriminate].
  destruct (trim_or_empty z); [|discriminate].
  destruct (get "role" t) as [w|]; [|discriminate].
  destruct (trim_or_empty w); [|discriminate].
  now intros [= <-].
Qed.

Lemma mapO_Forall {A B : Type} (f : A -> outcome B) (P : B -> Prop) l l' :
  (forall x y, f x = Ok y -> P y) -> mapO f l = Ok l' -> Forall P l'.
Proof.
  intros Hf. revert l'. induction l as [|x l IH]; simpl; intros l'.
  - intros [= <-]. constructor.
  - unfold mbind, outcome_bind. destruct (f x) as [y|] eqn:E; [|discriminate].
    destruct (mapO f l) as [ys|]; [|discriminate].
    intros [= <-]. constructor; eauto.
Qed.

Lemma validate_objects v l :
  validateAndCleanTasks v = Ok l -> Forall (fun t => is_object t = true) l.
Proof.
  unfold validateAndCleanTasks. destruct v; try discriminate.
  apply mapO_Forall. apply clean_object.
Qed.

Lemma generateChecksum_objects l :
  Forall (fun t => is_object t = true) l ->
  exists c, generateChecksum (VArr l) = Ok c.
Proof.
  intros H. unfold generateChecksum.
  assert (Hm : exists ps, mapO (fun t => id ← get "id" t; updatedAt ← get "updatedAt" t;
              Ok (VObj [("id"%string, id); ("updatedAt"%string, updatedAt)])) l = Ok ps).
  { induction H as [|t l Ht _ [ps IH]]; [now exists []|].
    destruct t; try discriminate. simpl. unfold mbind, outcome_bind in *.
    rewrite IH. eauto. }
  destruct Hm as [ps ->]. simpl. eauto.
Qed.

(** [updateCache] on an array of objects returns. *)
Lemma updateCache_returns a s l :
  heap s !! a = Some l -> Forall (fun t => is_object t = true) l ->
  exists s', updateCache a s = (Ok tt, s') /\ heap s' = heap s
             /\ same_primary s s'.
Proof.
  intros Hl Hobj. destruct (generateChecksum_objects _ Hobj) as [c Hc].
  pose proof (updateCache_heap a s) as Hh.
  pose proof (updateCache_primary a s) as Hp.
  unfold updateCache in *. jsm_unfold. simpl in *.
  destruct (Date_now_total _) as [now s1] eqn:Ht. simpl in *.
  assert (Hh1 : heap s1 = heap s).
  { pose proof (tick_same_storage (set_cache (Some a) s)) as H. rewrite Ht in H. apply H. }
  rewrite Hh1, Hl in *. simpl in *. rewrite Hc in *. simpl in *.
  destruct (throws OpSet CACHE_KEY (world s1)); simpl in *; eauto.
Qed.

(** The fallback to main storage, under the outer [catch]: a new array
    that holds the view of the primary record. *)
Lemma read_primary_view s :
  exists s',
    catch_all read_primary (alloc_total []) s = (length (heap s), s')
    /\ heap s' = heap s ++ [primary_view (world s)]
    /\ same_primary s s'.
Proof.
  unfold catch_all, read_primary, primary_view. jsm_unfold.
  destruct (throws OpGet TASKS_KEY (world s)) eqn:Ef.
  { eexists. split; [reflexivity|]. split; [reflexivity|]. now repeat split. }
  change (item TASKS_KEY (world s)) with (primary (world s)) in *.
  destruct (if present (primary (world s)) then _ else _) as [v|]; simpl.
  2:{ eexists. split; [reflexivity|]. split; [reflexivity|]. now repeat split. }
  unfold mbind, outcome_bind.
  destruct (validateAndCleanTasks v) as [l|] eqn:Ev; simpl.
  2:{ eexists. split; [reflexivity|]. split; [reflexivity|]. now repeat split. }
  destruct (updateCache_returns (length (heap s)) (set_heap (heap s ++ [l]) s) l)
    as (s' & -> & Hh & Hp).
  { simpl. rewrite lookup_app_r by lia. now rewrite Nat.sub_diag. }
  { eapply validate_objects; eauto. }
  simpl. exists s'. split; [reflexivity|]. split; [exact Hh|].
  unfold same_primary in *. simpl in *. exact Hp.
Qed.

(** With a miss in [memoize] and in the memory cache, [getTasks] is the
    check of the secondary cache. *)
Lemma memory_cache_miss s1 s0 :
  memory_miss s1 s0 -> memory_cache s1 = (Ok None, s0).
Proof.
  unfold memory_miss, memory_cache. jsm_unfold.
  destruct (cache s1) as [l|].
  - intros (now & Ht & Hold). rewrite Ht. simpl.
    assert (Hts : cacheTimestamp s0 = cacheTimestamp s1).
    { unfold Date_now_total in Ht. destruct (tick (world s1)). now inversion Ht. }
    rewrite Hts. apply Z.ltb_ge in Hold. now rewrite Hold.
  - now intros ->.
Qed.

Lemma same_primary_view s s' : same_primary s s' -> primary_view (world s') = primary_view (world s).
Proof.
  intros (Hp & _ & Hf). unfold primary_view, throws. now rewrite Hp, Hf.
Qed.

Lemma getTasks_fallback s now s1 s0 s2 :
  memo_miss s now s1 ->
  window (world s1) = true ->
  memory_miss s1 s0 ->
  falls_through s0 s2 ->
  exists a s',
    getTasks s = (a, s')
    /\ heap s' !! a = Some (primary_view (world s2)).
Proof.
  intros Hm Hw Hc Hf.
  destruct (read_primary_view s2) as (s' & Hr & Hh & _).
  assert (Hi : getTasks_inner s1 = (length (heap s2), s')).
  { unfold getTasks_inner. rewrite Hw. simpl.
    unfold catch_all, getTasks_try, check_secondary. unfold mbind at 1, JSM_bind.
    rewrite (memory_cache_miss _ _ Hc). unfold mbind at 1, JSM_bind.
    unfold falls_through in Hf. rewrite Hf. exact Hr. }
  rewrite (getTasks_miss _ _ _ Hm), Hi. simpl.
  eexists _, _. split; [reflexivity|]. simpl. rewrite Hh.
  rewrite lookup_app_r by lia. now rewrite Nat.sub_diag.
Qed.

(** ** The view of the primary record *)

Lemma primary_view_fault w :
  throws OpGet TASKS_KEY w = true -> primary_view w = [].
Proof. unfold primary_view. now intros ->. Qed.

Lemma primary_view_unparsed w :
  (primary w = None \/ exists raw, primary w = Some (Malformed raw)) ->
  primary_view w = [].
Proof.
  unfold primary_view. destruct (throws _ _ _); [reflexivity|].
  intros [->|[raw ->]]; simpl; [reflexivity|]. destruct (nonempty raw); reflexivity.
Qed.

Lemma primary_view_not_array w v :
  primary w = Some (Json v) -> (forall l, v <> VArr l) -> primary_view w = [].
Proof.
  unfold primary_view. destruct (throws _ _ _); [reflexivity|].
  intros -> H. simpl. destruct v; try reflexivity. now destruct (H l).
Qed.

Lemma clean_cleaned t :
  valid_shape t = true -> optionals_ok t = true -> clean t = Ok (cleaned t).
Proof.
  unfold valid_shape, optionals_ok, clean, cleaned, prop.
  intros Hv Ho.
  destruct t as [| | | | | |fs];
    try (repeat (apply andb_prop in Hv as [Hv ?]); discriminate).
  simpl in *. repeat (apply andb_prop in Hv as [Hv ?]).
  repeat (apply andb_prop in Ho as [Ho ?]).
  destruct (assoc "title" fs); try discriminate.
  destruct (assoc "description" fs); try discriminate;
  destruct (assoc "name" fs); try discriminate;
  destruct (assoc "role" fs); try discriminate; reflexivity.
Qed.

Lemma mapO_clean k :
  Forall (fun t => valid_shape t = true) k ->
  Forall (fun t => optionals_ok t = true) k ->
  mapO clean k = Ok (map cleaned k).
Proof.
  induction 1 as [|t k Ht _ IH]; intros Ho; [reflexivity|].
  inversion Ho; subst. simpl. rewrite clean_cleaned by assumption.
  unfold mbind, outcome_bind in *. now rewrite IH.
Qed.

Lemma primary_view_records w l :
  throws OpGet TASKS_KEY w = false ->
  primary w = Some (Json (VArr l)) ->
  Forall (fun t => optionals_ok t = true) (List.filter valid_shape l) ->
  primary_view w = map cleaned (List.filter valid_shape l).
Proof.
  unfold primary_view. intros -> -> H. simpl.
  rewrite mapO_clean; [reflexivity | | exact H].
  apply Forall_forall. intros t Ht. apply list_elem_of_In in Ht.
  now apply filter_In in Ht.
Qed.

Lemma ticks_to_check s now s1 s0 :
  memo_miss s now s1 -> memory_miss s1 s0 -> same_storage s s0.
Proof.
  intros [Ht _] Hc.
  pose proof (tick_same_storage s) as H1. rewrite Ht in H1. simpl in H1.
  unfold memory_miss in Hc. destruct (cache s1).
  - destruct Hc as (now' & Ht' & _).
    pose proof (tick_same_storage s1) as H2. rewrite Ht' in H2. simpl in H2.
    unfold same_storage in *. intuition congruence.
  - now subst.
Qed.

(** The check of the secondary cache on an entry whose stored check sum
    is not the one of its payload. *)
Lemma mismatch_falls_through s0 fs c :
  throws OpGet CACHE_KEY (world s0) = false ->
  throws OpRemove CACHE_KEY (world s0) = false ->
  secondary (world s0) = Some (Json (VObj fs)) ->
  assoc "checksum" fs = VStr c ->
  generateChecksum (assoc "data" fs) <> Ok c ->
  exists s2, falls_through s0 s2 /\ same_primary s0 s2.
Proof.
  intros Hg Hr Hsec Hc Hne. unfold falls_through, secondary_cache.
  pose proof (tick_same_storage s0) as Ht.
  unfold adopt_secondary. jsm_unfold. rewrite Hg. simpl. rewrite Hsec. simpl.
  destruct (Date_now_total s0) as [now s1]. simpl in *.
  destruct Ht as (Hh & Hp & Hs & Hw & Hf).
  destruct (fresh now (assoc "timestamp" fs)) as [n|].
  2:{ eexists. split; [reflexivity|]. now repeat split. }
  destruct (generateChecksum (assoc "data" fs)) as [c'|] eqn:E.
  - rewrite Hc. simpl. destruct (String.eqb c' c) eqn:Ec.
    + apply String.eqb_eq in Ec. congruence.
    + eexists. split; [reflexivity|]. now repeat split.
  - unfold throws in *. rewrite Hf, Hr. simpl.
    eexists. split; [reflexivity|]. now repeat split.
Qed.

(** A call that reaches the check of the secondary cache and finds a
    stored check sum that is not the one of the payload (or a payload whose
    check sum cannot be computed) returns the view of the primary record. *)
Lemma mismatch_falls_back s now s1 s0 fs c :
  memo_miss s now s1 ->
  window (world s) = true ->
  memory_miss s1 s0 ->
  throws OpGet CACHE_KEY (world s) = false ->
  throws OpRemove CACHE_KEY (world s) = false ->
  secondary (world s) = Some (Json (VObj fs)) ->
  assoc "checksum" fs = VStr c ->
  generateChecksum (assoc "data" fs) <> Ok c ->
  exists a s',
    getTasks s = (a, s')
    /\ heap s' !! a = Some (primary_view (world s)).
Proof.
  intros Hm Hw Hc Hg Hr Hsec Hcs Hne.
  destruct (ticks_to_check _ _ _ _ Hm Hc) as (_ & Hp & Hs & Hw' & Hf).
  destruct (mismatch_falls_through s0 fs c) as (s2 & Hft & Hsp); auto.
  { unfold throws in *. now rewrite Hf. }
  { unfold throws in *. now rewrite Hf. }
  { congruence. }
  destruct (getTasks_fallback s now s1 s0 s2) as (a & s' & Hgt & Hh); auto.
  { destruct Hm as [Ht _]. pose proof (tick_same_storage s) as H. rewrite Ht in H.
    simpl in H. destruct H as (_ & _ & _ & H & _). congruence. }
  exists a, s'. split; [exact Hgt|]. rewrite Hh. f_equal.
  rewrite (same_primary_view _ _ Hsp).
  unfold primary_view, throws. now rewrite Hp, Hf.
Qed.

Lemma generateChecksum_view l l' :
  map digest_view l = map digest_view l' ->
  generateChecksum (VArr l) = generateChecksum (VArr l').
Proof.
  intros H. unfold generateChecksum.
  match goal with |- context [mapO ?f l] =>
    assert (E : mapO f l = mapO f l'); [|now rewrite E] end.
  revert l' H. induction l as [|t l IH]; intros [|t' l'] H; try discriminate; [reflexivity|].
  injection H as H1 H2 H3. cbn [mapO].
  rewrite H1, H2. unfold mbind, outcome_bind in *.
  now rewrite (IH l' H3).
Qed.

(** C3, amended. The secondary cache entry carried [payload] with its
    check sum; its payload is replaced by [forged], another list of tasks,
    and the stored check sum is left as it was. When [forged] differs from
    [payload] in the id or the [updatedAt] of some task, or in the number
    or the order of the tasks, a call of [getTasks] that reaches the check
    of the secondary cache returns the view of the primary record, not
    [forged]. *)
Theorem forged_ids_or_stamps_fall_back s now s1 s0 fs payload forged c :
  memo_miss s now s1 ->
  window (world s) = true ->
  memory_miss s1 s0 ->
  throws OpGet CACHE_KEY (world s) = false ->
  throws OpRemove CACHE_KEY (world s) = false ->
  secondary (world s) = Some (Json (VObj fs)) ->
  generateChecksum (VArr payload) = Ok c ->
  assoc "checksum" fs = VStr c ->
  assoc "data" fs = VArr forged ->
  all_Tasks payload -> all_Tasks forged ->
  map id_stamp forged <> map id_stamp payload ->
  exists a s',
    getTasks s = (a, s')
    /\ heap s' !! a = Some (primary_view (world s)).
Proof.
  intros Hm Hw Hc Hg Hr Hsec Hsum Hcs Hdata Hp Hf Hne.
  apply (mismatch_falls_back s now s1 s0 fs c); auto.
  rewrite Hdata, <- Hsum. intros E. apply Hne.
  now apply generateChecksum_tells_apart.
Qed.

(** ** [memoize] *)

Import performance.

Section MapFacts.
Context {V : Type}.
Implicit Types (c : JSMap.t V) (k : string).

Lemma JSMap_delete_length k c :
  k ∈ c.*1 -> S (length (JSMap.delete k c)) = length c.
Proof.
  induction c as [|[k' v] c IH]; simpl; [now intros ?%elem_of_nil|].
  intros Hin. destruct (String.eqb k k') eqn:E; [reflexivity|].
  apply String.eqb_neq in E. apply elem_of_cons in Hin as [?|Hin]; [congruence|].
  simpl. now rewrite IH.
Qed.

Lemma JSMap_delete_keys k c k' :
  NoDup c.*1 -> k' ∈ (JSMap.delete k c).*1 <-> k' ∈ c.*1 /\ k' <> k.
Proof.
  induction c as [|[k0 v] c IH]; simpl; intros Hnd.
  - split; [now intros ?%elem_of_nil | now intros [?%elem_of_nil _]].
  - inversion Hnd as [|? ? Hk0 Hnd']; subst.
    destruct (String.eqb k k0) eqn:E.
    + apply String.eqb_eq in E. subst k0. rewrite elem_of_cons.
      split.
      * intros H. split; [now right|]. intros ->. contradiction.
      * intros [[?|?] ?]; [congruence | assumption].
    + apply String.eqb_neq in E. simpl. rewrite !elem_of_cons, IH by assumption.
      split.
      * intros [->|[? ?]]; auto.
      * intros [[->|?] ?]; auto.
Qed.

Lemma JSMap_delete_NoDup k c : NoDup c.*1 -> NoDup (JSMap.delete k c).*1.
Proof.
  induction c as [|[k0 v] c IH]; simpl; intros Hnd; [constructor|].
  inversion Hnd as [|? ? Hk0 Hnd']; subst.
  destruct (String.eqb k k0); [assumption|]. simpl. constructor; [|auto].
  intros H. apply JSMap_delete_keys in H; [|assumption]. tauto.
Qed.

Lemma JSMap_delete_all (es : list (string * V)) c :
  NoDup es.*1 -> NoDup c.*1 -> (forall k, k ∈ es.*1 -> k ∈ c.*1) ->
  let c' := fold_left (fun c e => JSMap.delete (fst e) c) es c in
  (length c' + length es = length c)%nat /\ NoDup c'.*1.
Proof.
  revert c. induction es as [|[k v] es IH]; simpl; intros c He Hc Hin.
  - split; [lia | assumption].
  - inversion He as [|? ? Hk He']; subst.
    destruct (IH (JSMap.delete k c)) as [Hlen Hnd]; auto.
    + now apply JSMap_delete_NoDup.
    + intros k' Hk'. apply JSMap_delete_keys; [assumption|]. split.
      * apply Hin. now right.
      * intros ->. contradiction.
    + split; [|exact Hnd].
      pose proof (JSMap_delete_length k c (Hin k ltac:(left))). lia.
Qed.

Lemma JSMap_set_keys k v c :
  (JSMap.set k v c).*1 = if bool_decide (k ∈ c.*1) then c.*1 else c.*1 ++ [k].
Proof.
  induction c as [|[k0 v0] c IH]; [reflexivity|].
  cbn [JSMap.set]. destruct (String.eqb k k0) eqn:E.
  - apply String.eqb_eq in E. subst k0. rewrite !fmap_cons. cbn [fst].
    rewrite bool_decide_eq_true_2 by left. reflexivity.
  - apply String.eqb_neq in E. rewrite !fmap_cons, IH. cbn [fst].
    destruct (bool_decide (k ∈ c.*1)) eqn:Ek.
    + apply bool_decide_eq_true_1 in Ek.
      rewrite bool_decide_eq_true_2 by (now right). reflexivity.
    + apply bool_decide_eq_false_1 in Ek.
      rewrite bool_decide_eq_false_2; [reflexivity|].
      intros [?|?]%elem_of_cons; tauto.
Qed.

Lemma JSMap_set_bound k v c :
  NoDup c.*1 ->
  NoDup (JSMap.set k v c).*1 /\ (length (JSMap.set k v c) <= S (length c))%nat.
Proof.
  intros Hnd. pose proof (JSMap_set_keys k v c) as Hk.
  assert (Hl : length (JSMap.set k v c) = length (JSMap.set k v c).*1)
    by now rewrite length_fmap.
  rewrite Hl, Hk. destruct (bool_decide (k ∈ c.*1)) eqn:Ek.
  - rewrite length_fmap. split; [assumption | lia].
  - apply bool_decide_eq_false_1 in Ek. split.
    + apply NoDup_app. split; [assumption|]. split.
      * intros x Hx ->%list_elem_of_singleton. contradiction.
      * apply NoDup_singleton.
    + rewrite length_app, length_fmap. simpl. lia.
Qed.
End MapFacts.

Section MemoizeFacts.
Context {W A R : Type}.
Variable Date_now : W -> Z * W.
Variable fn : A -> W -> R * W.
Variable keyGenerator : A -> string.
Variable maxSize : Z.
Variable ttl : Z.

Lemma insert_by_timestamp_perm (e : string * entry R) l :
  insert_by_timestamp e l ≡ₚ e :: l.
Proof.
  induction l as [|x l IH]; simpl; [reflexivity|].
  destruct (_ <? _); [|reflexivity].
  rewrite IH. apply Permutation_swap.
Qed.

Lemma sort_by_timestamp_perm (l : list (string * entry R)) :
  sort_by_timestamp l ≡ₚ l.
Proof.
  induction l as [|x l IH]; simpl; [reflexivity|].
  now rewrite insert_by_timestamp_perm, IH.
Qed.

(** The clean-up drops a quarter of the entries, rounded down. *)
Lemma evict_length (c : JSMap.t (entry R)) :
  NoDup c.*1 ->
  (length (evict c) + length c / 4 = length c)%nat /\ NoDup (evict c).*1.
Proof.
  intros Hnd. unfold evict.
  pose proof (sort_by_timestamp_perm c) as Hp.
  set (es := take _ _).
  assert (Hes : length es = (length c / 4)%nat).
  { unfold es. rewrite length_take, (Permutation_length Hp).
    pose proof (Nat.Div0.div_le_upper_bound (length c) 4 (length c)). lia. }
  assert (Hsub : es.*1 `sublist_of` (sort_by_timestamp c).*1).
  { unfold es. apply fmap_sublist, sublist_take. }
  assert (Hpk : (sort_by_timestamp c).*1 ≡ₚ c.*1) by now rewrite Hp.
  assert (Hnds : NoDup (sort_by_timestamp c).*1) by now rewrite Hpk.
  destruct (JSMap_delete_all es c) as [Hlen Hnd'].
  - eapply sublist_NoDup; eauto.
  - assumption.
  - intros k Hk. rewrite <- Hpk. eapply elem_of_sublist; eauto.
  - split; [lia | assumption].
Qed.

Lemma insert_by_timestamp_sorted (e : string * entry R) l :
  StronglySorted (fun x y => timestamp (snd x) <= timestamp (snd y)) l ->
  StronglySorted (fun x y => timestamp (snd x) <= timestamp (snd y))
    (insert_by_timestamp e l).
Proof.
  induction 1 as [|x l Hl IH Hx]; simpl; [repeat constructor|].
  destruct (timestamp (snd x) <? timestamp (snd e)) eqn:E.
  - apply Z.ltb_lt in E. constructor; [exact IH|].
    apply Forall_forall. intros y Hy.
    rewrite insert_by_timestamp_perm in Hy.
    apply elem_of_cons in Hy as [->|Hy]; [lia|].
    now apply (proj1 (Forall_forall _ _) Hx).
  - apply Z.ltb_ge in E. constructor; [now constructor|].
    constructor; [exact E|].
    eapply Forall_impl; [exact Hx|]. simpl. intros; lia.
Qed.

Lemma sort_by_timestamp_sorted (l : list (string * entry R)) :
  StronglySorted (fun x y => timestamp (snd x) <= timestamp (snd y))
    (sort_by_timestamp l).
Proof.
  induction l as [|x l IH]; simpl; [constructor|].
  now apply insert_by_timestamp_sorted.
Qed.

Lemma sorted_take_drop (l : list (string * entry R)) n x y :
  StronglySorted (fun x y => timestamp (snd x) <= timestamp (snd y)) l ->
  x ∈ take n l -> y ∈ drop n l -> timestamp (snd x) <= timestamp (snd y).
Proof.
  intros Hl. revert n. induction Hl as [|z l Hl IH Hz]; intros [|n]; simpl.
  - now intros ?%elem_of_nil.
  - now intros ?%elem_of_nil.
  - now intros ?%elem_of_nil.
  - intros [->|Hx]%elem_of_cons Hy.
    + apply (proj1 (Forall_forall _ _) Hz).
      eapply elem_of_sublist; [exact Hy | apply sublist_drop].
    + now apply (IH n).
Qed.

Lemma JSMap_delete_elem (k : string) (c : JSMap.t (entry R)) e :
  NoDup c.*1 -> e ∈ JSMap.delete k c <-> e ∈ c /\ fst e <> k.
Proof.
  induction c as [|[k0 v] c IH]; simpl; intros Hnd.
  - split; [now intros ?%elem_of_nil | now intros [?%elem_of_nil _]].
  - inversion Hnd as [|? ? Hk0 Hnd']; subst.
    destruct (String.eqb k k0) eqn:E.
    + apply String.eqb_eq in E. subst k0. rewrite elem_of_cons. split.
      * intros He. split; [now right|]. intros <-. apply Hk0.
        apply list_elem_of_fmap. now exists e.
      * intros [[->|?] Hk]; [now simpl in Hk | assumption].
    + apply String.eqb_neq in E. rewrite !elem_of_cons, IH by assumption.
      split.
      * intros [->|[? ?]]; simpl; auto.
      * intros [[->|?] ?]; auto.
Qed.

Lemma JSMap_delete_all_elem (es : list (string * entry R)) (c : JSMap.t (entry R)) e :
  NoDup c.*1 ->
  e ∈ fold_left (fun c e => JSMap.delete (fst e) c) es c
  <-> e ∈ c /\ fst e ∉ es.*1.
Proof.
  revert c. induction es as [|[k v] es IH]; simpl; intros c Hc.
  - split; [intros ?; split; [assumption | now intros ?%elem_of_nil] | tauto].
  - rewrite IH by now apply JSMap_delete_NoDup.
    rewrite JSMap_delete_elem by assumption. rewrite not_elem_of_cons. tauto.
Qed.

(** The entries the clean-up drops are the oldest: none of them is younger
    than an entry it keeps. *)
Lemma evict_oldest (c : JSMap.t (entry R)) e e' :
  NoDup c.*1 ->
  e ∈ evict c -> e' ∈ c -> e' ∉ evict c ->
  timestamp (snd e') <= timestamp (snd e).
Proof.
  intros Hnd He He' Hgone. unfold evict in *.
  set (es := sort_by_timestamp c) in *.
  set (n := (length es / 4)%nat) in *.
  assert (Hp : es ≡ₚ c) by apply sort_by_timestamp_perm.
  assert (Hnds : NoDup es.*1) by now rewrite Hp.
  assert (Hkey : forall x y : string * entry R,
             x ∈ es -> y ∈ es -> fst x = fst y -> x = y).
  { intros x y Hx Hy Hxy.
    apply list_elem_of_lookup in Hx as [i Hi], Hy as [j Hj].
    assert (i = j).
    { eapply NoDup_lookup; [exact Hnds | |];
        rewrite list_lookup_fmap; [rewrite Hi | rewrite Hj]; simpl;
        [reflexivity | now rewrite Hxy]. }
    subst j. congruence. }
  rewrite JSMap_delete_all_elem in He, Hgone by assumption.
  destruct He as [He Hk].
  assert (Hin' : e' ∈ take n es).
  { destruct (decide (fst e' ∈ (take n es).*1)) as [Hd|Hd]; [|tauto].
    apply list_elem_of_fmap in Hd as [x [Hx Hxin]].
    assert (x = e') as <-; [|assumption].
    apply Hkey; [| now rewrite Hp | now symmetry].
    eapply elem_of_sublist; [exact Hxin | apply sublist_take]. }
  assert (Hin : e ∈ drop n es).
  { rewrite <- Hp, <- (take_drop n es) in He.
    apply elem_of_app in He as [He|He]; [|assumption].
    exfalso. apply Hk. apply list_elem_of_fmap. now exists e. }
  eapply sorted_take_drop; eauto. apply sort_by_timestamp_sorted.
Qed.

(** With a maximum of four entries or more, a call never leaves more
    entries than the maximum. *)
Lemma memoized_bounded (args : A) (c : JSMap.t (entry R)) (w : W) :
  4 <= maxSize ->
  NoDup c.*1 -> JSMap.size c <= maxSize ->
  let c' := snd (fst (memoized Date_now fn keyGenerator maxSize ttl args c w)) in
  NoDup c'.*1 /\ JSMap.size c' <= maxSize.
Proof.
  intros Hmax Hnd Hsize. unfold memoized.
  destruct (Date_now w) as [now w1].
  destruct (match JSMap.get _ c with Some _ => _ | None => _ end) as [v|]; simpl.
  { split; assumption. }
  destruct (fn args w1) as [result w2]. simpl.
  destruct (evict_length c Hnd) as [Hlen Hnde].
  unfold JSMap.size in *.
  destruct (Z.of_nat (length c) >=? maxSize) eqn:E.
  - destruct (JSMap_set_bound (keyGenerator args)
                {| value_of := result; timestamp := now |} (evict c) Hnde) as [H1 H2].
    split; [exact H1|].
    apply Z.geb_le in E.
    assert (1 <= length c / 4)%nat.
    { apply (Nat.div_le_lower_bound (length c) 4 1); lia. }
    lia.
  - destruct (JSMap_set_bound (keyGenerator args)
                {| value_of := result; timestamp := now |} c Hnd) as [H1 H2].
    split; [exact H1|]. rewrite Z.geb_leb in E. apply Z.leb_gt in E. lia.
Qed.
End MemoizeFacts.


(** ** Examples, witnesses and counterexamples *)

Example calendar_examples :
  days_from_civil 1970 1 1 = 0
  /\ weekday_long ((days_from_civil 1970 1 1 + 4) mod 7) = "Thursday"%string
  /\ civil_from_days 19737 = (2024, 1, 15)
  /\ civil_from_days 11016 = (2000, 2, 29)
  /\ toISOString 1705361400123 = "2024-01-15T23:30:00.123Z"%string
  /\ parse_iso "2024-01-15T23:30:00.123Z" = Some 1705361400123
  /\ dateUtils.formatDateForSearch Demo.host (OfDate (Some 1705361400123)) = "2024-01-16"%string
  /\ dateUtils.getDayName Demo.host (OfDate (Some 1705361400123)) = "Tuesday"%string.
Proof. vm_compute. repeat split. Qed.

Example addTask_example :
  let s := Demo.loaded Demo.same_instant Demo.stored None in
  fst (addTask Demo.host {| title := "  Call dentist "; description := None;
                            name := Some "Emma"; role := None |} s)
  = Ok (VObj [("id", VStr "1705361400123-k3j9x0q1z"); ("title", VStr "Call dentist");
              ("description", VStr ""); ("name", VStr "Emma"); ("role", VStr "");
              ("isCompleted", VBool false);
              ("createdAt", VStr "2024-01-15T23:30:00.123Z");
              ("updatedAt", VStr "2024-01-15T23:30:00.123Z");
              ("dateAdded", VStr "2024-01-16"); ("dayAdded", VStr "Tuesday")]%string).
Proof. vm_compute. reflexivity. Qed.

Example search_examples :
  let s := Demo.loaded Demo.later Demo.stored None in
  let found q := (let '(r, s') := searchTasks Demo.host q true true s in
                  match r with Ok a => heap s' !! a | Throw => None end) in
  found "groceries" = Some [Demo.groceries]
  /\ found "MEETING" = Some [Demo.meeting]
  /\ found "Team  MEETING " = Some [Demo.meeting]
  /\ found "meeting team" = Some [Demo.meeting]
  /\ found "tuesday" = Some [Demo.groceries; Demo.meeting]
  /\ found "2024-01-16" = Some [Demo.groceries; Demo.meeting]
  /\ found "2024-01-15" = Some []
  /\ found "nonexistentterm12345" = Some [].
Proof. vm_compute. repeat split. Qed.

(** Outside the stored tasks: a task without a description passes the
    interface, and the search text of the branch for several words reads
    its missing fields as the word [undefined]. The branch for one word
    guards them. *)
Example multiword_reads_undefined :
  let bare := VObj [("id", VStr "t3"); ("title", VStr "Call dentist");
                    ("isCompleted", VBool false);
                    ("createdAt", VStr "2024-01-15T23:30:00.123Z");
                    ("updatedAt", VStr "2024-01-15T23:30:00.123Z");
                    ("dateAdded", VStr "2024-01-16"); ("dayAdded", VStr "Tuesday")]%string in
  is_Task bare = true
  /\ is_stored_Task bare = false
  /\ search_filter Demo.host true true "undefined dentist" (words "undefined dentist") bare = Ok true
  /\ search_filter Demo.host true true "undefined" (words "undefined") bare = Ok false.
Proof. vm_compute. repeat split. Qed.

(** C1, counterexample. A patch that repeats the stored [updatedAt], sent
    later, equals the task in every field it names; yet the task comes
    back with a new stamp and the collection is written. And a patch with
    a new title, sent in the millisecond of the stored stamp, changes the
    title and leaves [updatedAt] as it was. *)
Lemma updateTask_stamp_decides_the_noop :
  (let s := Demo.loaded Demo.later Demo.stored None in
   let patch := [("updatedAt"%string, prop "updatedAt" Demo.groceries)] in
   heap (snd (getTasks s)) !! fst (getTasks s) = Some [Demo.groceries; Demo.meeting]
   /\ patch_differs Demo.groceries patch = false
   /\ exists r s',
       updateTask "t1" patch s = (Ok (Some r), s')
       /\ prop "updatedAt" r = VStr "2024-01-15T23:31:40.000Z"
       /\ primary (world s')
          = Some (JSON_stringify (VArr [r; Demo.meeting])))
  /\
  (let s := Demo.loaded Demo.same_instant Demo.stored None in
   let patch := [("title"%string, VStr "Buy bread")] in
   patch_differs Demo.groceries patch = true
   /\ exists r s',
       updateTask "t1" patch s = (Ok (Some r), s')
       /\ prop "title" r = VStr "Buy bread"
       /\ prop "updatedAt" r = prop "updatedAt" Demo.groceries).
Proof.
  split; cbv zeta.
  - split; [vm_compute; reflexivity|]. split; [vm_compute; reflexivity|].
    eexists _, _. split; [vm_compute; reflexivity|].
    split; vm_compute; reflexivity.
  - split; [vm_compute; reflexivity|].
    eexists _, _. split; [vm_compute; reflexivity|].
    split; vm_compute; reflexivity.
Qed.

(** The amended C1 at the two tasks of the example and a new title. *)
Lemma updateTask_noop_or_stamp_witness :
  let s := Demo.loaded Demo.later Demo.stored None in
  let s1 := snd (getTasks s) in
  let s2 := snd (Date_now_total s1) in
  let cur := Demo.groceries in
  let updates := [("title"%string, VStr "Buy bread")] in
  (patch_differs cur updates = false ->
     updateTask "t1" updates s = (Ok (Some cur), s2)
     /\ heap s2 = heap s1
     /\ primary (world s2) = primary (world s1)
     /\ secondary (world s2) = secondary (world s1))
  /\ (patch_differs cur updates = true ->
      exists new s',
        updateTask "t1" updates s = (Ok (Some new), s')
        /\ (forall k v, (k, v) ∈ updates -> prop k new = v)
        /\ (forall k, k ∉ keys updates -> k <> "updatedAt"%string ->
              prop k new = prop k cur)
        /\ prop "updatedAt" new = VStr (JSDate.toISOString Demo.later)
        /\ (prop "updatedAt" cur <> VStr (JSDate.toISOString Demo.later) ->
            prop "updatedAt" new <> prop "updatedAt" cur)
        /\ heap s' !! 0%nat = Some ([] ++ new :: [Demo.meeting])
        /\ (window (world s1) = true ->
            throws OpSet TASKS_KEY (world s1) = false ->
            primary (world s')
            = Some (JSON_stringify (VArr ([] ++ new :: [Demo.meeting]))))).
Proof.
  cbv zeta.
  apply (updateTask_noop_or_stamp "t1" _ (Demo.loaded Demo.later Demo.stored None)
           0%nat _ [] Demo.groceries [Demo.meeting] Demo.later).
  - vm_compute; reflexivity.
  - vm_compute; reflexivity.
  - repeat constructor.
  - reflexivity.
  - intros t Ht. inversion Ht.
  - repeat constructor. intros H. inversion H.
  - intros H. apply list_elem_of_singleton in H. discriminate.
  - vm_compute; reflexivity.
Defined.

(** C6 at an id that no task carries. *)
Lemma unknown_id_is_reported_not_raised_witness :
  let s := Demo.loaded Demo.later Demo.stored None in
  let s1 := snd (getTasks s) in
  updateTask "t9" [("isCompleted"%string, VBool true)] s = (Ok None, s1)
  /\ deleteTask "t9" s = (Ok false, s1)
  /\ primary (world s1) = primary (world s)
  /\ heap s1 !! 0%nat = Some [Demo.groceries; Demo.meeting].
Proof.
  cbv zeta.
  apply (unknown_id_is_reported_not_raised "t9" _
           (Demo.loaded Demo.later Demo.stored None) 0%nat _
           [Demo.groceries; Demo.meeting]).
  - vm_compute; reflexivity.
  - vm_compute; reflexivity.
  - repeat constructor.
  - intros t Ht. apply elem_of_cons in Ht as [->|Ht]; [discriminate|].
    apply list_elem_of_singleton in Ht as ->. discriminate.
Defined.

(** C9 at the second task of the example. *)
Lemma updateTask_replaces_in_place_witness :
  let s := Demo.loaded Demo.later Demo.stored None in
  let s1 := snd (getTasks s) in
  exists r s',
    updateTask "t2" [("isCompleted"%string, VBool false)] s = (Ok (Some r), s')
    /\ heap s' !! 0%nat = Some ([Demo.groceries] ++ r :: [])
    /\ length ([Demo.groceries] ++ r :: []) = length ([Demo.groceries] ++ Demo.meeting :: [])
    /\ (forall j, j <> length [Demo.groceries] ->
          ([Demo.groceries] ++ r :: []) !! j = ([Demo.groceries] ++ Demo.meeting :: []) !! j)
    /\ (r <> Demo.meeting -> window (world s1) = true ->
        throws OpSet TASKS_KEY (world s1) = false ->
        primary (world s') = Some (JSON_stringify (VArr ([Demo.groceries] ++ r :: [])))).
Proof.
  cbv zeta.
  apply (updateTask_replaces_in_place "t2" _
           (Demo.loaded Demo.later Demo.stored None) 0%nat _
           [Demo.groceries] Demo.meeting []).
  - vm_compute; reflexivity.
  - vm_compute; reflexivity.
  - repeat constructor.
  - reflexivity.
  - intros t Ht. apply list_elem_of_singleton in Ht as ->. discriminate.
Defined.

(** C5 at a query of two spaces, completed tasks only. *)
Lemma search_blank_query_witness :
  let s := Demo.loaded Demo.later Demo.stored None in
  let l := [Demo.groceries; Demo.meeting] in
  exists r s',
    searchTasks Demo.host "  " true false s = (Ok r, s')
    /\ heap s' !! r = Some (List.filter (status_eligible true false) l)
    /\ (true = true -> false = true -> r = 0%nat /\ heap s' !! r = Some l)
    /\ (true = true -> false = false -> heap s' !! r = Some (List.filter completed l)).
Proof.
  cbv zeta.
  apply (search_blank_query Demo.host "  " true false
           (Demo.loaded Demo.later Demo.stored None)
           (Demo.loaded Demo.later Demo.stored None) 0%nat
           (snd (getTasks (Demo.loaded Demo.later Demo.stored None)))).
  - reflexivity.
  - exact eq_refl.
  - vm_compute; reflexivity.
  - vm_compute; reflexivity.
  - repeat constructor.
Defined.

(** C2 at a query of two words. *)
Lemma search_query_matches_witness :
  let s := Demo.loaded Demo.later Demo.stored None in
  let l := [Demo.groceries; Demo.meeting] in
  exists r s',
    searchTasks Demo.host "Team  MEETING " true true s = (Ok r, s')
    /\ heap s' !! r
       = Some (List.filter
                 (fun t => status_eligible true true t
                           && matches "2024-01-16" (words "Team  MEETING ") t) l)
    /\ words "Team  MEETING " <> [].
Proof.
  cbv zeta.
  apply (search_query_matches Demo.host "Team  MEETING " true true
           (Demo.loaded Demo.later Demo.stored None)
           (Demo.loaded Demo.later Demo.stored None) 0%nat
           (snd (getTasks (Demo.loaded Demo.later Demo.stored None)))
           [Demo.groceries; Demo.meeting] (fun _ => "2024-01-16"%string)).
  - reflexivity.
  - exact eq_refl.
  - vm_compute; reflexivity.
  - vm_compute; reflexivity.
  - repeat constructor.
  - intros t Ht. apply list_elem_of_In in Ht. simpl in Ht.
    destruct Ht as [<-|[<-|[]]]; exists 2024, 1, 16;
      (split; [vm_compute; intuition discriminate|]);
      split; vm_compute; reflexivity.
Defined.

(** C2, counterexample. The title of the task ends with [meeting] and its
    description begins with [Discuss]: the concatenation of its fields
    holds both words of the query, the search does not keep the task. *)
Lemma word_across_two_fields_is_not_matched :
  let s := Demo.loaded Demo.later Demo.stored None in
  let q := "meetingdiscuss project"%string in
  words q = ["meetingdiscuss"; "project"]%string
  /\ Demo.meeting ∈ primary_view (world s)
  /\ status_eligible true true Demo.meeting = true
  /\ forallb (fun word => includes (concatenation Demo.meeting) word) (words q) = true
  /\ exists r s',
       searchTasks Demo.host q true true s = (Ok r, s')
       /\ heap s' !! r = Some [].
Proof.
  cbv zeta. split; [reflexivity|].
  split; [vm_compute; right; left|].
  split; [reflexivity|]. split; [vm_compute; reflexivity|].
  eexists _, _. split; vm_compute; reflexivity.
Qed.

(** C3, counterexample. The title of a task in the payload of the
    secondary cache is replaced; the check sum, which reads [id] and
    [updatedAt] only, is the same, and [getTasks] returns the forged
    payload, not the primary record. *)
Lemma tampered_title_is_trusted :
  let payload := [Demo.groceries; Demo.meeting] in
  let forged := [Demo.tampered; Demo.meeting] in
  let s := Demo.loaded Demo.later Demo.stored
             (Demo.cache_entry forged payload (Demo.later - 1000)) in
  forged <> payload
  /\ generateChecksum (VArr forged) = generateChecksum (VArr payload)
  /\ heap (snd (getTasks s)) !! fst (getTasks s) = Some forged
  /\ primary_view (world s) = payload.
Proof.
  cbv zeta. split; [discriminate|]. repeat split; vm_compute; reflexivity.
Qed.

(** The amended C3 at a payload whose first id was changed. *)
Lemma forged_ids_or_stamps_fall_back_witness :
  let payload := [Demo.groceries; Demo.meeting] in
  let forged := [Demo.task "t7" "Buy groceries" "" false; Demo.meeting] in
  let s := Demo.loaded Demo.later Demo.stored
             (Demo.cache_entry forged payload (Demo.later - 1000)) in
  exists a s',
    getTasks s = (a, s')
    /\ heap s' !! a = Some (primary_view (world s)).
Proof.
  cbv zeta.
  apply (forged_ids_or_stamps_fall_back _ Demo.later
           (Demo.loaded Demo.later Demo.stored
              (Demo.cache_entry [Demo.task "t7" "Buy groceries" "" false; Demo.meeting]
                 [Demo.groceries; Demo.meeting] (Demo.later - 1000)))
           (Demo.loaded Demo.later Demo.stored
              (Demo.cache_entry [Demo.task "t7" "Buy groceries" "" false; Demo.meeting]
                 [Demo.groceries; Demo.meeting] (Demo.later - 1000)))
           [("data"%string, VArr [Demo.task "t7" "Buy groceries" "" false; Demo.meeting]);
            ("timestamp"%string, VNum (Demo.later - 1000));
            ("checksum"%string,
             match generateChecksum (VArr [Demo.groceries; Demo.meeting]) with
             | Ok c => VStr c
             | Throw => VNull
             end)]
           [Demo.groceries; Demo.meeting]
           [Demo.task "t7" "Buy groceries" "" false; Demo.meeting]
           (match generateChecksum (VArr [Demo.groceries; Demo.meeting]) with
            | Ok c => c
            | Throw => EmptyString
            end)).
  - split; [vm_compute; reflexivity | vm_compute; exact I].
  - reflexivity.
  - exact eq_refl.
  - reflexivity.
  - reflexivity.
  - reflexivity.
  - vm_compute; reflexivity.
  - vm_compute; reflexivity.
  - reflexivity.
  - repeat constructor.
  - repeat constructor.
  - vm_compute. discriminate.
Defined.

(** C7, failing input. Two records pass the shape validation; the first
    holds a number as its description, on which [trim] is not a function:
    the cleaning throws, and [getTasks] returns the empty collection,
    dropping the second record as well. *)
Theorem odd_optional_field_empties_the_read :
  let records := [Demo.odd_record; Demo.meeting] in
  let s := Demo.loaded Demo.later (Some (Json (VArr records))) None in
  List.filter valid_shape records = records
  /\ clean Demo.odd_record = Throw
  /\ clean Demo.meeting = Ok Demo.meeting
  /\ heap (snd (getTasks s)) !! fst (getTasks s) = Some [].
Proof. cbv zeta. repeat split; vm_compute; reflexivity. Qed.

(** C8, failing input. With [maxSize: 1], the setting of [getTasks], the
    clean-up of a cache of one entry drops a quarter of one entry, rounded
    down: none. A call under a second key leaves two entries. *)
Theorem memoize_outgrows_small_maxSize :
  let call a c w :=
    performance.memoized Demo.clock Demo.echo (fun a => a) 1 1000 a c w in
  let '(_, c1, w1) := call "a"%string [] 0 in
  let '(_, c2, w2) := call "b"%string c1 w1 in
  performance.size c1 = 1
  /\ performance.evict c1 = c1
  /\ performance.size c2 = 2.
Proof. vm_compute. repeat split. Qed.

Import Further.

(* ================================================================== *)
(** * Further properties of the service *)
(* ================================================================== *)

(** ** The read path of [getTasks] *)

Lemma tick_fields s t s' :
  Date_now_total s = (t, s') ->
  heap s' = heap s /\ memo s' = memo s /\ cache s' = cache s
  /\ cacheTimestamp s' = cacheTimestamp s /\ searchCache s' = searchCache s
  /\ primary (world s') = primary (world s)
  /\ secondary (world s') = secondary (world s)
  /\ window (world s') = window (world s)
  /\ faults (world s') = faults (world s).
Proof.
  unfold Date_now_total, tick. destruct (future (world s)); intros [= <- <-];
    now repeat split.
Qed.

(** The check of the secondary cache on a young entry that carries the
    check sum of its own payload. *)
Lemma secondary_cache_adopts s0 fs payload ts c t s0' :
  throws OpGet CACHE_KEY (world s0) = false ->
  secondary (world s0) = Some (Json (VObj fs)) ->
  assoc "data" fs = VArr payload ->
  assoc "timestamp" fs = VNum ts ->
  assoc "checksum" fs = VStr c ->
  generateChecksum (VArr payload) = Ok c ->
  Date_now_total s0 = (t, s0') ->
  t - ts < CACHE_EXPIRY ->
  secondary_cache s0
  = (Ok (Some (length (heap s0))),
     set_cacheTimestamp ts
       (set_cache (Some (length (heap s0)))
          (set_heap (heap s0 ++ [payload]) s0'))).
Proof.
  intros Hg Hsec Hd Hts Hc Hsum Ht Hy.
  destruct (tick_fields _ _ _ Ht) as (Hh & _).
  unfold secondary_cache, adopt_secondary. jsm_unfold. rewrite Hg. simpl.
  rewrite Hsec. simpl. rewrite Ht. simpl. rewrite Hts. simpl.
  unfold fresh. simpl. apply Z.ltb_lt in Hy. rewrite Hy.
  rewrite Hd, Hsum. simpl. rewrite Hc. simpl. rewrite String.eqb_refl.
  simpl. now rewrite Hh.
Qed.

Lemma getTasks_inner_adopts s1 s0 fs payload ts c t s0' :
  window (world s1) = true ->
  memory_miss s1 s0 ->
  throws OpGet CACHE_KEY (world s0) = false ->
  secondary (world s0) = Some (Json (VObj fs)) ->
  assoc "data" fs = VArr payload ->
  assoc "timestamp" fs = VNum ts ->
  assoc "checksum" fs = VStr c ->
  generateChecksum (VArr payload) = Ok c ->
  Date_now_total s0 = (t, s0') ->
  t - ts < CACHE_EXPIRY ->
  getTasks_inner s1
  = (length (heap s0),
     set_cacheTimestamp ts
       (set_cache (Some (length (heap s0)))
          (set_heap (heap s0 ++ [payload]) s0'))).
Proof.
  intros Hw1 Hc Hg Hsec Hd Hts Hcs Hsum Ht Hy.
  unfold getTasks_inner. rewrite Hw1. simpl.
  unfold catch_all, getTasks_try, check_secondary. unfold mbind at 1, JSM_bind.
  rewrite (memory_cache_miss _ _ Hc). unfold mbind at 1, JSM_bind.
  now rewrite (secondary_cache_adopts s0 fs payload ts c t s0').
Qed.

(** X1. A call of [getTasks] that reaches the check of the secondary
    cache and finds there an entry younger than ten minutes whose stored
    check sum is the one of its payload returns a new array that holds
    the payload, takes it as its memory cache with the time stamp of the
    entry, and leaves both items of the storage as they are: the primary
    record is not consulted, whatever it holds. *)
Theorem fresh_valid_secondary_is_adopted s now s1 s0 fs payload ts c t s0' :
  memo_miss s now s1 ->
  window (world s) = true ->
  memory_miss s1 s0 ->
  throws OpGet CACHE_KEY (world s) = false ->
  secondary (world s) = Some (Json (VObj fs)) ->
  assoc "data" fs = VArr payload ->
  assoc "timestamp" fs = VNum ts ->
  assoc "checksum" fs = VStr c ->
  generateChecksum (VArr payload) = Ok c ->
  Date_now_total s0 = (t, s0') ->
  t - ts < CACHE_EXPIRY ->
  exists a s',
    getTasks s = (a, s')
    /\ heap s' !! a = Some payload
    /\ cache s' = Some a
    /\ cacheTimestamp s' = ts
    /\ primary (world s') = primary (world s)
    /\ secondary (world s') = secondary (world s).
Proof.
  intros Hm Hw Hc Hg Hsec Hd Hts Hcs Hsum Ht Hy.
  destruct (ticks_to_check _ _ _ _ Hm Hc) as (Hh & Hp & Hs & Hw' & Hf).
  destruct (tick_fields _ _ _ Ht) as (Hh' & _ & _ & _ & _ & Hp' & Hs' & _).
  assert (Hw1 : window (world s1) = true).
  { destruct Hm as [Hm _]. destruct (tick_fields _ _ _ Hm) as (_&_&_&_&_&_&_&H&_).
    congruence. }
  rewrite (getTasks_miss _ _ _ Hm).
  rewrite (getTasks_inner_adopts s1 s0 fs payload ts c t s0'); auto.
  2:{ unfold throws in *. now rewrite Hf. }
  2:{ congruence. }
  simpl. eexists _, _. split; [reflexivity|]. simpl.
  rewrite lookup_app_r by lia. rewrite Nat.sub_diag.
  repeat split; congruence.
Qed.

(** The check of the secondary cache on an item that is absent, that is
    not JSON, or that is ten minutes old or older. *)
Lemma secondary_cache_declines s0 :
  throws OpGet CACHE_KEY (world s0) = false ->
  throws OpRemove CACHE_KEY (world s0) = false ->
  (secondary (world s0) = None
   \/ (exists raw, secondary (world s0) = Some (Malformed raw))
   \/ (exists fs ts t s0',
         secondary (world s0) = Some (Json (VObj fs))
         /\ assoc "timestamp" fs = VNum ts
         /\ Date_now_total s0 = (t, s0')
         /\ CACHE_EXPIRY <= t - ts)) ->
  exists s2, falls_through s0 s2 /\ same_primary s0 s2.
Proof.
  intros Hg Hr Hcases. unfold falls_through, secondary_cache.
  unfold adopt_secondary. jsm_unfold. rewrite Hg. simpl.
  destruct Hcases as [Hn|[[raw Hraw]|(fs & ts & t & s0' & Hsec & Hts & Ht & Hold)]].
  - rewrite Hn. simpl. eexists. split; [reflexivity|]. now repeat split.
  - rewrite Hraw. simpl. destruct (nonempty raw); simpl.
    + rewrite Hr. simpl. eexists. split; [reflexivity|]. now repeat split.
    + eexists. split; [reflexivity|]. now repeat split.
  - rewrite Hsec. simpl. rewrite Ht. simpl. rewrite Hts. unfold fresh. simpl.
    apply Z.ltb_ge in Hold. rewrite Hold.
    destruct (tick_fields _ _ _ Ht) as (_&_&_&_&_&Hp&_&Hw&Hf).
    eexists. split; [reflexivity|]. now repeat split.
Qed.


(** X3. When [memoize] has no young result and the memory cache was set
    less than ten minutes ago, [getTasks] returns the very array of the
    memory cache; the heap and both items of the storage stay as they
    are, whatever the storage holds. *)
Theorem memory_cache_is_served s now s1 l t s2 :
  memo_miss s now s1 ->
  window (world s) = true ->
  cache s = Some l ->
  Date_now_total s1 = (t, s2) ->
  t - cacheTimestamp s < CACHE_EXPIRY ->
  exists s',
    getTasks s = (l, s')
    /\ heap s' = heap s
    /\ cache s' = Some l
    /\ primary (world s') = primary (world s)
    /\ secondary (world s') = secondary (world s).
Proof.
  intros Hm Hw Hc Ht Hy.
  pose proof Hm as [Ht0 _].
  destruct (tick_fields _ _ _ Ht0) as (Hh1&_&Hc1&Hts1&_&Hp1&Hs1&Hw1&_).
  destruct (tick_fields _ _ _ Ht) as (Hh2&_&Hc2&Hts2&_&Hp2&Hs2&_).
  assert (Hi : getTasks_inner s1 = (l, s2)).
  { unfold getTasks_inner. rewrite Hw1, Hw. simpl.
    unfold catch_all, getTasks_try, memory_cache. jsm_unfold.
    rewrite Hc1, Hc. simpl. rewrite Ht. simpl. rewrite Hts2, Hts1.
    apply Z.ltb_lt in Hy. now rewrite Hy. }
  rewrite (getTasks_miss _ _ _ Hm), Hi. simpl.
  eexists. split; [reflexivity|]. simpl. repeat split; congruence.
Qed.
(** ** The check sum *)

(** X4. On two collections of tasks, [generateChecksum] gives the same
    check sum exactly when the two list the same ids and [updatedAt]
    stamps in the same order: it tells such lists apart, and nothing else
    of a task reaches it. *)
Theorem generateChecksum_reads_ids_and_stamps l l' :
  all_Tasks l -> all_Tasks l' ->
  generateChecksum (VArr l) = generateChecksum (VArr l')
  <-> map id_stamp l = map id_stamp l'.
Proof.
  intros Hl Hl'. split.
  - now apply generateChecksum_tells_apart.
  - intros E. now rewrite !generateChecksum_tasks, E.
Qed.

(** ** [validateAndCleanTasks] *)

Lemma trim_idem s : trim (trim s) = trim s.
Proof.
  unfold trim. destruct (trimStart s) as [|c r] eqn:E; [reflexivity|].
  apply trimStart_head in E.
  assert (H : exists r', trimEnd (String c r) = String c r').
  { simpl. destruct (trimEnd r); [rewrite E|]; eauto. }
  destruct H as [r' H]. rewrite H. cbn [trimStart]. rewrite E.
  rewrite <- H. apply trimEnd_idem.
Qed.

Lemma trimmed_idem v : trimmed (trimmed v) = trimmed v.
Proof. destruct v; simpl; try reflexivity. now rewrite trim_idem. Qed.

Lemma prop_assoc k t : prop k t = assoc k (fields t).
Proof. now destruct t. Qed.

Lemma set_prop_same k v gs :
  k ∈ keys gs -> assoc k gs = v -> set_prop k v gs = gs.
Proof.
  induction gs as [|[k' v'] gs IH]; simpl; [now intros ?%elem_of_nil|].
  destruct (String.eqb k k') eqn:E.
  - apply String.eqb_eq in E. now intros _ ->; subst.
  - apply String.eqb_neq in E. intros [?|Hin]%elem_of_cons; [congruence|].
    intros H. now rewrite IH.
Qed.

Lemma keys_set_prop k v fs k' :
  k' ∈ keys (set_prop k v fs) <-> k' = k \/ k' ∈ keys fs.
Proof.
  unfold keys. induction fs as [|[k0 v0] fs IH]; simpl.
  - rewrite list_elem_of_singleton. split; [auto|]. intros [?|?%elem_of_nil]; tauto.
  - destruct (String.eqb k k0) eqn:E; simpl.
    + apply String.eqb_eq in E. subst k0. rewrite !elem_of_cons. tauto.
    + rewrite !elem_of_cons, IH. tauto.
Qed.

Lemma prop_cleaned k t :
  prop k (cleaned t)
  = if bool_decide (k ∈ cleaned_keys) then trimmed (prop k t) else prop k t.
Proof.
  unfold cleaned. cbn [prop get]. rewrite !assoc_set_prop, !prop_assoc.
  unfold cleaned_keys.
  destruct (String.eqb k "role") eqn:E1;
    [apply String.eqb_eq in E1; subst; reflexivity|].
  destruct (String.eqb k "name") eqn:E2;
    [apply String.eqb_eq in E2; subst; reflexivity|].
  destruct (String.eqb k "description") eqn:E3;
    [apply String.eqb_eq in E3; subst; reflexivity|].
  destruct (String.eqb k "title") eqn:E4;
    [apply String.eqb_eq in E4; subst; reflexivity|].
  apply String.eqb_neq in E1, E2, E3, E4.
  rewrite bool_decide_eq_false_2; [reflexivity|].
  rewrite !elem_of_cons. intros [?|[?|[?|[?|?%elem_of_nil]]]]; congruence.
Qed.

Lemma cleaned_idem t : cleaned (cleaned t) = cleaned t.
Proof.
  assert (Hp : forall k, k ∈ cleaned_keys ->
                 trimmed (prop k (cleaned t)) = trimmed (prop k t)).
  { intros k Hin. rewrite prop_cleaned, bool_decide_eq_true_2 by exact Hin.
    apply trimmed_idem. }
  assert (Hk : forall k, k ∈ cleaned_keys -> k ∈ keys (fields (cleaned t))).
  { intros k Hin. unfold cleaned. cbn [fields]. rewrite !keys_set_prop.
    unfold cleaned_keys in Hin. rewrite !elem_of_cons in Hin.
    destruct Hin as [?|[?|[?|[?|?%elem_of_nil]]]]; tauto. }
  assert (Ha : forall k, k ∈ cleaned_keys ->
                 assoc k (fields (cleaned t)) = trimmed (prop k t)).
  { intros k Hin. rewrite <- prop_assoc, prop_cleaned.
    now rewrite bool_decide_eq_true_2. }
  assert (H4 : forall k, k ∈ cleaned_keys ->
                 set_prop k (trimmed (prop k t)) (fields (cleaned t))
                 = fields (cleaned t)).
  { intros k Hin. apply set_prop_same; auto. }
  assert (Hin : forall k, k ∈ cleaned_keys <->
                  k = "title"%string \/ k = "description"%string
                  \/ k = "name"%string \/ k = "role"%string).
  { intros k. unfold cleaned_keys. rewrite !elem_of_cons, elem_of_nil. tauto. }
  unfold cleaned at 1.
  rewrite (Hp "title"%string), (Hp "description"%string),
    (Hp "name"%string), (Hp "role"%string) by (apply Hin; tauto).
  rewrite (H4 "title"%string) by (apply Hin; tauto).
  rewrite (H4 "description"%string) by (apply Hin; tauto).
  rewrite (H4 "name"%string) by (apply Hin; tauto).
  rewrite (H4 "role"%string) by (apply Hin; tauto).
  unfold cleaned. reflexivity.
Qed.

Lemma valid_shape_object t : valid_shape t = true -> exists fs, t = VObj fs.
Proof.
  unfold valid_shape. intros H. repeat (apply andb_prop in H as [H ?]).
  destruct t; try discriminate. eauto.
Qed.

Lemma valid_shape_cleaned t : valid_shape t = true -> valid_shape (cleaned t) = true.
Proof.
  intros H. pose proof H as [fs ->]%valid_shape_object.
  unfold valid_shape in *. rewrite !prop_cleaned. simpl.
  repeat (apply andb_prop in H as [H ?]).
  cbn [prop get] in *. destruct (assoc "title" fs); try discriminate.
  simpl. repeat (apply andb_true_intro; split); auto.
Qed.

Lemma optionals_ok_cleaned t : optionals_ok (cleaned t) = true.
Proof.
  unfold optionals_ok. rewrite !prop_cleaned. simpl.
  now destruct (prop "description" t), (prop "name" t), (prop "role" t).
Qed.

Lemma clean_inv t v :
  valid_shape t = true -> clean t = Ok v -> v = cleaned t /\ optionals_ok t = true.
Proof.
  intros Hv. pose proof Hv as [fs ->]%valid_shape_object.
  unfold valid_shape in Hv. repeat (apply andb_prop in Hv as [Hv ?]).
  unfold clean, cleaned, optionals_ok. cbn [prop get fields] in *.
  unfold mbind, outcome_bind.
  destruct (assoc "title" fs); try discriminate.
  destruct (assoc "description" fs); simpl; try discriminate;
  destruct (assoc "name" fs); simpl; try discriminate;
  destruct (assoc "role" fs); simpl; try discriminate;
  intros [= <-]; split; reflexivity.
Qed.

Lemma mapO_clean_inv k l :
  Forall (fun t => valid_shape t = true) k ->
  mapO clean k = Ok l -> l = map cleaned k.
Proof.
  intros Hk. revert l. induction Hk as [|t k Ht _ IH]; simpl; intros l.
  - now intros [= <-].
  - unfold mbind, outcome_bind. destruct (clean t) as [v|] eqn:E; [|discriminate].
    destruct (mapO clean k) as [vs|]; [|discriminate].
    intros [= <-]. destruct (clean_inv t v Ht E) as [-> _].
    now rewrite (IH vs).
Qed.

Lemma filter_valid_shape l : Forall (fun t => valid_shape t = true) (List.filter valid_shape l).
Proof.
  apply Forall_forall. intros t Ht. apply list_elem_of_In in Ht.
  now apply filter_In in Ht.
Qed.

Lemma filter_all {A : Type} (f : A -> bool) l :
  Forall (fun t => f t = true) l -> List.filter f l = l.
Proof. induction 1 as [|t l Ht _ IH]; simpl; [reflexivity|]. now rewrite Ht, IH. Qed.

(** X5. What [validateAndCleanTasks] returns is settled: every record of
    it passes the shape validation, its title, description, name and role
    are strings without white space at either end, and validating and
    cleaning the result once more gives the same list. *)
Theorem validateAndCleanTasks_settles tasks l :
  validateAndCleanTasks tasks = Ok l ->
  validateAndCleanTasks (VArr l) = Ok l
  /\ Forall (fun t =>
       valid_shape t = true
       /\ forall k, k ∈ cleaned_keys ->
            exists s, prop k t = VStr s /\ trim s = s) l.
Proof.
  unfold validateAndCleanTasks at 1. destruct tasks as [| | | | |l0|]; try discriminate.
  intros H. pose proof (filter_valid_shape l0) as Hv.
  apply mapO_clean_inv in H; [|exact Hv]. subst l.
  set (k := List.filter valid_shape l0) in *.
  assert (Hvc : Forall (fun t => valid_shape t = true) (map cleaned k)).
  { apply Forall_map. eapply Forall_impl; [exact Hv|]. apply valid_shape_cleaned. }
  split.
  - unfold validateAndCleanTasks. rewrite (filter_all _ _ Hvc).
    rewrite mapO_clean; [|exact Hvc|].
    + f_equal. rewrite map_map. apply map_ext. apply cleaned_idem.
    + apply Forall_map. apply Forall_forall. intros t _. apply optionals_ok_cleaned.
  - apply Forall_map. eapply Forall_impl; [exact Hv|]. intros t Ht. cbv beta.
    split; [now apply valid_shape_cleaned|].
    intros key Hkey. rewrite prop_cleaned, bool_decide_eq_true_2 by exact Hkey.
    destruct (prop key t); simpl; eauto using trim_idem.
Qed.
(** ** [addTask], and what [getTasks] returns after it *)

Lemma same_memo_refl s : same_memo s s.
Proof. reflexivity. Qed.
Lemma same_memo_trans s1 s2 s3 : same_memo s1 s2 -> same_memo s2 s3 -> same_memo s1 s3.
Proof. unfold same_memo. congruence. Qed.

Lemma Date_now_memo : keeps same_memo Date_now.
Proof.
  intros s. unfold Date_now. destruct (Date_now_total s) as [t s'] eqn:E.
  apply tick_fields in E. simpl. apply E.
Qed.
Lemma getItem_memo k : keeps same_memo (getItem k).
Proof. intros s. unfold getItem. now destruct (throws _ _ _). Qed.
Lemma setItem_memo k x : keeps same_memo (setItem k x).
Proof. intros s. unfold setItem. now destruct (throws _ _ _). Qed.
Lemma removeItem_memo k : keeps same_memo (removeItem k).
Proof. intros s. unfold removeItem. now destruct (throws _ _ _). Qed.
Lemma alloc_memo l : keeps same_memo (alloc l).
Proof. now intros s. Qed.

Ltac frame_memo :=
  repeat first [ frame_step same_memo_refl same_memo_trans
               | apply Date_now_memo | apply getItem_memo | apply setItem_memo
               | apply removeItem_memo | apply alloc_memo ].

Lemma updateCache_memo a : keeps same_memo (updateCache a).
Proof. unfold updateCache. frame_memo. Qed.

Lemma saveTasksImmediate_memo a s : memo (saveTasksImmediate a s) = memo s.
Proof.
  unfold saveTasksImmediate. destruct (negb _); [reflexivity|].
  apply (keeps_try_catch _ same_memo_trans).
  - frame_memo.
  - apply (keeps_ret _ same_memo_refl).
Qed.

Lemma JSMap_get_set {V : Type} k (v : V) m : JSMap.get k (JSMap.set k v m) = Some v.
Proof.
  induction m as [|[k' v'] m IH]; simpl.
  - now rewrite String.eqb_refl.
  - destruct (String.eqb k k') eqn:E; simpl; [now rewrite String.eqb_refl|].
    now rewrite E.
Qed.

Lemma JSMap_get_set_ne {V : Type} k k' (v : V) m :
  k <> k' -> JSMap.get k (JSMap.set k' v m) = JSMap.get k m.
Proof.
  intros Hne. induction m as [|[k0 v0] m IH]; simpl.
  - apply String.eqb_neq in Hne. now rewrite Hne.
  - destruct (String.eqb k' k0) eqn:E; simpl.
    + apply String.eqb_eq in E. subst k0. apply String.eqb_neq in Hne.
      now rewrite Hne.
    + destruct (String.eqb k k0); [reflexivity | exact IH].
Qed.

(** After a call, the wrapper [memoize] of [getTasks] holds the array
    that the call returned. *)
Lemma getTasks_memo s a s' :
  getTasks s = (a, s') ->
  exists tm, JSMap.get "[]" (memo s')
             = Some {| value_of := a; timestamp := tm |}.
Proof.
  destruct (getTasks_cases s) as (now & s1 & Ht & [(e & He & Hf)|Hm]).
  - rewrite (getTasks_hit _ _ _ _ Ht He Hf). intros [= <- <-]. simpl.
    exists (timestamp e). rewrite He. now destruct e.
  - rewrite (getTasks_miss _ _ _ Hm). intros [= <- <-]. simpl.
    exists now. apply JSMap_get_set.
Qed.

Lemma random_suffix_fields s r s' :
  random_suffix s = (r, s') ->
  heap s' = heap s /\ memo s' = memo s
  /\ primary (world s') = primary (world s)
  /\ window (world s') = window (world s)
  /\ faults (world s') = faults (world s).
Proof.
  unfold random_suffix. destruct (randoms (world s)); intros [= <- <-]; now repeat split.
Qed.

Lemma saveTasksImmediate_world a s :
  window (world (saveTasksImmediate a s)) = window (world s)
  /\ faults (world (saveTasksImmediate a s)) = faults (world s).
Proof.
  unfold saveTasksImmediate. destruct (negb _); [now split|].
  assert (H : keeps (fun s s' => window (world s') = window (world s)
                                 /\ faults (world s') = faults (world s))
                (try_catch
                   (l ← read a;
                    setItem TASKS_KEY (JSON_stringify (VArr l));;
                    updateCache a;; clearSearchCache)
                   (mret tt))).
  { assert (Hr : forall s0 : Service,
              window (world s0) = window (world s0)
              /\ faults (world s0) = faults (world s0)) by now split.
    assert (Ht : forall s1 s2 s3 : Service,
              window (world s2) = window (world s1)
              /\ faults (world s2) = faults (world s1) ->
              window (world s3) = window (world s2)
              /\ faults (world s3) = faults (world s2) ->
              window (world s3) = window (world s1)
              /\ faults (world s3) = faults (world s1))
      by (intros ? ? ? [? ?] [? ?]; split; congruence).
    unfold updateCache.
    repeat first
      [ frame_step Hr Ht
      | (intros s0; unfold Date_now; destruct (Date_now_total s0) as [t s0'] eqn:E;
         apply tick_fields in E; simpl; tauto)
      | (intros s0; unfold setItem; destruct (throws _ _ _); now split) ]. }
  apply (H s).
Qed.

Lemma saveTasksImmediate_window a s :
  window (world (saveTasksImmediate a s)) = window (world s).
Proof. apply saveTasksImmediate_world. Qed.

Lemma saveTasksImmediate_faults a s :
  faults (world (saveTasksImmediate a s)) = faults (world s).
Proof. apply saveTasksImmediate_world. Qed.

Section Adding.
Context (host : Host).

(** The state that [addTask] ends in. *)
Lemma addTask_state taskData s now s1 stamp s2 suffix s3 a s4 l :
  Date_now_total s = (now, s1) ->
  Date_now_total s1 = (stamp, s2) ->
  random_suffix s2 = (Ok suffix, s3) ->
  getTasks s3 = (a, s4) ->
  heap s4 !! a = Some l ->
  let task :=
    VObj [("id", VStr (of_Z stamp ++ "-" ++ suffix));
          ("title", VStr (trim (title taskData)));
          ("description", VStr (default EmptyString (trim <$> description taskData)));
          ("name", VStr (default EmptyString (trim <$> name taskData)));
          ("role", VStr (default EmptyString (trim <$> role taskData)));
          ("isCompleted", VBool false);
          ("createdAt", VStr (JSDate.toISOString now));
          ("updatedAt", VStr (JSDate.toISOString now));
          ("dateAdded", VStr (dateUtils.formatDateForSearch host (OfDate (Some now))));
          ("dayAdded", VStr (dateUtils.getDayName host (OfDate (Some now))))]%string in
  addTask host taskData s
  = (Ok task,
     saveTasksImmediate (length (heap s4))
       (set_heap (heap s4 ++ [task :: l]) s4)).
Proof.
  intros H1 H2 H3 H4 H5. unfold addTask. jsm_unfold.
  rewrite H1. simpl. rewrite H2. simpl. rewrite H3. simpl. rewrite H4. simpl.
  rewrite H5. reflexivity.
Qed.

Lemma default_trim_idem (o : option string) :
  trim (default EmptyString (trim <$> o)) = default EmptyString (trim <$> o).
Proof. destruct o; simpl; [apply trim_idem | reflexivity]. Qed.

(** What [addTask] leaves: the heap with the new array at its end, the
    wrapper [memoize] as the read of the collection left it, and the new
    list as the primary record when the write goes through. *)
Lemma addTask_effect taskData s now s1 stamp s2 suffix s3 a s4 l :
  Date_now_total s = (now, s1) ->
  Date_now_total s1 = (stamp, s2) ->
  random_suffix s2 = (Ok suffix, s3) ->
  getTasks s3 = (a, s4) ->
  heap s4 !! a = Some l ->
  exists task s',
    addTask host taskData s = (Ok task, s')
    /\ prop "id" task = VStr (of_Z stamp ++ "-" ++ suffix)
    /\ is_stored_Task task = true
    /\ valid_shape task = true
    /\ clean task = Ok task
    /\ heap s' = heap s4 ++ [task :: l]
    /\ memo s' = memo s4
    /\ window (world s') = window (world s)
    /\ faults (world s') = faults (world s)
    /\ (window (world s) = true ->
        throws OpSet TASKS_KEY (world s) = false ->
        primary (world s') = Some (JSON_stringify (VArr (task :: l)))).
Proof.
  intros H1 H2 H3 H4 H5.
  rewrite (addTask_state taskData s now s1 stamp s2 suffix s3 a s4 l) by assumption.
  eexists _, _. split; [reflexivity|].
  split; [reflexivity|]. split; [reflexivity|]. split; [reflexivity|].
  split.
  { unfold clean. cbn. rewrite trim_idem, !default_trim_idem. reflexivity. }
  rewrite saveTasksImmediate_heap, saveTasksImmediate_memo,
    saveTasksImmediate_window, saveTasksImmediate_faults.
  cbn [heap set_heap memo world].
  split; [reflexivity|]. split; [reflexivity|].
  destruct (tick_fields _ _ _ H1) as (_&_&_&_&_&_&_&Hw1&Hf1).
  destruct (tick_fields _ _ _ H2) as (_&_&_&_&_&_&_&Hw2&Hf2).
  destruct (random_suffix_fields _ _ _ H3) as (_&_&_&Hw3&Hf3).
  pose proof (getTasks_primary s3) as (_ & Hw4 & Hf4). rewrite H4 in Hw4, Hf4.
  simpl in Hw4, Hf4.
  split; [congruence|]. split; [congruence|].
  intros Hw Hf.
  apply saveTasksImmediate_primary.
  - simpl. congruence.
  - unfold throws in *. simpl. rewrite Hf4, Hf3, Hf2, Hf1. exact Hf.
  - simpl. rewrite lookup_app_r by lia. now rewrite Nat.sub_diag.
Qed.

(** X6. [addTask] returns a task that is a stored task and that the
    validation and cleaning of a later read keeps as it is. It leaves the
    array of the collection untouched and builds a new array with the
    task in front; when the page has a window and the storage takes the
    write, the primary record is that new list. *)
Theorem addTask_prepends_and_persists taskData s now s1 stamp s2 suffix s3 a s4 l :
  Date_now_total s = (now, s1) ->
  Date_now_total s1 = (stamp, s2) ->
  random_suffix s2 = (Ok suffix, s3) ->
  getTasks s3 = (a, s4) ->
  heap s4 !! a = Some l ->
  exists task s',
    addTask host taskData s = (Ok task, s')
    /\ prop "id" task = VStr (of_Z stamp ++ "-" ++ suffix)
    /\ is_stored_Task task = true
    /\ valid_shape task = true
    /\ clean task = Ok task
    /\ heap s' !! a = Some l
    /\ heap s' !! length (heap s4) = Some (task :: l)
    /\ (window (world s) = true ->
        throws OpSet TASKS_KEY (world s) = false ->
        primary (world s') = Some (JSON_stringify (VArr (task :: l)))).
Proof.
  intros H1 H2 H3 H4 H5.
  destruct (addTask_effect taskData s now s1 stamp s2 suffix s3 a s4 l)
    as (task & s' & Hadd & Hid & Hst & Hv & Hc & Hheap & _ & _ & _ & Hprim); auto.
  exists task, s'. repeat (split; [assumption|]). rewrite Hheap.
  split.
  { rewrite lookup_app_l; [exact H5|]. now apply lookup_lt_Some in H5. }
  split; [|exact Hprim].
  rewrite lookup_app_r by lia. now rewrite Nat.sub_diag.
Qed.

(** X7. After [addTask], while the result that [memoize] holds for
    [getTasks] is younger than ten minutes, [getTasks] returns the array
    of the collection as it was before the call, without the new task:
    [addTask] builds a new array and does not clear the wrapper. The
    primary record, when the write went through, holds the new task in
    front of that list. *)
Theorem getTasks_after_addTask taskData s now s1 stamp s2 suffix s3 a s4 l :
  Date_now_total s = (now, s1) ->
  Date_now_total s1 = (stamp, s2) ->
  random_suffix s2 = (Ok suffix, s3) ->
  getTasks s3 = (a, s4) ->
  heap s4 !! a = Some l ->
  window (world s) = true ->
  throws OpSet TASKS_KEY (world s) = false ->
  exists task s' tm,
    addTask host taskData s = (Ok task, s')
    /\ primary (world s') = Some (JSON_stringify (VArr (task :: l)))
    /\ JSMap.get "[]" (memo s') = Some {| value_of := a; timestamp := tm |}
    /\ forall t s5,
         Date_now_total s' = (t, s5) ->
         t - tm < CACHE_EXPIRY ->
         exists s6,
           getTasks s' = (a, s6)
           /\ heap s6 !! a = Some l
           /\ primary (world s6) = Some (JSON_stringify (VArr (task :: l))).
Proof.
  intros H1 H2 H3 H4 H5 Hw Hf.
  destruct (addTask_effect taskData s now s1 stamp s2 suffix s3 a s4 l)
    as (task & s' & Hadd & _ & _ & _ & _ & Hheap & Hmemo & _ & _ & Hprim); auto.
  specialize (Hprim Hw Hf).
  destruct (getTasks_memo _ _ _ H4) as [tm Htm].
  exists task, s', tm. split; [exact Hadd|]. split; [exact Hprim|].
  rewrite Hmemo. split; [exact Htm|].
  intros t s5 Ht Hy.
  assert (Hget : JSMap.get "[]" (memo s') = Some {| value_of := a; timestamp := tm |})
    by now rewrite Hmemo.
  rewrite (getTasks_hit _ _ _ _ Ht Hget Hy). simpl.
  destruct (tick_fields _ _ _ Ht) as (Hh&_&_&_&_&Hp&_).
  eexists. split; [reflexivity|]. simpl. rewrite Hh, Hp, Hheap.
  split; [|exact Hprim].
  rewrite lookup_app_l; [exact H5|]. now apply lookup_lt_Some in H5.
Qed.

(** X8. Two calls of [addTask] in a row, the second while the result
    that [memoize] holds for [getTasks] is younger than ten minutes: the
    second call reads the array of the collection as it was before the
    first, so that the primary record it writes holds the second task in
    front of that list, without the first task. *)
Theorem second_addTask_overwrites_the_first
  taskData taskData' s now s1 stamp s2 suffix s3 a s4 l :
  Date_now_total s = (now, s1) ->
  Date_now_total s1 = (stamp, s2) ->
  random_suffix s2 = (Ok suffix, s3) ->
  getTasks s3 = (a, s4) ->
  heap s4 !! a = Some l ->
  window (world s) = true ->
  throws OpSet TASKS_KEY (world s) = false ->
  exists task s' tm,
    addTask host taskData s = (Ok task, s')
    /\ primary (world s') = Some (JSON_stringify (VArr (task :: l)))
    /\ JSMap.get "[]" (memo s') = Some {| value_of := a; timestamp := tm |}
    /\ forall now' s1' stamp' s2' suffix' s3' t s4',
         Date_now_total s' = (now', s1') ->
         Date_now_total s1' = (stamp', s2') ->
         random_suffix s2' = (Ok suffix', s3') ->
         Date_now_total s3' = (t, s4') ->
         t - tm < CACHE_EXPIRY ->
         exists task' s'',
           addTask host taskData' s' = (Ok task', s'')
           /\ prop "id" task' = VStr (of_Z stamp' ++ "-" ++ suffix')
           /\ primary (world s'') = Some (JSON_stringify (VArr (task' :: l))).
Proof.
  intros H1 H2 H3 H4 H5 Hw Hf.
  destruct (addTask_effect taskData s now s1 stamp s2 suffix s3 a s4 l)
    as (task & s' & Hadd & _ & _ & _ & _ & Hheap & Hmemo & Hwin & Hflt & Hprim); auto.
  specialize (Hprim Hw Hf).
  destruct (getTasks_memo _ _ _ H4) as [tm Htm].
  exists task, s', tm. split; [exact Hadd|]. split; [exact Hprim|].
  rewrite Hmemo. split; [exact Htm|].
  intros now' s1' stamp' s2' suffix' s3' t s4' G1 G2 G3 G4 Hy.
  destruct (tick_fields _ _ _ G1) as (Hh1&Hm1&_).
  destruct (tick_fields _ _ _ G2) as (Hh2&Hm2&_).
  destruct (random_suffix_fields _ _ _ G3) as (Hh3&Hm3&_).
  destruct (tick_fields _ _ _ G4) as (Hh4&_).
  assert (Hget : JSMap.get "[]" (memo s3')
                 = Some {| value_of := a; timestamp := tm |}).
  { rewrite Hm3, Hm2, Hm1, Hmemo. exact Htm. }
  pose proof (getTasks_hit _ _ _ _ G4 Hget Hy) as Hhit. cbn [value_of] in Hhit.
  destruct (addTask_effect taskData' s' now' s1' stamp' s2' suffix' s3' a
              (set_memo (memo s3') s4') l)
    as (task' & s'' & Hadd' & Hid & _ & _ & _ & _ & _ & _ & _ & Hprim'); auto.
  { simpl. rewrite Hh4, Hh3, Hh2, Hh1, Hheap.
    rewrite lookup_app_l; [exact H5|]. now apply lookup_lt_Some in H5. }
  exists task', s''. split; [exact Hadd'|]. split; [exact Hid|].
  apply Hprim'; [congruence|]. unfold throws in *. now rewrite Hflt.
Qed.

End Adding.
(** ** [deleteTask] and [clearAllTasks] *)

(** X9. On a collection that holds a task with the id, [deleteTask]
    returns [true] and takes the first task with the id out of the array
    of the collection, in place: the other tasks keep their order. When
    the page has a window and the storage takes the write, the primary
    record is the list that is left. *)
Theorem deleteTask_removes_in_place taskId s a s1 pre cur post :
  getTasks s = (a, s1) -> heap s1 !! a = Some (pre ++ cur :: post) ->
  all_Tasks (pre ++ cur :: post) ->
  prop "id" cur = VStr taskId ->
  (forall t, t ∈ pre -> prop "id" t <> VStr taskId) ->
  exists s',
    deleteTask taskId s = (Ok true, s')
    /\ heap s' !! a = Some (pre ++ post)
    /\ (window (world s1) = true ->
        throws OpSet TASKS_KEY (world s1) = false ->
        primary (world s') = Some (JSON_stringify (VArr (pre ++ post)))).
Proof.
  intros Hg Hl Hall Hid Hpre.
  rewrite (deleteTask_run _ _ _ _ _ Hg Hl).
  rewrite (findIndex_id_found _ _ _ _ Hall Hpre Hid).
  assert (Hcut : take (length pre) (pre ++ cur :: post)
                 ++ drop (S (length pre)) (pre ++ cur :: post) = pre ++ post).
  { clear. induction pre as [|x pre IH]; simpl; [now rewrite drop_0 | now rewrite IH]. }
  rewrite Hcut. assert (Ha : (a < length (heap s1))%nat) by now apply lookup_lt_Some in Hl.
  eexists. split; [reflexivity|]. split.
  - now apply heap_after_save.
  - intros Hw Hf. apply saveTasksImmediate_primary; auto.
    simpl. now apply list_lookup_insert_eq.
Qed.

Lemma getTasks_inner_caught s :
  window (world s) = true -> cache s = None ->
  throws OpGet CACHE_KEY (world s) = true ->
  getTasks_inner s = alloc_total [] s.
Proof.
  intros Hw Hc Hg. unfold getTasks_inner. rewrite Hw. simpl.
  unfold catch_all, getTasks_try, check_secondary, memory_cache, secondary_cache.
  jsm_unfold. rewrite Hc. simpl. now rewrite Hg.
Qed.

(** X10. With a window and a storage that takes the two removals,
    [clearAllTasks] leaves no item in the storage and no cache in memory,
    and the next [getTasks] returns the empty collection, also when the
    storage then fails to be read. *)
Theorem clearAllTasks_empties s :
  window (world s) = true ->
  throws OpRemove TASKS_KEY (world s) = false ->
  throws OpRemove CACHE_KEY (world s) = false ->
  exists s',
    clearAllTasks s = (Ok tt, s')
    /\ primary (world s') = None /\ secondary (world s') = None
    /\ cache s' = None /\ searchCache s' = [] /\ memo s' = []
    /\ exists a s'', getTasks s' = (a, s'') /\ heap s'' !! a = Some [].
Proof.
  intros Hw Ht Hc. unfold clearAllTasks. rewrite Hw. simpl.
  jsm_unfold. rewrite Ht. simpl. unfold throws in *. simpl. rewrite Hc. simpl.
  eexists. split; [reflexivity|]. simpl. repeat (split; [reflexivity|]).
  match goal with |- context [getTasks ?x] => set (s' := x) end.
  destruct (Date_now_total s') as [now s1] eqn:Hnow.
  destruct (tick_fields _ _ _ Hnow) as (Hh1&Hm1&Hc1&_&_&Hp1&Hs1&Hw1&Hf1).
  assert (Hm : memo_miss s' now s1) by (split; [exact Hnow | exact I]).
  destruct (bool_decide ((OpGet, CACHE_KEY) ∈ faults (world s1))) eqn:Hg.
  - rewrite (getTasks_miss _ _ _ Hm).
    rewrite getTasks_inner_caught;
      [| rewrite Hw1; exact Hw | now rewrite Hc1 | exact Hg].
    simpl. eexists _, _. split; [reflexivity|]. simpl.
    rewrite lookup_app_r by lia. now rewrite Nat.sub_diag.
  - destruct (secondary_cache_declines s1) as (s2 & Hft & Hsp).
    { exact Hg. }
    { unfold throws. rewrite Hf1. exact Hc. }
    { left. now rewrite Hs1. }
    destruct (getTasks_fallback s' now s1 s1 s2) as (a & s'' & Hgt & Hh); auto.
    { rewrite Hw1; exact Hw. }
    { unfold memory_miss. now rewrite Hc1. }
    exists a, s''. split; [exact Hgt|]. rewrite Hh. f_equal.
    apply primary_view_unparsed. left.
    destruct Hsp as (Hp & _). now rewrite Hp, Hp1.
Qed.
(** ** Saving, and reading again on a new page *)

Lemma settled_object t : settled t -> is_object t = true.
Proof. intros (_ & [fs ->]%valid_shape_object & _). reflexivity. Qed.

Lemma toJSON_settled l :
  Forall settled l -> toJSON (VArr l) = VArr l.
Proof.
  intros H. cbn [toJSON]. f_equal. induction H as [|t l Ht _ IH]; [reflexivity|].
  cbn [map]. rewrite IH. f_equal.
  destruct Ht as (Hj & [fs ->]%valid_shape_object & _). exact Hj.
Qed.

Lemma validate_settled l :
  Forall settled l -> validateAndCleanTasks (VArr l) = Ok l.
Proof.
  intros H. unfold validateAndCleanTasks.
  rewrite filter_all by (eapply Forall_impl; [exact H|]; now intros t (_ & ? & _)).
  induction H as [|t l (_ & _ & Hc) _ IH]; [reflexivity|].
  cbn [mapO]. rewrite Hc. unfold mbind, outcome_bind in *. now rewrite IH.
Qed.

(** What a save that the storage takes leaves in the storage and in the
    caches of the service. *)
Lemma saveTasksImmediate_items a s l :
  window (world s) = true ->
  throws OpSet TASKS_KEY (world s) = false ->
  throws OpSet CACHE_KEY (world s) = false ->
  heap s !! a = Some l ->
  Forall (fun t => is_object t = true) l ->
  exists now c s',
    saveTasksImmediate a s = s'
    /\ generateChecksum (VArr l) = Ok c
    /\ primary (world s') = Some (JSON_stringify (VArr l))
    /\ secondary (world s')
       = Some (JSON_stringify
                 (VObj [("data"%string, VArr l); ("timestamp"%string, VNum now);
                        ("checksum"%string, VStr c)]))
    /\ cache s' = Some a /\ cacheTimestamp s' = now /\ searchCache s' = []
    /\ window (world s') = true /\ faults (world s') = faults (world s).
Proof.
  intros Hw Hft Hfc Hl Hobj. destruct (generateChecksum_objects _ Hobj) as [c Hc].
  unfold saveTasksImmediate. rewrite Hw. cbn -[generateChecksum].
  unfold try_catch, mbind, JSM_bind, read, setItem at 1. rewrite Hl, Hft.
  cbn -[generateChecksum].
  set (s1 := set_world _ s).
  unfold updateCache. jsm_unfold. cbn -[generateChecksum].
  destruct (Date_now_total (set_cache (Some a) s1)) as [now s2] eqn:Ht.
  destruct (tick_fields _ _ _ Ht) as (Hh&_&Hca&_&Hsc&Hp&Hs&Hw2&Hf2).
  simpl in Hh, Hca, Hp, Hw2, Hf2. cbn -[generateChecksum]. rewrite Hh, Hl.
  cbn -[generateChecksum]. rewrite Hc. cbn -[generateChecksum].
  unfold throws in *. cbn -[generateChecksum]. rewrite Hf2, Hfc. cbn -[generateChecksum].
  exists now, c. eexists. split; [reflexivity|]. cbn -[generateChecksum].
  repeat split; auto; congruence.
Qed.
Lemma no_fault op k w : faults w = [] -> throws op k w = false.
Proof. unfold throws. now intros ->. Qed.

(** X11. A collection of settled records that [saveTasksImmediate] has
    saved, on a page with a window and a storage without faults, is what
    [getTasks] returns on a page that is loaded afterwards, at whatever
    time: from the secondary cache while its entry is younger than ten
    minutes, from the primary record after that. *)
Theorem saved_tasks_survive_a_reload a s l :
  window (world s) = true ->
  faults (world s) = [] ->
  heap s !! a = Some l ->
  Forall settled l ->
  exists a' s'',
    getTasks (BatchedService.constructor (world (saveTasksImmediate a s))) = (a', s'')
    /\ heap s'' !! a' = Some l.
Proof.
  intros Hw Hf Hl Hset.
  assert (Hobj : Forall (fun t => is_object t = true) l)
    by (eapply Forall_impl; [exact Hset | apply settled_object]).
  destruct (saveTasksImmediate_items a s l) as
    (now & c & s' & -> & Hsum & Hp & Hs & _ & _ & _ & Hw' & Hf'); auto using no_fault.
  rewrite Hf in Hf'.
  unfold JSON_stringify in Hp, Hs. rewrite toJSON_settled in Hp by assumption.
  cbn [toJSON] in Hs.
  change (VArr (map _ l)) with (toJSON (VArr l)) in Hs.
  rewrite toJSON_settled in Hs by assumption.
  set (sr := BatchedService.constructor (world s')).
  destruct (Date_now_total sr) as [t0 s1] eqn:Ht0.
  destruct (tick_fields _ _ _ Ht0) as (Hh1&_&Hc1&_&_&Hp1&Hs1&Hw1&Hf1).
  simpl in Hc1, Hp1, Hs1, Hw1, Hf1.
  assert (Hm : memo_miss sr t0 s1) by (split; [exact Ht0 | exact I]).
  assert (Hmm : memory_miss s1 s1) by (unfold memory_miss; now rewrite Hc1).
  destruct (Date_now_total s1) as [t s1'] eqn:Ht.
  destruct (Z.ltb_spec (t - now) CACHE_EXPIRY) as [Hy|Hold].
  - rewrite (getTasks_miss _ _ _ Hm).
    rewrite (getTasks_inner_adopts s1 s1
               [("data"%string, VArr l); ("timestamp"%string, VNum now);
                ("checksum"%string, VStr c)] l now c t s1'); auto.
    + simpl. eexists _, _. split; [reflexivity|]. simpl.
      rewrite lookup_app_r by lia. now rewrite Nat.sub_diag.
    + congruence.
    + apply no_fault. congruence.
    + rewrite Hs1. exact Hs.
  - destruct (secondary_cache_declines s1) as (s2 & Hft & Hsp).
    { apply no_fault. congruence. }
    { apply no_fault. congruence. }
    { right. right. eexists _, now, t, s1'. split; [rewrite Hs1; exact Hs|].
      split; [reflexivity|]. split; [exact Ht | lia]. }
    destruct (getTasks_fallback sr t0 s1 s1 s2) as (a' & s'' & Hgt & Hh); auto.
    { congruence. }
    exists a', s''. split; [exact Hgt|]. rewrite Hh. f_equal.
    rewrite (same_primary_view _ _ Hsp).
    unfold primary_view. rewrite no_fault by congruence.
    rewrite Hp1, Hp. cbn -[validateAndCleanTasks]. now rewrite validate_settled.
Qed.
(** ** [saveTasksImmediate] and the result cache of [searchTasks] *)

(** X12. The two outcomes of [saveTasksImmediate] on an array of
    objects. With a window and a storage that takes the write of the
    collection, the primary record is the list of the array, the memory
    cache is the array and the result cache of the search is empty.
    Without a window, or when the storage refuses that write, the service
    and the storage stay exactly as they were: the failure is silent. *)
Theorem saveTasksImmediate_outcomes a s l :
  heap s !! a = Some l ->
  Forall (fun t => is_object t = true) l ->
  (window (world s) = true -> throws OpSet TASKS_KEY (world s) = false ->
     primary (world (saveTasksImmediate a s)) = Some (JSON_stringify (VArr l))
     /\ cache (saveTasksImmediate a s) = Some a
     /\ searchCache (saveTasksImmediate a s) = []
     /\ heap (saveTasksImmediate a s) = heap s)
  /\ (window (world s) = false \/ throws OpSet TASKS_KEY (world s) = true ->
      saveTasksImmediate a s = s).
Proof.
  intros Hl Hobj. split.
  - intros Hw Hft. split; [now apply saveTasksImmediate_primary|].
    split; [|split; [|apply saveTasksImmediate_heap]].
    + unfold saveTasksImmediate. rewrite Hw. simpl.
      unfold try_catch, mbind, JSM_bind, read, setItem at 1. rewrite Hl, Hft. simpl.
      set (s1 := set_world _ s).
      destruct (updateCache_returns a s1 l Hl Hobj) as (s2 & E & _).
      unfold updateCache in *. jsm_unfold. simpl in *.
      destruct (Date_now_total (set_cache (Some a) s1)) as [now s3] eqn:Ht.
      destruct (tick_fields _ _ _ Ht) as (Hh&_&Hca&_). simpl in *.
      rewrite Hh, Hl in *. simpl in *.
      destruct (mapO _ l) as [ps|]; simpl in *; [|discriminate].
      destruct (throws OpSet CACHE_KEY (world s3)); simpl; exact Hca.
    + unfold saveTasksImmediate. rewrite Hw. simpl.
      unfold try_catch, mbind, JSM_bind, read, setItem at 1. rewrite Hl, Hft. simpl.
      set (s1 := set_world _ s).
      destruct (updateCache_returns a s1 l Hl Hobj) as (s2 & E & _).
      unfold clearSearchCache, modify. rewrite E. reflexivity.
  - intros [Hw|Hft]; unfold saveTasksImmediate.
    + now rewrite Hw.
    + destruct (negb _); [reflexivity|].
      unfold try_catch, mbind, JSM_bind, read, setItem at 1. now rewrite Hft.
Qed.

(** ** The result cache of [searchTasks] *)

Lemma list_ascii_app (a b : string) :
  list_ascii_of_string (a ++ b) = (list_ascii_of_string a ++ list_ascii_of_string b)%list.
Proof.
  induction a as [|c a IH]; [reflexivity|].
  rewrite append_cons. simpl. now rewrite IH.
Qed.

Lemma list_ascii_inj (a b : string) :
  list_ascii_of_string a = list_ascii_of_string b -> a = b.
Proof.
  intros H. rewrite <- (string_of_list_ascii_of_string a),
    <- (string_of_list_ascii_of_string b). now rewrite H.
Qed.

Lemma flag_suffix_inj (x y : string) (b b' : bool) :
  (x ++ "-" ++ bool_str b)%string = (y ++ "-" ++ bool_str b')%string ->
  x = y /\ b = b'.
Proof.
  intros H. apply (f_equal list_ascii_of_string) in H.
  rewrite !list_ascii_app in H.
  destruct b, b'; simpl in H.
  - apply app_inv_tail in H. now apply list_ascii_inj in H.
  - apply (f_equal (@rev ascii)) in H. rewrite !rev_app_distr in H.
    simpl in H. discriminate.
  - apply (f_equal (@rev ascii)) in H. rewrite !rev_app_distr in H.
    simpl in H. discriminate.
  - apply app_inv_tail in H. now apply list_ascii_inj in H.
Qed.

(** X13. The key of the result cache tells searches apart: two calls of
    [searchTasks] share a key only when they have the same query and the
    same two flags. *)
Theorem searchKey_inj q c p q' c' p' :
  searchKey q c p = searchKey q' c' p' -> q = q' /\ c = c' /\ p = p'.
Proof.
  unfold searchKey. intros H.
  rewrite <- !(append_assoc _ _ ("-" ++ bool_str _)) in H.
  rewrite <- !(append_assoc _ "-" (bool_str _)) in H.
  rewrite !(append_assoc _ "-" (bool_str p)),
    !(append_assoc _ "-" (bool_str p')) in H.
  apply flag_suffix_inj in H as [H ->].
  rewrite !(append_assoc _ "-" (bool_str _)) in H.
  apply flag_suffix_inj in H as [-> ->]. auto.
Qed.
Section Searching.
Context (host : Host).

Lemma searchTasks_hit q c p s r ts t s2 :
  JSMap.get (searchKey q c p) (searchCache s) = Some (r, ts) ->
  Date_now_total s = (t, s2) ->
  t - ts < 30000 ->
  searchTasks host q c p s = (Ok r, s2).
Proof.
  intros Hget Ht Hy. unfold searchTasks. jsm_unfold. rewrite Hget. simpl.
  rewrite Ht. simpl. apply Z.ltb_lt in Hy. now rewrite Hy.
Qed.

(** A call is served from the result cache, or it is not. *)
Lemma search_cases key s :
  (exists r ts t s2,
     JSMap.get key (searchCache s) = Some (r, ts)
     /\ Date_now_total s = (t, s2) /\ t - ts < 30000)
  \/ exists s0, search_miss key s s0.
Proof.
  unfold search_miss. destruct (JSMap.get key (searchCache s)) as [[r ts]|] eqn:E.
  - destruct (Date_now_total s) as [t s2] eqn:Ht.
    destruct (Z.ltb_spec (t - ts) 30000).
    + left. eauto 10.
    + right. eauto 10.
  - right. eauto.
Qed.

Lemma filterO_sublist {A : Type} (f : A -> outcome bool) l kept :
  filterO f l = Ok kept -> kept `sublist_of` l.
Proof.
  revert kept. induction l as [|x l IH]; simpl; intros kept.
  - intros [= <-]. constructor.
  - unfold mbind, outcome_bind. destruct (f x) as [b|]; [|discriminate].
    destruct (filterO f l) as [ys|]; [|discriminate].
    intros [= <-]. destruct b; [apply sublist_skip | apply sublist_cons]; auto.
Qed.

(** What a call that is not served from the result cache leaves there,
    and what it returns. *)
Lemma searchTasks_miss q c p s s0 a s1 r s' :
  search_miss (searchKey q c p) s s0 ->
  getTasks s0 = (a, s1) ->
  searchTasks host q c p s = (Ok r, s') ->
  (exists ts, JSMap.get (searchKey q c p) (searchCache s') = Some (r, ts))
  /\ default [] (heap s' !! r) `sublist_of` default [] (heap s1 !! a).
Proof.
  intros Hmiss Hg. rewrite (searchTasks_run host q c p s s0 a s1 Hmiss Hg).
  destruct (negb (nonempty (trim q)) && c && p).
  - destruct (Date_now_total s1) as [now s2] eqn:Ht. intros [= <- <-]. simpl.
    destruct (tick_fields _ _ _ Ht) as (Hh&_). rewrite Hh.
    split; [eexists; apply JSMap_get_set | reflexivity].
  - destruct (filterO _ _) as [kept|] eqn:Ef; [|discriminate].
    cbv zeta. destruct (Date_now_total _) as [now s3] eqn:Ht. intros [= <- <-].
    simpl. destruct (tick_fields _ _ _ Ht) as (Hh&_). simpl in Hh. rewrite Hh.
    split; [eexists; apply JSMap_get_set|].
    rewrite lookup_app_r by lia. rewrite Nat.sub_diag. simpl.
    eapply filterO_sublist; eauto.
Qed.

(** X14. After a call of [searchTasks] that returned, the same call is
    served from the result cache for the next thirty seconds: it returns
    the same array and does nothing but read the clock. *)
Theorem repeated_search_is_served_from_cache q c p s r s1 :
  searchTasks host q c p s = (Ok r, s1) ->
  exists ts,
    JSMap.get (searchKey q c p) (searchCache s1) = Some (r, ts)
    /\ forall t s2,
         Date_now_total s1 = (t, s2) -> t - ts < 30000 ->
         searchTasks host q c p s1 = (Ok r, s2).
Proof.
  intros Hs.
  assert (He : exists ts, JSMap.get (searchKey q c p) (searchCache s1) = Some (r, ts)).
  { destruct (search_cases (searchKey q c p) s)
      as [(r0 & ts & t & s2 & Hget & Ht & Hy)|[s0 Hmiss]].
    - rewrite (searchTasks_hit _ _ _ _ _ _ _ _ Hget Ht Hy) in Hs.
      injection Hs as <- <-. destruct (tick_fields _ _ _ Ht) as (_&_&_&_&Hsc&_).
      exists ts. now rewrite Hsc.
    - destruct (getTasks s0) as [a s1'] eqn:Hg.
      now destruct (searchTasks_miss _ _ _ _ _ _ _ _ _ Hmiss Hg Hs). }
  destruct He as [ts He]. exists ts. split; [exact He|].
  intros t s2 Ht Hy. now apply (searchTasks_hit _ _ _ _ _ ts t).
Qed.

(** X15. A call of [searchTasks] that is not served from the result
    cache and that returns, returns part of the collection that
    [getTasks] gave it, in the order of the collection: it adds no task
    and moves none. *)
Theorem search_result_is_part_of_the_collection q c p s s0 a s1 l r s' :
  search_miss (searchKey q c p) s s0 ->
  getTasks s0 = (a, s1) -> heap s1 !! a = Some l ->
  searchTasks host q c p s = (Ok r, s') ->
  exists kept, heap s' !! r = Some kept /\ kept `sublist_of` l.
Proof.
  intros Hmiss Hg Hl Hs.
  pose proof (searchTasks_miss _ _ _ _ _ _ _ _ _ Hmiss Hg Hs) as [_ Hsub].
  rewrite Hl in Hsub. simpl in Hsub.
  rewrite (searchTasks_run host q c p s s0 a s1 Hmiss Hg) in Hs.
  destruct (negb (nonempty (trim q)) && c && p).
  - destruct (Date_now_total s1) as [now s2] eqn:Ht. injection Hs as <- <-.
    simpl in *. destruct (tick_fields _ _ _ Ht) as (Hh&_). rewrite Hh, Hl in *.
    eauto.
  - destruct (filterO _ _) as [kept|] eqn:Ef; [|discriminate].
    cbv zeta in Hs. destruct (Date_now_total _) as [now s3] eqn:Ht.
    injection Hs as <- <-. simpl in *.
    destruct (tick_fields _ _ _ Ht) as (Hh&_). simpl in Hh. rewrite Hh in *.
    rewrite lookup_app_r in * by lia. rewrite Nat.sub_diag in *. simpl in *.
    eauto.
Qed.

End Searching.
(** ** Without a window *)

(** X16. Where there is no window (on the server), the service touches
    no storage: a call of [getTasks] that [memoize] does not serve
    returns a new empty array and leaves both items and the memory cache
    as they are, and [saveTasksImmediate] and [clearAllTasks] leave the
    state exactly as it is. *)
Theorem without_a_window_nothing_is_stored s now s1 :
  window (world s) = false ->
  memo_miss s now s1 ->
  (exists s',
     getTasks s = (length (heap s), s')
     /\ heap s' = heap s ++ [[]]
     /\ cache s' = cache s
     /\ primary (world s') = primary (world s)
     /\ secondary (world s') = secondary (world s))
  /\ (forall a, saveTasksImmediate a s = s)
  /\ clearAllTasks s = (Ok tt, s).
Proof.
  intros Hw Hm. split; [|split].
  - pose proof Hm as [Ht _].
    destruct (tick_fields _ _ _ Ht) as (Hh&_&Hc&_&_&Hp&Hs&Hw1&_).
    rewrite (getTasks_miss _ _ _ Hm). unfold getTasks_inner.
    rewrite Hw1, Hw. simpl. rewrite Hh. eexists. split; [reflexivity|].
    simpl. repeat split; congruence.
  - intros a. unfold saveTasksImmediate. now rewrite Hw.
  - unfold clearAllTasks. now rewrite Hw.
Qed.


(* ================================================================== *)
(** * Further properties: timers, batches and debouncing *)
(* ================================================================== *)

(** ** [BatchProcessor] *)

Section BatchFacts.
Context {T W : Type}.
Implicit Types (b : BatchProcessor.t T) (e : Timers.t unit).

Lemma one_timer_queue b e (q : list T) :
  one_timer b e ->
  one_timer {| BatchProcessor.queue := q; BatchProcessor.timeout := BatchProcessor.timeout b |} e.
Proof. exact id. Qed.

Lemma scheduleProcess_one b e :
  one_timer b e ->
  one_timer (BatchProcessor.scheduleProcess b e).1 (BatchProcessor.scheduleProcess b e).2
  /\ BatchProcessor.queue (BatchProcessor.scheduleProcess b e).1 = BatchProcessor.queue b.
Proof.
  unfold BatchProcessor.scheduleProcess, one_timer.
  destruct (BatchProcessor.timeout b) as [id|] eqn:E; simpl; [now rewrite E|].
  intros [H|(id & [=] & _)]. rewrite H. simpl. split; [right; eauto | reflexivity].
Qed.

Lemma scheduleProcess_queue b e :
  BatchProcessor.queue (BatchProcessor.scheduleProcess b e).1 = BatchProcessor.queue b.
Proof.
  unfold BatchProcessor.scheduleProcess. now destruct (BatchProcessor.timeout b).
Qed.

Lemma cancel_one b e :
  one_timer b e ->
  Timers.pending (BatchProcessor.cancel b e).2 = []
  /\ BatchProcessor.timeout (BatchProcessor.cancel b e).1 = None
  /\ BatchProcessor.queue (BatchProcessor.cancel b e).1 = BatchProcessor.queue b.
Proof.
  unfold BatchProcessor.cancel, one_timer.
  destruct (BatchProcessor.timeout b) as [id|] eqn:E; simpl.
  - intros [H|(id' & [= <-] & H)]; rewrite H; simpl; [auto|].
    rewrite Nat.eqb_refl. auto.
  - intros [H|(id' & [=] & _)]. auto.
Qed.

Lemma expire_one b e id c e' :
  one_timer b e -> Timers.expire id e = Some (c, e') ->
  BatchProcessor.timeout b = Some id /\ Timers.pending e' = [].
Proof.
  unfold one_timer, Timers.expire. intros [H|(id' & Ht & H)]; rewrite H; simpl.
  - discriminate.
  - destruct (id' =? id)%nat eqn:E; [|discriminate]. intros [= _ <-].
    simpl. rewrite H. simpl. rewrite E. apply Nat.eqb_eq in E. now subst.
Qed.

End BatchFacts.
Section BatchRuns.
Context {T W : Type}.
Variable processor : list T -> W -> outcome unit * W.
Variable batchSize : Z.
Implicit Types (b : BatchProcessor.t T) (e : Timers.t unit).

Lemma process_one b e w :
  Timers.pending e = [] ->
  let '(r, b', e', w') := BatchProcessor.process processor batchSize b e w in
  (BatchProcessor.timeout b <> None -> Timers.pending e' = []
                                       /\ BatchProcessor.timeout b' = BatchProcessor.timeout b)
  /\ one_timer b' e'.
Proof.
  intros He. unfold BatchProcessor.process.
  destruct (BatchProcessor.queue b) as [|x q] eqn:Eq.
  { split; [auto | now left]. }
  destruct (processor _ w) as [[[]|] w']; cbn [BatchProcessor.queue].
  2:{ split; [auto | now left]. }
  destruct (drop _ _) as [|y q'] eqn:Ed.
  { split; [auto | now left]. }
  unfold BatchProcessor.scheduleProcess. cbn [BatchProcessor.timeout].
  destruct (BatchProcessor.timeout b) as [id|] eqn:Et; simpl.
  - split; [auto | now left].
  - split; [congruence|]. right. rewrite He. simpl. eauto.
Qed.

(** The callback of a timer that [this.timeout] names. *)
Lemma later_one b e w id :
  Timers.pending e = [] -> BatchProcessor.timeout b = Some id ->
  let '(r, b', e', w') := BatchProcessor.later processor batchSize b e w in
  Timers.pending e' = []
  /\ (r = Ok tt -> BatchProcessor.timeout b' = None).
Proof.
  intros He Ht. unfold BatchProcessor.later.
  pose proof (process_one b e w He) as H.
  destruct (BatchProcessor.process processor batchSize b e w) as [[[[[]|] b'] e'] w'].
  - destruct H as [H _]. destruct H as [H _]; [congruence|]. auto.
  - destruct H as [H _]. destruct H as [H _]; [congruence|]. split; [auto|discriminate].
Qed.

Lemma step_one b e w ev :
  one_timer b e ->
  let '(b', e', w') := BatchProcessor.step processor batchSize (b, e, w) ev in
  one_timer b' e'.
Proof.
  intros H. destruct ev as [x|l| | |id]; cbn [BatchProcessor.step].
  - unfold BatchProcessor.add.
    match goal with |- context [BatchProcessor.scheduleProcess ?b0 e] =>
      pose proof (scheduleProcess_one b0 e (one_timer_queue b e _ H)) as [H1 _];
      destruct (BatchProcessor.scheduleProcess b0 e) end. exact H1.
  - unfold BatchProcessor.addMany.
    match goal with |- context [BatchProcessor.scheduleProcess ?b0 e] =>
      pose proof (scheduleProcess_one b0 e (one_timer_queue b e _ H)) as [H1 _];
      destruct (BatchProcessor.scheduleProcess b0 e) end. exact H1.
  - unfold BatchProcessor.flush. pose proof (cancel_one b e H) as (H1 & H2 & H3).
    destruct (BatchProcessor.cancel b e) as [b1 e1]. simpl in *.
    destruct (BatchProcessor.queue b1); [now left|].
    destruct (processor _ w) as [[[]|] w']; now left.
  - unfold BatchProcessor.clear. pose proof (cancel_one b e H) as (H1 & H2 & H3).
    destruct (BatchProcessor.cancel b e) as [b1 e1]. simpl in *. now left.
  - destruct (Timers.expire id e) as [[[] e1]|] eqn:Ex; [|exact H].
    destruct (expire_one b e id _ _ H Ex) as [Ht He1].
    pose proof (later_one b e1 w id He1 Ht) as Hl.
    destruct (BatchProcessor.later processor batchSize b e1 w) as [[[r b'] e'] w'].
    left. apply Hl.
Qed.

Lemma run_one evs b e w :
  one_timer b e ->
  let '(b', e', w') := BatchProcessor.run processor batchSize evs (b, e, w) in
  one_timer b' e'.
Proof.
  revert b e w. induction evs as [|ev evs IH]; intros b e w H; [exact H|].
  cbn [BatchProcessor.run fold_left].
  pose proof (step_one b e w ev H) as Hs.
  destruct (BatchProcessor.step processor batchSize (b, e, w) ev) as [[b1 e1] w1].
  apply (IH b1 e1 w1 Hs).
Qed.

(** X17. With a processor that returns or throws without calling the
    batch processor that runs it, and through any additions, flushes,
    clearings and expiring timers from a new batch processor, at most
    one of its timers is pending, and it is the one that [this.timeout]
    names. *)
Theorem at_most_one_timer evs w :
  let '(b, e, _) :=
    BatchProcessor.run processor batchSize evs
      (BatchProcessor.new, Timers.empty, w) in
  one_timer b e.
Proof.
  apply (run_one evs BatchProcessor.new Timers.empty w). now left.
Qed.

(** X18. When the timer of a batch processor expires, its callback hands
    the first [batchSize] items of the queue to the processor and leaves
    the others in the queue; when it returns, no timer is pending and
    [this.timeout] is null: the items that are left wait for the next
    [add] or [flush]. *)
Theorem leftover_waits_for_add_or_flush evs w0 b e w id c e1 r b' e' w' :
  BatchProcessor.run processor batchSize evs
    (BatchProcessor.new, Timers.empty, w0) = (b, e, w) ->
  Timers.expire id e = Some (c, e1) ->
  BatchProcessor.later processor batchSize b e1 w = (r, b', e', w') ->
  BatchProcessor.queue b' = drop (Z.to_nat batchSize) (BatchProcessor.queue b)
  /\ (BatchProcessor.queue b <> [] ->
      (processor (take (Z.to_nat batchSize) (BatchProcessor.queue b)) w).2 = w')
  /\ Timers.pending e' = []
  /\ (r = Ok tt -> BatchProcessor.timeout b' = None).
Proof.
  intros Hrun Hex Hl.
  pose proof (run_one evs BatchProcessor.new Timers.empty w0) as H1.
  rewrite Hrun in H1. specialize (H1 ltac:(now left)).
  destruct (expire_one b e id _ _ H1 Hex) as [Ht He1].
  unfold BatchProcessor.later, BatchProcessor.process in Hl.
  destruct (BatchProcessor.queue b) as [|x q] eqn:Eq.
  { injection Hl as <- <- <- <-. simpl. rewrite Eq, drop_nil.
    repeat split; auto. now intros []. }
  destruct (processor _ w) as [[[]|] w1] eqn:Ep; cbn [BatchProcessor.queue] in Hl.
  - destruct (drop _ _) as [|y q'] eqn:Ed.
    + injection Hl as <- <- <- <-. simpl. auto.
    + unfold BatchProcessor.scheduleProcess in Hl. cbn [BatchProcessor.timeout] in Hl.
      rewrite Ht in Hl. injection Hl as <- <- <- <-. simpl. auto.
  - injection Hl as <- <- <- <-. simpl. repeat split; auto. discriminate.
Qed.

Lemma observed_step (f : list T -> W -> outcome unit * W)
  (b : BatchProcessor.t T) e (log : list T) w (handed : list T) ev :
  is_Clear ev = false ->
  handed `sublist_of` log ->
  let '(b', e', (log', w')) :=
    BatchProcessor.step (observed f) batchSize (b, e, (log, w)) ev in
  (exists handed',
     (handed' ++ BatchProcessor.queue b'
      = (handed ++ BatchProcessor.queue b) ++ added [ev])%list
     /\ handed' `sublist_of` log')
  /\ ((forall batch w0, (f batch w0).1 = Ok tt) ->
      (log' ++ BatchProcessor.queue b'
       = (log ++ BatchProcessor.queue b) ++ added [ev])%list).
Proof.
  intros Hc Hh. unfold added. cbn [map concat]. rewrite app_nil_r.
  destruct ev as [x|l| | |id]; try discriminate; cbn [BatchProcessor.step].
  - unfold BatchProcessor.add.
    match goal with |- context [BatchProcessor.scheduleProcess ?b0 e] =>
      pose proof (scheduleProcess_queue b0 e) as H1;
      destruct (BatchProcessor.scheduleProcess b0 e) end.
    simpl in H1. rewrite H1. split.
    + exists handed. now rewrite app_assoc.
    + intros _. now rewrite app_assoc.
  - unfold BatchProcessor.addMany.
    match goal with |- context [BatchProcessor.scheduleProcess ?b0 e] =>
      pose proof (scheduleProcess_queue b0 e) as H1;
      destruct (BatchProcessor.scheduleProcess b0 e) end.
    simpl in H1. rewrite H1. split.
    + exists handed. now rewrite app_assoc.
    + intros _. now rewrite app_assoc.
  - unfold BatchProcessor.flush.
    assert (Hq : BatchProcessor.queue (BatchProcessor.cancel b e).1
                 = BatchProcessor.queue b).
    { unfold BatchProcessor.cancel. now destruct (BatchProcessor.timeout b). }
    destruct (BatchProcessor.cancel b e) as [b1 e1]. simpl in Hq. rewrite Hq.
    destruct (BatchProcessor.queue b) as [|x q] eqn:Eq.
    { rewrite Hq, !app_nil_r. split; [exists handed; split; [now rewrite ?app_nil_r | exact Hh] | reflexivity]. }
    unfold observed at 1. cbn [fst snd].
    destruct (f (x :: q) w) as [r w1] eqn:Ef.
    destruct r as [[]|]; cbn [BatchProcessor.queue]; rewrite ?Hq, !app_nil_r.
    + split; [|reflexivity]. exists (handed ++ x :: q)%list.
      split; [now rewrite app_nil_r|]. now apply sublist_app.
    + split.
      * exists handed. split; [reflexivity|]. now apply sublist_inserts_r.
      * intros Hf. specialize (Hf (x :: q) w). rewrite Ef in Hf. discriminate.
  - destruct (Timers.expire id e) as [[[] e1]|].
    2:{ rewrite !app_nil_r. split; [exists handed; split; [now rewrite ?app_nil_r | exact Hh] | reflexivity]. }
    unfold BatchProcessor.later, BatchProcessor.process.
    destruct (BatchProcessor.queue b) as [|x q] eqn:Eq.
    { simpl. rewrite Eq, !app_nil_r. split; [exists handed; split; [now rewrite ?app_nil_r | exact Hh] | reflexivity]. }
    unfold observed at 1. cbn [fst snd].
    set (n := Z.to_nat batchSize).
    destruct (f (take n (x :: q)) w) as [r w1] eqn:Ef.
    assert (Hcut : forall pre : list T,
              ((pre ++ take n (x :: q)) ++ drop n (x :: q)
               = (pre ++ x :: q) ++ [])%list).
    { intros pre. now rewrite app_nil_r, <- app_assoc, take_drop. }
    remember (drop n (x :: q)) as rest eqn:Ed.
    destruct r as [[]|]; cbn [BatchProcessor.queue].
    + destruct rest as [|y q'].
      * cbn [BatchProcessor.queue]. split; [|intros _; apply Hcut].
        exists (handed ++ take n (x :: q))%list.
        split; [apply Hcut | now apply sublist_app].
      * match goal with |- context [BatchProcessor.scheduleProcess ?b0 e1] =>
          pose proof (scheduleProcess_queue b0 e1) as H1;
          destruct (BatchProcessor.scheduleProcess b0 e1) end.
        cbn [BatchProcessor.queue fst] in *. rewrite H1.
        split; [|intros _; apply Hcut].
        exists (handed ++ take n (x :: q))%list.
        split; [apply Hcut | now apply sublist_app].
    + split.
      * exists (handed ++ take n (x :: q))%list.
        split; [apply Hcut | now apply sublist_app].
      * intros Hf. specialize (Hf (take n (x :: q)) w). rewrite Ef in Hf. discriminate.
Qed.

(** X19. A batch processor whose processor does not call it and whose
    events are additions, flushes and expiring timers loses no item and
    keeps their order, whether the processor returns or throws: the items
    added so far are items that the processor has been handed, in the
    order in which it was handed them, followed by the queue. With a
    processor that never throws no item is handed twice: what it has
    been handed, followed by the queue, is the list of the items added. *)
Theorem batches_lose_no_item (f : list T -> W -> outcome unit * W)
  (evs : list (BatchProcessor.event T)) w :
  forallb (fun ev => negb (is_Clear ev)) evs = true ->
  let '(b, _, (log, _)) :=
    BatchProcessor.run (observed f) batchSize evs
      (BatchProcessor.new, Timers.empty, ([], w)) in
  (exists handed,
     (handed ++ BatchProcessor.queue b)%list = added evs
     /\ handed `sublist_of` log)
  /\ ((forall batch w0, (f batch w0).1 = Ok tt) ->
      (log ++ BatchProcessor.queue b)%list = added evs).
Proof.
  intros Hc.
  assert (G : forall b e (log : list T) w (handed : list T),
    handed `sublist_of` log ->
    let '(b', _, (log', _)) :=
      BatchProcessor.run (observed f) batchSize evs (b, e, (log, w)) in
    (exists handed',
       (handed' ++ BatchProcessor.queue b'
        = (handed ++ BatchProcessor.queue b) ++ added evs)%list
       /\ handed' `sublist_of` log')
    /\ ((forall batch w0, (f batch w0).1 = Ok tt) ->
        (log' ++ BatchProcessor.queue b'
         = (log ++ BatchProcessor.queue b) ++ added evs)%list)).
  { clear w. induction evs as [|ev evs IH]; intros b e log w handed Hh.
    - simpl. rewrite !app_nil_r. split; [now exists handed | reflexivity].
    - cbn [forallb] in Hc. apply andb_prop in Hc as [Hev Hc].
      apply negb_true_iff in Hev.
      cbn [BatchProcessor.run fold_left].
      pose proof (observed_step f b e log w handed ev Hev Hh) as Hs.
      destruct (BatchProcessor.step (observed f) batchSize (b, e, (log, w)) ev)
        as [[b1 e1] [log1 w1]].
      destruct Hs as [(handed1 & Hs1 & Hh1) Hs2].
      specialize (IH Hc b1 e1 log1 w1 handed1 Hh1).
      fold (BatchProcessor.run (observed f) batchSize evs (b1, e1, (log1, w1))).
      destruct (BatchProcessor.run (observed f) batchSize evs (b1, e1, (log1, w1)))
        as [[b2 e2] [log2 w2]].
      destruct IH as [(handed2 & IH1 & Hh2) IH2].
      assert (Ha : added (ev :: evs) = (added [ev] ++ added evs)%list).
      { unfold added. cbn [map concat]. now rewrite app_nil_r. }
      rewrite Ha. split.
      + exists handed2. split; [|exact Hh2]. now rewrite IH1, Hs1, <- !app_assoc.
      + intros Hf. now rewrite (IH2 Hf), (Hs2 Hf), <- !app_assoc. }
  apply (G BatchProcessor.new Timers.empty [] w []). constructor.
Qed.

End BatchRuns.
(** ** [saveTasks] and [cleanup] *)

Lemma save_op_saves a s :
  window (world s) = true ->
  BatchedService.save_op a s = (Ok tt, saveTasksImmediate a s).
Proof.
  intros Hw. unfold saveTasksImmediate, BatchedService.save_op. rewrite Hw. simpl.
  unfold try_catch.
  match goal with |- (match ?m with _ => _ end) = _ => destruct m as [[[]|] s'] end;
    reflexivity.
Qed.

(** The processor of the service performs the saves in order, each as
    [saveTasksImmediate] does, and returns. *)
Lemma processor_saves ops s :
  window (world s) = true ->
  BatchedService.processor ops s
  = (Ok tt, fold_left (fun s a => saveTasksImmediate a s) ops s).
Proof.
  revert s. induction ops as [|a ops IH]; intros s Hw; [reflexivity|].
  cbn [BatchedService.processor fold_left]. unfold mbind, JSM_bind.
  rewrite (save_op_saves a s Hw). apply IH.
  now rewrite saveTasksImmediate_window.
Qed.

Lemma saveTasks_armed a b id :
  window (world (BatchedService.service b)) = true ->
  BatchProcessor.timeout (BatchedService.batchProcessor b) = Some id ->
  BatchedService.saveTasks a b
  = {| BatchedService.service := BatchedService.service b;
       BatchedService.batchProcessor :=
         {| BatchProcessor.queue :=
              BatchProcessor.queue (BatchedService.batchProcessor b) ++ [a];
            BatchProcessor.timeout := Some id |};
       BatchedService.timers := BatchedService.timers b |}.
Proof.
  intros Hw Ht. unfold BatchedService.saveTasks, BatchProcessor.add,
    BatchProcessor.scheduleProcess. rewrite Hw. simpl. now rewrite Ht.
Qed.

Lemma saveTasks_many arrays b id :
  window (world (BatchedService.service b)) = true ->
  BatchProcessor.timeout (BatchedService.batchProcessor b) = Some id ->
  fold_left (fun b a => BatchedService.saveTasks a b) arrays b
  = {| BatchedService.service := BatchedService.service b;
       BatchedService.batchProcessor :=
         {| BatchProcessor.queue :=
              BatchProcessor.queue (BatchedService.batchProcessor b) ++ arrays;
            BatchProcessor.timeout := Some id |};
       BatchedService.timers := BatchedService.timers b |}.
Proof.
  revert b. induction arrays as [|a arrays IH]; intros b Hw Ht.
  - simpl. rewrite app_nil_r. destruct b as [s [q t] e]. simpl in *. now subst.
  - cbn [fold_left]. rewrite (saveTasks_armed a b id Hw Ht).
    rewrite IH by (simpl; auto). simpl. now rewrite <- app_assoc.
Qed.

Lemma find_last (l : list (nat * unit)) id :
  exists c, List.find (fun p : nat * unit => (p.1 =? id)%nat) (l ++ [(id, tt)]) = Some c.
Proof.
  induction l as [|[i []] l IH]; simpl.
  - rewrite Nat.eqb_refl. eauto.
  - destruct (i =? id)%nat; [eauto | exact IH].
Qed.

(** X20. [saveTasks] only queues the save: the service and the storage
    stay as they are until the timer of the batch processor expires. On
    a service whose batch processor is idle, the first call sets the
    timer; when it expires its callback performs the first five saves of
    the queue in order, each as [saveTasksImmediate] does at that moment
    on the array as it then is, leaves the later ones in the queue, and
    sets no timer for them. *)
Theorem saveTasks_waits_for_the_timer (b : BatchedService.t) (arrays : list loc) :
  window (world (BatchedService.service b)) = true ->
  BatchProcessor.queue (BatchedService.batchProcessor b) = [] ->
  BatchProcessor.timeout (BatchedService.batchProcessor b) = None ->
  arrays <> [] ->
  exists b1 id b2,
    fold_left (fun b a => BatchedService.saveTasks a b) arrays b = b1
    /\ BatchedService.service b1 = BatchedService.service b
    /\ BatchProcessor.queue (BatchedService.batchProcessor b1) = arrays
    /\ BatchProcessor.timeout (BatchedService.batchProcessor b1) = Some id
    /\ BatchedService.expire id b1 = Some b2
    /\ BatchedService.service b2
       = fold_left (fun s a => saveTasksImmediate a s) (take 5 arrays)
           (BatchedService.service b)
    /\ BatchProcessor.queue (BatchedService.batchProcessor b2) = drop 5 arrays
    /\ BatchProcessor.timeout (BatchedService.batchProcessor b2) = None.
Proof.
  intros Hw Hq Ht Hne. destruct arrays as [|a arrays]; [congruence|]. clear Hne.
  cbn [fold_left].
  set (id := Timers.next (BatchedService.timers b)).
  assert (E1 : BatchedService.saveTasks a b
    = {| BatchedService.service := BatchedService.service b;
         BatchedService.batchProcessor :=
           {| BatchProcessor.queue := [a]; BatchProcessor.timeout := Some id |};
         BatchedService.timers :=
           {| Timers.pending := Timers.pending (BatchedService.timers b) ++ [(id, tt)];
              Timers.next := S id |} |}).
  { unfold BatchedService.saveTasks, BatchProcessor.add,
      BatchProcessor.scheduleProcess. rewrite Hw. simpl. now rewrite Ht, Hq. }
  rewrite E1, (saveTasks_many arrays _ id) by (simpl; auto).
  cbn [BatchedService.service BatchedService.batchProcessor BatchedService.timers
       BatchProcessor.queue app].
  match goal with |- exists b1 _ _, ?x = b1 /\ _ => set (b1 := x) end.
  assert (E2 : BatchedService.expire id b1
    = Some {| BatchedService.service :=
                fold_left (fun s a => saveTasksImmediate a s) (take 5 (a :: arrays))
                  (BatchedService.service b);
              BatchedService.batchProcessor :=
                {| BatchProcessor.queue := drop 5 (a :: arrays);
                   BatchProcessor.timeout := None |};
              BatchedService.timers :=
                Timers.clearTimeout id (BatchedService.timers b1) |}).
  { unfold BatchedService.expire, Timers.expire, b1.
    cbn [BatchedService.timers Timers.pending].
    destruct (find_last (Timers.pending (BatchedService.timers b)) id) as [[i []] Hfind].
    rewrite Hfind.
    change (BatchProcessor.batchSize_of (Some BatchedService.BATCH_SIZE)) with 5.
    unfold BatchProcessor.later, BatchProcessor.process.
    cbn -[BatchedService.processor take drop Z.to_nat].
    change (Z.to_nat 5) with 5%nat.
    rewrite processor_saves by exact Hw.
    destruct (drop 5 (a :: arrays)) as [|x r] eqn:Ed;
      cbn -[BatchedService.processor take drop Z.to_nat]; reflexivity. }
  exists b1, id. eexists. split; [reflexivity|].
  split; [reflexivity|]. split; [reflexivity|]. split; [reflexivity|].
  split; [exact E2|]. simpl. auto.
Qed.

(** X21. [cleanup] performs every save that is still queued, in order,
    each as [saveTasksImmediate] does, cancels the timer of the batch
    processor, and leaves the result cache of the search and the wrapper
    [memoize] of [getTasks] empty. *)
Theorem cleanup_performs_the_queued_saves (b : BatchedService.t) :
  window (world (BatchedService.service b)) = true ->
  exists b',
    BatchedService.cleanup b = (Ok tt, b')
    /\ BatchedService.service b'
       = set_memo []
           (set_searchCache []
              (fold_left (fun s a => saveTasksImmediate a s)
                 (BatchProcessor.queue (BatchedService.batchProcessor b))
                 (BatchedService.service b)))
    /\ BatchProcessor.queue (BatchedService.batchProcessor b') = []
    /\ BatchProcessor.timeout (BatchedService.batchProcessor b') = None.
Proof.
  intros Hw. unfold BatchedService.cleanup, BatchProcessor.flush, BatchProcessor.cancel.
  destruct (BatchProcessor.timeout (BatchedService.batchProcessor b)) eqn:Et;
    cbn [BatchProcessor.queue BatchProcessor.timeout];
    destruct (BatchProcessor.queue (BatchedService.batchProcessor b)) as [|a q] eqn:Eq;
    rewrite ?processor_saves by exact Hw;
    eexists; (split; [reflexivity|]); simpl; rewrite ?Eq, ?Et; auto.
Qed.
(** ** [debounce] *)

Section DebounceFacts.
Context {A : Type}.
Variable immediate : bool.
Implicit Types (e : Timers.t A) (log : list A).

Lemma last_cons (y : A) rest x : List.last (y :: rest) x = List.last rest y.
Proof.
  revert x y. induction rest as [|z rest IH]; intros x y; [reflexivity|].
  change (List.last (y :: z :: rest) x) with (List.last (z :: rest) x).
  now rewrite !IH.
Qed.

(** A call while the timer of an earlier call is pending. *)
Lemma debounced_again e log id x y :
  Timers.pending e = [(id, x)] ->
  exists e',
    Debounce.step recording_calls immediate (Some id, e, log) (Debounce.Call y)
    = (Some (Timers.next e), e', log)
    /\ Timers.pending e' = [(Timers.next e, y)].
Proof.
  intros He. unfold Debounce.step, Debounce.debounced, Timers.clearTimeout,
    Timers.setTimeout. simpl. rewrite He. simpl. rewrite Nat.eqb_refl. simpl.
  rewrite andb_false_r. eauto.
Qed.

Lemma debounced_burst rest e log id x :
  Timers.pending e = [(id, x)] ->
  exists id' e',
    Debounce.run recording_calls immediate (map Debounce.Call rest) (Some id, e, log)
    = (Some id', e', log)
    /\ Timers.pending e' = [(id', List.last rest x)].
Proof.
  revert e id x. induction rest as [|y rest IH]; intros e id x He.
  - simpl. eauto.
  - cbn [map Debounce.run fold_left].
    destruct (debounced_again e log id x y He) as (e1 & -> & He1).
    destruct (IH e1 (Timers.next e) y He1) as (id' & e' & Hrun & He').
    exists id', e'. split; [exact Hrun|]. rewrite He'. f_equal. f_equal.
    symmetry. apply last_cons.
Qed.

(** X22. A burst of calls of a debounced function that starts with no
    timer pending leaves exactly one timer pending, the one of the last
    call. Without [immediate] nothing is invoked during the burst, and
    when the timer expires the function is invoked once, with the
    arguments of the last call. With [immediate] the function is invoked
    once, at the first call and with its arguments, and not when the
    timer expires. *)
Theorem debounce_burst (a : A) (rest : list A) e log :
  Timers.pending e = [] ->
  exists id e' e'',
    Debounce.run recording_calls immediate (map Debounce.Call (a :: rest)) (None, e, log)
    = (Some id, e', if immediate then log ++ [a] else log)
    /\ Timers.pending e' = [(id, List.last rest a)]
    /\ Debounce.step recording_calls immediate
         (Some id, e', if immediate then log ++ [a] else log) (Debounce.Expire id)
       = (None, e'', if immediate then log ++ [a] else log ++ [List.last rest a])
    /\ Timers.pending e'' = [].
Proof.
  intros He. cbn [map Debounce.run fold_left].
  assert (H1 : exists e1,
    Debounce.step recording_calls immediate (None, e, log) (Debounce.Call a)
    = (Some (Timers.next e), e1, if immediate then log ++ [a] else log)
    /\ Timers.pending e1 = [(Timers.next e, a)]).
  { unfold Debounce.step, Debounce.debounced, Timers.setTimeout. simpl.
    rewrite He. destruct immediate; simpl; eauto. }
  destruct H1 as (e1 & -> & He1).
  destruct (debounced_burst rest e1 (if immediate then log ++ [a] else log)
              (Timers.next e) a He1) as (id & e' & Hrun & He').
  exists id, e'. eexists. split; [exact Hrun|]. split; [exact He'|].
  unfold Debounce.step, Timers.expire, Debounce.later. rewrite He'. simpl.
  rewrite Nat.eqb_refl. unfold Timers.clearTimeout. rewrite He'. simpl.
  rewrite Nat.eqb_refl. simpl.
  destruct immediate; simpl; split; reflexivity.
Qed.

End DebounceFacts.


(* ================================================================== *)
(** * Further properties: the window of a long list, the metrics, dates *)
(* ================================================================== *)

(** ** [getVisibleItems] *)

Section ScrollFacts.
Context {T : Type}.
Import VirtualScroll.

Lemma slice_lookup (items : list T) (start stop : Z) (i : nat) x :
  0 <= start <= Z.of_nat i -> Z.of_nat i < stop ->
  items !! i = Some x ->
  slice items start stop !! (i - Z.to_nat start)%nat = Some x.
Proof.
  intros Hs He Hx. unfold slice.
  pose proof (lookup_lt_Some _ _ _ Hx) as Hi.
  destruct (start <? 0) eqn:E1; [apply Z.ltb_lt in E1; lia|].
  destruct (stop <? 0) eqn:E2; [apply Z.ltb_lt in E2; lia|].
  rewrite lookup_take_lt by lia.
  rewrite lookup_drop. rewrite <- Hx. f_equal. lia.
Qed.

(** X23. For items of one positive height and an overscan that is not
    negative, the window that [getVisibleItems] computes starts at an
    index that is not negative, ends at an index of the list, and holds
    every item of the list that meets the viewport, at its place: an item
    whose top lies above the bottom of the viewport and whose bottom lies
    below its top is never left out. *)
Theorem visible_items_cover_the_viewport (items : list T)
  (containerHeight itemHeight scrollTop overscan : Z) r :
  0 < itemHeight -> 0 <= overscan ->
  getVisibleItems items containerHeight itemHeight scrollTop overscan = Some r ->
  0 <= startIndex r
  /\ endIndex r <= Z.of_nat (length items) - 1
  /\ offsetY r = startIndex r * itemHeight
  /\ totalHeight r = Z.of_nat (length items) * itemHeight
  /\ forall (i : nat) x,
       items !! i = Some x ->
       Z.of_nat i * itemHeight < scrollTop + containerHeight ->
       scrollTop < (Z.of_nat i + 1) * itemHeight ->
       startIndex r <= Z.of_nat i <= endIndex r
       /\ visibleItems r !! (i - Z.to_nat (startIndex r))%nat = Some x.
Proof.
  intros Hh Ho. unfold getVisibleItems.
  destruct (itemHeight =? 0) eqn:E; [apply Z.eqb_eq in E; lia|].
  intros [= <-]. cbn [startIndex endIndex offsetY totalHeight visibleItems].
  split; [lia|]. split; [lia|]. split; [reflexivity|]. split; [reflexivity|].
  intros i x Hx Htop Hbot.
  pose proof (lookup_lt_Some _ _ _ Hx) as Hi.
  assert (Hrange :
    Z.max 0 (scrollTop / itemHeight - overscan) <= Z.of_nat i
    <= Z.min (Z.max 0 (scrollTop / itemHeight - overscan)
              + (ceil_div containerHeight itemHeight + overscan * 2))
             (Z.of_nat (length items) - 1)).
  { unfold ceil_div.
    pose proof (Z.div_mod scrollTop itemHeight ltac:(lia)) as D1.
    pose proof (Z.mod_pos_bound scrollTop itemHeight Hh) as B1.
    pose proof (Z.div_mod (- containerHeight) itemHeight ltac:(lia)) as D2.
    pose proof (Z.mod_pos_bound (- containerHeight) itemHeight Hh) as B2.
    nia. }
  split; [exact Hrange|].
  apply slice_lookup; [lia | lia | exact Hx].
Qed.

End ScrollFacts.
(** ** [isSameDay] and [getRelativeTime] *)

Section DateFacts.
Context (host : Host).
Context (toLocaleDateString_short : Z -> string).

Lemma civil_from_days_inj z z' : civil_from_days z = civil_from_days z' -> z = z'.
Proof.
  intros E. pose proof (civil_roundtrip z) as H. pose proof (civil_roundtrip z') as H'.
  rewrite E in H. destruct (civil_from_days z') as [[y m] d].
  destruct H as [<- _], H' as [<- _]. reflexivity.
Qed.

(** X24. [isSameDay] holds exactly when both arguments are valid dates
    whose instants fall on the same local calendar day. An invalid date
    is the same day as no date, itself included. *)
Theorem isSameDay_compares_local_days date1 date2 :
  DateHelpers.isSameDay host date1 date2 = true
  <-> exists t1 t2,
        dateUtils.new_Date host date1 = Some t1
        /\ dateUtils.new_Date host date2 = Some t2
        /\ Day (LocalTime host t1) = Day (LocalTime host t2).
Proof.
  unfold DateHelpers.isSameDay, DateHelpers.getFullYear, DateHelpers.getMonth,
    DateHelpers.getDate.
  destruct (dateUtils.new_Date host date1) as [t1|];
    destruct (dateUtils.new_Date host date2) as [t2|]; simpl.
  2-4: split; [discriminate | now intros (? & ? & ? & ? & ?)].
  unfold YearFromTime, MonthFromTime, DateFromTime. split.
  - intros H. apply andb_prop in H as [H H3]. apply andb_prop in H as [H1 H2].
    apply Z.eqb_eq in H1, H2, H3.
    exists t1, t2. repeat split. apply civil_from_days_inj.
    destruct (civil_from_days (Day (LocalTime host t1))) as [[y m] d].
    destruct (civil_from_days (Day (LocalTime host t2))) as [[y' m'] d'].
    simpl in *. f_equal; [f_equal|]; lia.
  - intros (? & ? & [= <-] & [= <-] & ->). now rewrite !Z.eqb_refl.
Qed.

(** X25. [getRelativeTime] on a valid date, by the milliseconds that
    have passed: less than a minute (a date in the future included) is
    [Just now]; then whole minutes from 1 to 59, whole hours from 1 to 23
    and whole days from 1 to 29, each with its plural; from thirty days
    on, the date as the host prints it. *)
Theorem getRelativeTime_ranges date (w : World) t :
  dateUtils.new_Date host date = Some t ->
  let diff := (tick w).1 - t in
  let text := (DateHelpers.getRelativeTime host toLocaleDateString_short date w).1 in
  (diff < 60000 -> text = "Just now"%string)
  /\ (60000 <= diff < 3600000 ->
      text = DateHelpers.ago (diff / 60000) "minute" /\ 1 <= diff / 60000 <= 59)
  /\ (3600000 <= diff < 86400000 ->
      text = DateHelpers.ago (diff / 3600000) "hour" /\ 1 <= diff / 3600000 <= 23)
  /\ (86400000 <= diff < 2592000000 ->
      text = DateHelpers.ago (diff / 86400000) "day" /\ 1 <= diff / 86400000 <= 29)
  /\ (2592000000 <= diff -> text = toLocaleDateString_short t).
Proof.
  intros Hd. unfold DateHelpers.getRelativeTime. rewrite Hd.
  destruct (tick w) as [now w']. cbn [fst snd]. cbv zeta.
  change (1000 * 60) with 60000. change (1000 * 60 * 60) with 3600000.
  change (1000 * 60 * 60 * 24) with 86400000.
  set (diff := now - t).
  pose proof (Z.div_mod diff 60000 ltac:(lia)) as D1.
  pose proof (Z.mod_pos_bound diff 60000 ltac:(lia)) as B1.
  pose proof (Z.div_mod diff 3600000 ltac:(lia)) as D2.
  pose proof (Z.mod_pos_bound diff 3600000 ltac:(lia)) as B2.
  pose proof (Z.div_mod diff 86400000 ltac:(lia)) as D3.
  pose proof (Z.mod_pos_bound diff 86400000 ltac:(lia)) as B3.
  repeat split; intros;
    repeat match goal with
           | |- context [?a <? ?b] => destruct (Z.ltb_spec a b)
           end; try reflexivity; lia.
Qed.

End DateFacts.
(** ** [PerformanceMonitor]: the metrics *)

Section MetricFacts.
Context {D : Type}.
Context (zero POSITIVE_INFINITY NEGATIVE_INFINITY : D).
Context (plus minus fmin fmax : D -> D -> D).
Context (average_of : D -> Z -> D).
Context (is_inf is_neg_inf : D -> bool).

Let recordMetric :=
  PerformanceMonitor.recordMetric zero POSITIVE_INFINITY NEGATIVE_INFINITY
    plus minus fmin fmax.
Let getMetrics :=
  PerformanceMonitor.getMetrics zero average_of is_inf is_neg_inf.

Lemma recordMetric_other label label' d m :
  label' <> label ->
  JSMap.get label' (recordMetric label d m) = JSMap.get label' m.
Proof.
  intros Hne. unfold recordMetric, PerformanceMonitor.recordMetric.
  rewrite JSMap_get_set_ne by exact Hne.
  destruct (JSMap.get label m); [reflexivity|].
  now rewrite JSMap_get_set_ne.
Qed.

Lemma recordMetric_same label d m ds :
  holds_last_hundred (JSMap.get label m) ds ->
  holds_last_hundred (JSMap.get label (recordMetric label d m)) (ds ++ [d]).
Proof.
  unfold recordMetric, PerformanceMonitor.recordMetric. rewrite JSMap_get_set.
  intros H.
  assert (Hx : exists x,
    default (PerformanceMonitor.fresh_metric zero POSITIVE_INFINITY NEGATIVE_INFINITY)
      (JSMap.get label
         match JSMap.get label m with
         | Some _ => m
         | None => JSMap.set label
                     (PerformanceMonitor.fresh_metric zero POSITIVE_INFINITY
                        NEGATIVE_INFINITY) m
         end) = x
    /\ PerformanceMonitor.times x = drop (length ds - 100) ds
    /\ PerformanceMonitor.count x = Z.of_nat (length (PerformanceMonitor.times x))).
  { destruct (JSMap.get label m) as [x|] eqn:E.
    - rewrite E. simpl. exists x. destruct H as (_ & ? & ?). auto.
    - rewrite JSMap_get_set. simpl in *. subst ds. eexists. split; [reflexivity|].
      split; reflexivity. }
  destruct Hx as (x & -> & Ht & Hc).
  cbn [PerformanceMonitor.times PerformanceMonitor.count holds_last_hundred].
  assert (Hlen : length (PerformanceMonitor.times x) = Nat.min (length ds) 100).
  { rewrite Ht, length_drop. lia. }
  split; [now destruct ds|].
  rewrite length_app, Hlen. cbn [length].
  destruct (100 <? Nat.min (length ds) 100 + 1)%nat eqn:E.
  - apply Nat.ltb_lt in E.
    destruct (PerformanceMonitor.times x ++ [d]) as [|removed rest] eqn:Er.
    { now destruct (PerformanceMonitor.times x). }
    cbn [PerformanceMonitor.times PerformanceMonitor.count].
    assert (Hrest : rest = drop 1 (PerformanceMonitor.times x ++ [d]))
      by now rewrite Er.
    rewrite Hrest, Ht. split.
    + rewrite (length_app ds [d]). cbn [length].
      rewrite drop_app_le by (rewrite length_drop; lia).
      rewrite drop_drop.
      rewrite (drop_app_le ds [d]) by lia. do 2 f_equal. lia.
    + rewrite Hc, Ht. repeat first [rewrite length_drop | rewrite (length_app _ [d])].
      cbn [length]. lia.
  - apply Nat.ltb_ge in E.
    cbn [PerformanceMonitor.times PerformanceMonitor.count]. rewrite Ht. split.
    + rewrite (length_app ds [d]). cbn [length].
      replace (length ds - 100)%nat with 0%nat by lia.
      replace (length ds + 1 - 100)%nat with 0%nat by lia. reflexivity.
    + rewrite Hc, Ht. repeat first [rewrite length_drop | rewrite (length_app _ [d])].
      cbn [length]. lia.
Qed.

(** X26. After any calls of [recordMetric] on an empty monitor, the
    metric of a label holds the last hundred durations that were recorded
    under the label, oldest first, and its count is their number: at most
    a hundred measurements are kept, and a label that was never used has
    no metric. [getMetrics] reports that count. *)
Theorem recordMetric_keeps_the_last_hundred (calls : list (string * D)) label :
  let metrics := fold_left (fun m c => recordMetric (fst c) (snd c) m) calls [] in
  let ds := durations_of label calls in
  holds_last_hundred (JSMap.get label metrics) ds
  /\ PerformanceMonitor.s_count (getMetrics label metrics)
     = Z.of_nat (Nat.min (length ds) 100).
Proof.
  cbv zeta.
  assert (H : holds_last_hundred
                (JSMap.get label
                   (fold_left (fun m c => recordMetric (fst c) (snd c) m) calls []))
                (durations_of label calls)).
  { induction calls as [|[l d] calls IH] using rev_ind; [reflexivity|].
    rewrite fold_left_app. cbn [fold_left fst snd].
    unfold durations_of in *. rewrite List.filter_app, List.map_app. cbn [List.filter fst].
    destruct (String.eqb l label) eqn:E.
    - apply String.eqb_eq in E. subst l. cbn [map snd]. now apply recordMetric_same.
    - apply String.eqb_neq in E. cbn [map]. rewrite app_nil_r.
      rewrite recordMetric_other by congruence. exact IH. }
  split; [exact H|].
  unfold getMetrics, PerformanceMonitor.getMetrics.
  destruct (JSMap.get label _) as [x|]; simpl in H.
  - destruct H as (Hne & Ht & Hc).
    assert (Hlen : length (PerformanceMonitor.times x)
                   = Nat.min (length (durations_of label calls)) 100).
    { rewrite Ht, length_drop. lia. }
    destruct (PerformanceMonitor.count x =? 0) eqn:E; simpl.
    + apply Z.eqb_eq in E. lia.
    + lia.
  - now rewrite H.
Qed.

End MetricFacts.


(* ================================================================== *)
(** * Further properties of [memoize] *)
(* ================================================================== *)

Section MemoizeMore.
Context {W A R : Type}.
Variable Date_now : W -> Z * W.
Variable fn : A -> W -> R * W.
Variable keyGenerator : A -> string.
Variable maxSize : Z.
Variable ttl : Z.

(** X27. After a call of a memoised function, a call whose arguments
    have the same key, made while the entry is younger than [ttl] (or at
    any time when [ttl] is zero), returns the same result and leaves the
    cache as it is, without running the function: only the clock is
    read. *)
Theorem memoized_again args args' c w :
  keyGenerator args' = keyGenerator args ->
  exists r c1 w1 ts,
    memoized Date_now fn keyGenerator maxSize ttl args c w = (r, c1, w1)
    /\ JSMap.get (keyGenerator args) c1 = Some {| value_of := r; timestamp := ts |}
    /\ forall now w2,
         Date_now w1 = (now, w2) -> ttl = 0 \/ now - ts < ttl ->
         memoized Date_now fn keyGenerator maxSize ttl args' c1 w1 = (r, c1, w2).
Proof.
  intros Hk.
  assert (Hagain : forall r c1 w1 ts,
    JSMap.get (keyGenerator args) c1 = Some {| value_of := r; timestamp := ts |} ->
    forall now w2,
      Date_now w1 = (now, w2) -> ttl = 0 \/ now - ts < ttl ->
      memoized Date_now fn keyGenerator maxSize ttl args' c1 w1 = (r, c1, w2)).
  { intros r c1 w1 ts Hget now w2 Ht Hy. unfold memoized. rewrite Hk, Ht, Hget.
    cbn [timestamp value_of].
    assert (E : (ttl =? 0) || (now - ts <? ttl) = true).
    { destruct Hy as [->|Hy]; [reflexivity|]. apply Z.ltb_lt in Hy.
      rewrite Hy. apply orb_true_r. }
    now rewrite E. }
  unfold memoized at 1. destruct (Date_now w) as [now0 w0].
  destruct (JSMap.get (keyGenerator args) c) as [[v ts0]|] eqn:Hc; cbn [timestamp value_of].
  - destruct ((ttl =? 0) || (now0 - ts0 <? ttl)).
    + exists v, c, w0, ts0. split; [reflexivity|]. split; [exact Hc|]. now apply Hagain.
    + destruct (fn args w0) as [result w1]. eexists result, _, w1, now0.
      split; [reflexivity|]. split; [apply JSMap_get_set|].
      apply Hagain, JSMap_get_set.
  - destruct (fn args w0) as [result w1]. eexists result, _, w1, now0.
    split; [reflexivity|]. split; [apply JSMap_get_set|].
    apply Hagain, JSMap_get_set.
Qed.

Lemma memoized_small (args : A) (c : JSMap.t (entry R)) (w : W) :
  NoDup c.*1 -> JSMap.size c <= Z.max maxSize 4 ->
  let c' := snd (fst (memoized Date_now fn keyGenerator maxSize ttl args c w)) in
  NoDup c'.*1 /\ JSMap.size c' <= Z.max maxSize 4.
Proof.
  intros Hnd Hsize. unfold memoized.
  destruct (Date_now w) as [now w1].
  destruct (match JSMap.get _ c with Some _ => _ | None => _ end) as [v|]; simpl.
  { split; assumption. }
  destruct (fn args w1) as [result w2]. simpl.
  destruct (evict_length c Hnd) as [Hlen Hnde].
  unfold JSMap.size in *.
  destruct (Z.of_nat (length c) >=? maxSize) eqn:E.
  - destruct (JSMap_set_bound (keyGenerator args)
                {| value_of := result; timestamp := now |} (evict c) Hnde) as [H1 H2].
    split; [exact H1|].
    destruct (Nat.le_gt_cases 4 (length c)) as [H4|H4].
    + assert (1 <= length c / 4)%nat
        by (apply (Nat.div_le_lower_bound (length c) 4 1); lia).
      lia.
    + lia.
  - destruct (JSMap_set_bound (keyGenerator args)
                {| value_of := result; timestamp := now |} c Hnd) as [H1 H2].
    split; [exact H1|]. rewrite Z.geb_leb in E. apply Z.leb_gt in E. lia.
Qed.

(** X28. The cache of a memoised function, from the empty cache it
    starts with and through any calls and clearings, holds each key once
    and never more than [maxSize] entries, or four when [maxSize] is less
    than four. *)
Theorem memoize_cache_stays_small c :
  cache_of_memoize Date_now fn keyGenerator maxSize ttl c ->
  NoDup c.*1 /\ JSMap.size c <= Z.max maxSize 4.
Proof.
  induction 1 as [|args c w _ [Hnd Hs]|c _ _].
  - split; [constructor | unfold JSMap.size; simpl; lia].
  - now apply memoized_small.
  - split; [constructor | unfold JSMap.size; simpl; lia].
Qed.

Lemma JSMap_delete_sublist (k : string) (c : JSMap.t (entry R)) :
  JSMap.delete k c `sublist_of` c.
Proof.
  induction c as [|[k' v] c IH]; simpl; [constructor|].
  destruct (String.eqb k k'); [now apply sublist_cons | now apply sublist_skip].
Qed.

Lemma JSMap_delete_all_sublist (es : list (string * entry R)) (c : JSMap.t (entry R)) :
  fold_left (fun c e => JSMap.delete (fst e) c) es c `sublist_of` c.
Proof.
  revert c. induction es as [|e es IH]; intros c; simpl; [reflexivity|].
  etransitivity; [apply IH | apply JSMap_delete_sublist].
Qed.

(** X29. The clean-up of [memoize] on a cache that holds each key once
    removes a quarter of the entries, rounded down; it keeps the others
    in their order, and no entry that it removes is younger than one that
    it keeps. *)
Theorem evict_drops_the_oldest_quarter (c : JSMap.t (entry R)) :
  NoDup c.*1 ->
  length (evict c) = (length c - length c / 4)%nat
  /\ evict c `sublist_of` c
  /\ forall e e',
       e ∈ evict c -> e' ∈ c -> e' ∉ evict c ->
       timestamp (snd e') <= timestamp (snd e).
Proof.
  intros Hnd. destruct (evict_length c Hnd) as [Hlen _].
  split; [lia|]. split; [apply JSMap_delete_all_sublist|].
  intros e e'. now apply evict_oldest.
Qed.

End MemoizeMore.


(** ** Witnesses of the further properties *)

(** X4 at two collections that differ in a title only. *)
Lemma generateChecksum_reads_ids_and_stamps_witness :
  generateChecksum (VArr [Demo.tampered; Demo.meeting])
  = generateChecksum (VArr [Demo.groceries; Demo.meeting])
  /\ map id_stamp [Demo.tampered; Demo.meeting]
     = map id_stamp [Demo.groceries; Demo.meeting].
Proof.
  split; [|reflexivity].
  apply (generateChecksum_reads_ids_and_stamps
           [Demo.tampered; Demo.meeting] [Demo.groceries; Demo.meeting]).
  - repeat constructor.
  - repeat constructor.
  - reflexivity.
Defined.

(** X1 at a page whose primary record is empty and whose secondary cache
    holds the two tasks, stamped one second ago. *)
Lemma fresh_valid_secondary_is_adopted_witness :
  let payload := [Demo.groceries; Demo.meeting] in
  let s := Demo.loaded Demo.later (Some (Json (VArr [])))
             (Demo.cache_entry payload payload (Demo.later - 1000)) in
  exists a s',
    getTasks s = (a, s')
    /\ heap s' !! a = Some payload
    /\ cache s' = Some a
    /\ cacheTimestamp s' = Demo.later - 1000
    /\ primary (world s') = primary (world s)
    /\ secondary (world s') = secondary (world s).
Proof.
  cbv zeta.
  set (payload := [Demo.groceries; Demo.meeting]).
  set (s := Demo.loaded Demo.later (Some (Json (VArr [])))
              (Demo.cache_entry payload payload (Demo.later - 1000))).
  apply (fresh_valid_secondary_is_adopted s Demo.later s s
           [("data"%string, VArr payload);
            ("timestamp"%string, VNum (Demo.later - 1000));
            ("checksum"%string,
             match generateChecksum (VArr payload) with
             | Ok c => VStr c
             | Throw => VNull
             end)]
           payload (Demo.later - 1000)
           (match generateChecksum (VArr payload) with
            | Ok c => c
            | Throw => EmptyString
            end)
           Demo.later s).
  - split; [vm_compute; reflexivity | vm_compute; exact I].
  - reflexivity.
  - exact eq_refl.
  - reflexivity.
  - reflexivity.
  - reflexivity.
  - reflexivity.
  - vm_compute; reflexivity.
  - vm_compute; reflexivity.
  - vm_compute; reflexivity.
  - vm_compute; reflexivity.
Defined.


(** X3 at a service that has read its tasks and whose wrapper [memoize]
    has been emptied since. *)
Lemma memory_cache_is_served_witness :
  let s := set_memo [] (snd (getTasks (Demo.loaded Demo.later Demo.stored None))) in
  exists s',
    getTasks s = (0%nat, s')
    /\ heap s' = heap s
    /\ cache s' = Some 0%nat
    /\ primary (world s') = primary (world s)
    /\ secondary (world s') = secondary (world s).
Proof.
  cbv zeta.
  set (s := set_memo [] (snd (getTasks (Demo.loaded Demo.later Demo.stored None)))).
  apply (memory_cache_is_served s Demo.later (snd (Date_now_total s)) 0%nat Demo.later
           (snd (Date_now_total (snd (Date_now_total s))))).
  - split; [vm_compute; reflexivity | vm_compute; exact I].
  - vm_compute; reflexivity.
  - vm_compute; reflexivity.
  - vm_compute; reflexivity.
  - vm_compute; reflexivity.
Defined.


(** X5 at a stored array with a record that is not a task, a title and
    a name in white space, and a description that is [null]. *)
Lemma validateAndCleanTasks_settles_witness :
  let untidy :=
    VObj [("id", VStr "t5"); ("title", VStr "  Water plants ");
          ("description", VNull); ("name", VStr " Emma");
          ("isCompleted", VBool false);
          ("createdAt", VStr "2024-01-15T23:30:00.123Z");
          ("updatedAt", VStr "2024-01-15T23:30:00.123Z")]%string in
  let tidy :=
    VObj [("id", VStr "t5"); ("title", VStr "Water plants");
          ("description", VStr ""); ("name", VStr "Emma");
          ("isCompleted", VBool false);
          ("createdAt", VStr "2024-01-15T23:30:00.123Z");
          ("updatedAt", VStr "2024-01-15T23:30:00.123Z");
          ("role", VStr "")]%string in
  validateAndCleanTasks (VArr [VNum 7; untidy]) = Ok [tidy]
  /\ validateAndCleanTasks (VArr [tidy]) = Ok [tidy]
  /\ Forall (fun t =>
       valid_shape t = true
       /\ forall k, k ∈ cleaned_keys ->
            exists s, prop k t = VStr s /\ trim s = s) [tidy].
Proof.
  cbv zeta. split; [vm_compute; reflexivity|].
  apply (validateAndCleanTasks_settles
           (VArr [VNum 7;
                  VObj [("id", VStr "t5"); ("title", VStr "  Water plants ");
                        ("description", VNull); ("name", VStr " Emma");
                        ("isCompleted", VBool false);
                        ("createdAt", VStr "2024-01-15T23:30:00.123Z");
                        ("updatedAt", VStr "2024-01-15T23:30:00.123Z")]%string])).
  vm_compute; reflexivity.
Defined.

(** X6 and X7 at a page that has just been loaded over the two tasks. *)
Lemma addTask_prepends_and_persists_witness :
  let s := Demo.loaded Demo.later Demo.stored None in
  let taskData := {| title := "  Call dentist "; description := None;
                     name := Some "Emma"; role := None |} in
  let l := [Demo.groceries; Demo.meeting] in
  exists task s',
    addTask Demo.host taskData s = (Ok task, s')
    /\ prop "id" task = VStr (of_Z Demo.later ++ "-" ++ "k3j9x0q1z")
    /\ is_stored_Task task = true
    /\ valid_shape task = true
    /\ clean task = Ok task
    /\ heap s' !! 0%nat = Some l
    /\ heap s' !! 1%nat = Some (task :: l)
    /\ (window (world s) = true ->
        throws OpSet TASKS_KEY (world s) = false ->
        primary (world s') = Some (JSON_stringify (VArr (task :: l)))).
Proof.
  cbv zeta.
  set (s := Demo.loaded Demo.later Demo.stored None).
  set (s3 := snd (random_suffix s)).
  apply (addTask_prepends_and_persists Demo.host
           {| title := "  Call dentist "; description := None;
              name := Some "Emma"; role := None |}
           s Demo.later s Demo.later s "k3j9x0q1z" s3 0%nat (snd (getTasks s3))
           [Demo.groceries; Demo.meeting]).
  - reflexivity.
  - reflexivity.
  - reflexivity.
  - vm_compute; reflexivity.
  - vm_compute; reflexivity.
Defined.

Lemma getTasks_after_addTask_witness :
  let s := Demo.loaded Demo.later Demo.stored None in
  let taskData := {| title := "  Call dentist "; description := None;
                     name := Some "Emma"; role := None |} in
  let l := [Demo.groceries; Demo.meeting] in
  exists task s' tm,
    addTask Demo.host taskData s = (Ok task, s')
    /\ primary (world s') = Some (JSON_stringify (VArr (task :: l)))
    /\ JSMap.get "[]" (memo s') = Some {| value_of := 0%nat; timestamp := tm |}
    /\ forall t s5,
         Date_now_total s' = (t, s5) ->
         t - tm < CACHE_EXPIRY ->
         exists s6,
           getTasks s' = (0%nat, s6)
           /\ heap s6 !! 0%nat = Some l
           /\ primary (world s6) = Some (JSON_stringify (VArr (task :: l))).
Proof.
  cbv zeta.
  set (s := Demo.loaded Demo.later Demo.stored None).
  set (s3 := snd (random_suffix s)).
  apply (getTasks_after_addTask Demo.host
           {| title := "  Call dentist "; description := None;
              name := Some "Emma"; role := None |}
           s Demo.later s Demo.later s "k3j9x0q1z" s3 0%nat (snd (getTasks s3))
           [Demo.groceries; Demo.meeting]).
  - reflexivity.
  - reflexivity.
  - reflexivity.
  - vm_compute; reflexivity.
  - vm_compute; reflexivity.
  - reflexivity.
  - reflexivity.
Defined.

Lemma second_addTask_overwrites_the_first_witness :
  let s := Demo.loaded Demo.later Demo.stored None in
  let taskData := {| title := "  Call dentist "; description := None;
                     name := Some "Emma"; role := None |} in
  let taskData' := {| title := "Water plants"; description := None;
                      name := None; role := None |} in
  let l := [Demo.groceries; Demo.meeting] in
  exists task s' tm,
    addTask Demo.host taskData s = (Ok task, s')
    /\ primary (world s') = Some (JSON_stringify (VArr (task :: l)))
    /\ JSMap.get "[]" (memo s') = Some {| value_of := 0%nat; timestamp := tm |}
    /\ forall now' s1' stamp' s2' suffix' s3' t s4',
         Date_now_total s' = (now', s1') ->
         Date_now_total s1' = (stamp', s2') ->
         random_suffix s2' = (Ok suffix', s3') ->
         Date_now_total s3' = (t, s4') ->
         t - tm < CACHE_EXPIRY ->
         exists task' s'',
           addTask Demo.host taskData' s' = (Ok task', s'')
           /\ prop "id" task' = VStr (of_Z stamp' ++ "-" ++ suffix')
           /\ primary (world s'') = Some (JSON_stringify (VArr (task' :: l))).
Proof.
  cbv zeta.
  set (s := Demo.loaded Demo.later Demo.stored None).
  set (s3 := snd (random_suffix s)).
  apply (second_addTask_overwrites_the_first Demo.host
           {| title := "  Call dentist "; description := None;
              name := Some "Emma"; role := None |}
           {| title := "Water plants"; description := None;
              name := None; role := None |}
           s Demo.later s Demo.later s "k3j9x0q1z" s3 0%nat (snd (getTasks s3))
           [Demo.groceries; Demo.meeting]).
  - reflexivity.
  - reflexivity.
  - reflexivity.
  - vm_compute; reflexivity.
  - vm_compute; reflexivity.
  - reflexivity.
  - reflexivity.
Defined.

(** X11 at the two tasks. *)
Lemma saved_tasks_survive_a_reload_witness :
  let s := snd (getTasks (Demo.loaded Demo.later Demo.stored None)) in
  exists a' s'',
    getTasks (BatchedService.constructor (world (saveTasksImmediate 0%nat s)))
    = (a', s'')
    /\ heap s'' !! a' = Some [Demo.groceries; Demo.meeting].
Proof.
  cbv zeta.
  apply (saved_tasks_survive_a_reload 0%nat
           (snd (getTasks (Demo.loaded Demo.later Demo.stored None)))
           [Demo.groceries; Demo.meeting]).
  - vm_compute; reflexivity.
  - vm_compute; reflexivity.
  - vm_compute; reflexivity.
  - repeat constructor.
Defined.

(** X9 at the second of the two tasks. *)
Lemma deleteTask_removes_in_place_witness :
  let s := Demo.loaded Demo.later Demo.stored None in
  exists s',
    deleteTask "t2" s = (Ok true, s')
    /\ heap s' !! 0%nat = Some ([Demo.groceries] ++ [])
    /\ (window (world (snd (getTasks s))) = true ->
        throws OpSet TASKS_KEY (world (snd (getTasks s))) = false ->
        primary (world s') = Some (JSON_stringify (VArr ([Demo.groceries] ++ [])))).
Proof.
  cbv zeta.
  apply (deleteTask_removes_in_place "t2" (Demo.loaded Demo.later Demo.stored None)
           0%nat (snd (getTasks (Demo.loaded Demo.later Demo.stored None)))
           [Demo.groceries] Demo.meeting []).
  - vm_compute; reflexivity.
  - vm_compute; reflexivity.
  - repeat constructor.
  - reflexivity.
  - intros t Ht. apply list_elem_of_singleton in Ht. subst t. discriminate.
Defined.

(** X10 at a service that has read the two tasks. *)
Lemma clearAllTasks_empties_witness :
  let s := snd (getTasks (Demo.loaded Demo.later Demo.stored None)) in
  exists s',
    clearAllTasks s = (Ok tt, s')
    /\ primary (world s') = None /\ secondary (world s') = None
    /\ cache s' = None /\ searchCache s' = [] /\ memo s' = []
    /\ exists a s'', getTasks s' = (a, s'') /\ heap s'' !! a = Some [].
Proof.
  cbv zeta.
  apply (clearAllTasks_empties (snd (getTasks (Demo.loaded Demo.later Demo.stored None)))).
  - vm_compute; reflexivity.
  - vm_compute; reflexivity.
  - vm_compute; reflexivity.
Defined.

(** X12 at a service that has read the two tasks. *)
Lemma saveTasksImmediate_outcomes_witness :
  let s := snd (getTasks (Demo.loaded Demo.later Demo.stored None)) in
  let l := [Demo.groceries; Demo.meeting] in
  (window (world s) = true -> throws OpSet TASKS_KEY (world s) = false ->
     primary (world (saveTasksImmediate 0%nat s)) = Some (JSON_stringify (VArr l))
     /\ cache (saveTasksImmediate 0%nat s) = Some 0%nat
     /\ searchCache (saveTasksImmediate 0%nat s) = []
     /\ heap (saveTasksImmediate 0%nat s) = heap s)
  /\ (window (world s) = false \/ throws OpSet TASKS_KEY (world s) = true ->
      saveTasksImmediate 0%nat s = s).
Proof.
  cbv zeta.
  apply (saveTasksImmediate_outcomes 0%nat
           (snd (getTasks (Demo.loaded Demo.later Demo.stored None)))
           [Demo.groceries; Demo.meeting]).
  - vm_compute; reflexivity.
  - repeat constructor.
Defined.

(** X13 at a query that ends like a flag. *)
Lemma searchKey_inj_witness :
  searchKey "a-true" true false = searchKey "a-true" true false
  /\ ("a-true"%string = "a-true"%string /\ true = true /\ false = false).
Proof.
  split; [reflexivity|].
  apply (searchKey_inj "a-true" true false "a-true" true false). reflexivity.
Defined.

(** X14 and X15 at a search for one word. *)
Lemma repeated_search_is_served_from_cache_witness :
  let s := Demo.loaded Demo.later Demo.stored None in
  let s1 := snd (searchTasks Demo.host "meeting" true true s) in
  exists ts,
    JSMap.get (searchKey "meeting" true true) (searchCache s1) = Some (1%nat, ts)
    /\ forall t s2,
         Date_now_total s1 = (t, s2) -> t - ts < 30000 ->
         searchTasks Demo.host "meeting" true true s1 = (Ok 1%nat, s2).
Proof.
  cbv zeta.
  apply (repeated_search_is_served_from_cache Demo.host "meeting" true true
           (Demo.loaded Demo.later Demo.stored None)).
  vm_compute; reflexivity.
Defined.

Lemma search_result_is_part_of_the_collection_witness :
  let s := Demo.loaded Demo.later Demo.stored None in
  exists kept,
    heap (snd (searchTasks Demo.host "meeting" true true s)) !! 1%nat = Some kept
    /\ kept `sublist_of` [Demo.groceries; Demo.meeting].
Proof.
  cbv zeta.
  apply (search_result_is_part_of_the_collection Demo.host "meeting" true true
           (Demo.loaded Demo.later Demo.stored None)
           (Demo.loaded Demo.later Demo.stored None)
           0%nat (snd (getTasks (Demo.loaded Demo.later Demo.stored None)))).
  - reflexivity.
  - vm_compute; reflexivity.
  - vm_compute; reflexivity.
  - vm_compute; reflexivity.
Defined.
(** X16 at a service on the server. *)
Lemma without_a_window_nothing_is_stored_witness :
  let s := {| heap := []; memo := []; cache := None; cacheTimestamp := 0;
              searchCache := [];
              world := {| window := false; clock := Demo.later; future := [];
                          randoms := []; primary := Demo.stored;
                          secondary := None; faults := [] |} |} in
  (exists s',
     getTasks s = (length (heap s), s')
     /\ heap s' = heap s ++ [[]]
     /\ cache s' = cache s
     /\ primary (world s') = primary (world s)
     /\ secondary (world s') = secondary (world s))
  /\ (forall a, saveTasksImmediate a s = s)
  /\ clearAllTasks s = (Ok tt, s).
Proof.
  cbv zeta.
  apply (without_a_window_nothing_is_stored
           {| heap := []; memo := []; cache := None; cacheTimestamp := 0;
              searchCache := [];
              world := {| window := false; clock := Demo.later; future := [];
                          randoms := []; primary := Demo.stored;
                          secondary := None; faults := [] |} |}
           Demo.later
           {| heap := []; memo := []; cache := None; cacheTimestamp := 0;
              searchCache := [];
              world := {| window := false; clock := Demo.later; future := [];
                          randoms := []; primary := Demo.stored;
                          secondary := None; faults := [] |} |}).
  - reflexivity.
  - split; [reflexivity | exact I].
Defined.


(** X20 and X21 at a service that has read the two tasks and whose batch
    processor is idle. *)
Lemma saveTasks_waits_for_the_timer_witness :
  let s := snd (getTasks (Demo.loaded Demo.later Demo.stored None)) in
  let b := {| BatchedService.service := s;
              BatchedService.batchProcessor := BatchProcessor.new;
              BatchedService.timers := Timers.empty |} in
  let arrays := [0%nat] in
  exists b1 id b2,
    fold_left (fun b a => BatchedService.saveTasks a b) arrays b = b1
    /\ BatchedService.service b1 = BatchedService.service b
    /\ BatchProcessor.queue (BatchedService.batchProcessor b1) = arrays
    /\ BatchProcessor.timeout (BatchedService.batchProcessor b1) = Some id
    /\ BatchedService.expire id b1 = Some b2
    /\ BatchedService.service b2
       = fold_left (fun s a => saveTasksImmediate a s) (take 5 arrays)
           (BatchedService.service b)
    /\ BatchProcessor.queue (BatchedService.batchProcessor b2) = drop 5 arrays
    /\ BatchProcessor.timeout (BatchedService.batchProcessor b2) = None.
Proof.
  cbv zeta.
  apply (saveTasks_waits_for_the_timer
           {| BatchedService.service :=
                snd (getTasks (Demo.loaded Demo.later Demo.stored None));
              BatchedService.batchProcessor := BatchProcessor.new;
              BatchedService.timers := Timers.empty |} [0%nat]).
  - vm_compute; reflexivity.
  - reflexivity.
  - reflexivity.
  - discriminate.
Defined.

Lemma cleanup_performs_the_queued_saves_witness :
  let s := snd (getTasks (Demo.loaded Demo.later Demo.stored None)) in
  let b := BatchedService.saveTasks 0%nat
             {| BatchedService.service := s;
                BatchedService.batchProcessor := BatchProcessor.new;
                BatchedService.timers := Timers.empty |} in
  exists b',
    BatchedService.cleanup b = (Ok tt, b')
    /\ BatchedService.service b'
       = set_memo []
           (set_searchCache []
              (fold_left (fun s a => saveTasksImmediate a s)
                 (BatchProcessor.queue (BatchedService.batchProcessor b))
                 (BatchedService.service b)))
    /\ BatchProcessor.queue (BatchedService.batchProcessor b') = []
    /\ BatchProcessor.timeout (BatchedService.batchProcessor b') = None.
Proof.
  cbv zeta.
  apply (cleanup_performs_the_queued_saves
           (BatchedService.saveTasks 0%nat
              {| BatchedService.service :=
                   snd (getTasks (Demo.loaded Demo.later Demo.stored None));
                 BatchedService.batchProcessor := BatchProcessor.new;
                 BatchedService.timers := Timers.empty |})).
  vm_compute; reflexivity.
Defined.

(** X19 at a processor that throws at its first call: the first flush
    fails and keeps the queue, the second hands the two items again. *)
Lemma batches_lose_no_item_witness :
  let f := fun (_ : list nat) (calls : nat) =>
             (if (calls =? 0)%nat then Throw else Ok tt, S calls) in
  let evs := [BatchProcessor.Add 1%nat; BatchProcessor.Add 2%nat;
              BatchProcessor.Flush; BatchProcessor.Flush] in
  BatchProcessor.run (observed f) 5 evs (BatchProcessor.new, Timers.empty, ([], 0%nat))
  = ({| BatchProcessor.queue := []; BatchProcessor.timeout := None |},
     {| Timers.pending := []; Timers.next := 2 |},
     ([1; 2; 1; 2]%nat, 2%nat))
  /\ (exists handed,
        (handed ++ [])%list = added evs
        /\ handed `sublist_of` [1; 2; 1; 2]%nat)
  /\ ((forall batch w0, (f batch w0).1 = Ok tt) ->
      ([1; 2; 1; 2]%nat ++ [])%list = added evs).
Proof.
  cbv zeta. split; [reflexivity|].
  exact (batches_lose_no_item 5
           (fun (_ : list nat) (calls : nat) =>
              (if (calls =? 0)%nat then Throw else Ok tt, S calls))
           [BatchProcessor.Add 1%nat; BatchProcessor.Add 2%nat;
            BatchProcessor.Flush; BatchProcessor.Flush] 0%nat eq_refl).
Defined.

(** X18 at batches of two items and three items in the queue. *)
Lemma leftover_waits_for_add_or_flush_witness :
  let b := {| BatchProcessor.queue := [1%nat; 2%nat; 3%nat];
              BatchProcessor.timeout := Some 1%nat |} in
  let b' := {| BatchProcessor.queue := [3%nat]; BatchProcessor.timeout := None |} in
  let e' := {| Timers.pending := @nil (nat * unit); Timers.next := 2 |} in
  BatchProcessor.queue b' = drop (Z.to_nat 2) (BatchProcessor.queue b)
  /\ (BatchProcessor.queue b <> [] ->
      (recording_batches (take (Z.to_nat 2) (BatchProcessor.queue b)) []).2
      = [1%nat; 2%nat])
  /\ Timers.pending e' = []
  /\ (Ok tt = Ok tt -> BatchProcessor.timeout b' = None).
Proof.
  cbv zeta.
  apply (leftover_waits_for_add_or_flush recording_batches 2
           [BatchProcessor.Add 1%nat; BatchProcessor.Add 2%nat; BatchProcessor.Add 3%nat]
           []
           {| BatchProcessor.queue := [1%nat; 2%nat; 3%nat];
              BatchProcessor.timeout := Some 1%nat |}
           {| Timers.pending := [(1%nat, tt)]; Timers.next := 2 |}
           [] 1%nat tt
           {| Timers.pending := []; Timers.next := 2 |}
           (Ok tt)
           {| BatchProcessor.queue := [3%nat]; BatchProcessor.timeout := None |}
           {| Timers.pending := []; Timers.next := 2 |}
           [1%nat; 2%nat]).
  - reflexivity.
  - reflexivity.
  - reflexivity.
Defined.

(** X22 at three calls without [immediate]. *)
Lemma debounce_burst_witness :
  exists id e' e'',
    Debounce.run recording_calls false
      (map Debounce.Call ["g"; "gr"; "gro"]%string) (None, Timers.empty, [])
    = (Some id, e', [])
    /\ Timers.pending e' = [(id, "gro"%string)]
    /\ Debounce.step recording_calls false (Some id, e', []) (Debounce.Expire id)
       = (None, e'', ["gro"%string])
    /\ Timers.pending e'' = [].
Proof.
  apply (debounce_burst false "g"%string ["gr"; "gro"]%string Timers.empty []).
  reflexivity.
Defined.

(** X23 at five items of height 50 in a viewport of height 100 that is
    scrolled down by 60. *)
Lemma visible_items_cover_the_viewport_witness :
  let items := [10; 20; 30; 40; 50]%nat in
  let r := {| VirtualScroll.startIndex := 1; VirtualScroll.endIndex := 3;
              VirtualScroll.visibleItems := [20; 30; 40]%nat;
              VirtualScroll.totalHeight := 250; VirtualScroll.offsetY := 50 |} in
  VirtualScroll.getVisibleItems items 100 50 60 0 = Some r
  /\ 0 <= VirtualScroll.startIndex r
  /\ VirtualScroll.endIndex r <= Z.of_nat (length items) - 1
  /\ VirtualScroll.offsetY r = VirtualScroll.startIndex r * 50
  /\ VirtualScroll.totalHeight r = Z.of_nat (length items) * 50
  /\ forall (i : nat) x,
       items !! i = Some x ->
       Z.of_nat i * 50 < 60 + 100 ->
       60 < (Z.of_nat i + 1) * 50 ->
       VirtualScroll.startIndex r <= Z.of_nat i <= VirtualScroll.endIndex r
       /\ VirtualScroll.visibleItems r !! (i - Z.to_nat (VirtualScroll.startIndex r))%nat
          = Some x.
Proof.
  cbv zeta. split; [reflexivity|].
  apply (visible_items_cover_the_viewport [10; 20; 30; 40; 50]%nat 100 50 60 0).
  - lia.
  - lia.
  - reflexivity.
Defined.

(** X25 at a date five minutes before the reading of the clock. *)
Lemma getRelativeTime_ranges_witness :
  let w := world (Demo.loaded Demo.later None None) in
  let date := OfDate (Some (Demo.later - 300000)) in
  let short := fun _ : Z => "Jan 15, 2024"%string in
  let diff := (tick w).1 - (Demo.later - 300000) in
  let text := (DateHelpers.getRelativeTime Demo.host short date w).1 in
  text = "5 minutes ago"%string
  /\ (diff < 60000 -> text = "Just now"%string)
  /\ (60000 <= diff < 3600000 ->
      text = DateHelpers.ago (diff / 60000) "minute" /\ 1 <= diff / 60000 <= 59)
  /\ (3600000 <= diff < 86400000 ->
      text = DateHelpers.ago (diff / 3600000) "hour" /\ 1 <= diff / 3600000 <= 23)
  /\ (86400000 <= diff < 2592000000 ->
      text = DateHelpers.ago (diff / 86400000) "day" /\ 1 <= diff / 86400000 <= 29)
  /\ (2592000000 <= diff -> text = short (Demo.later - 300000)).
Proof.
  cbv zeta. split; [vm_compute; reflexivity|].
  apply (getRelativeTime_ranges Demo.host (fun _ : Z => "Jan 15, 2024"%string)
           (OfDate (Some (Demo.later - 300000)))
           (world (Demo.loaded Demo.later None None))
           (Demo.later - 300000)).
  reflexivity.
Defined.

(** X27, X28 and X29 at a memoised function that returns its argument. *)
Lemma memoized_again_witness :
  exists r c1 w1 ts,
    memoized Demo.clock Demo.echo (fun a => a) 1 1000 "a"%string [] 0 = (r, c1, w1)
    /\ JSMap.get "a" c1 = Some {| value_of := r; timestamp := ts |}
    /\ forall now w2,
         Demo.clock w1 = (now, w2) -> 1000 = 0 \/ now - ts < 1000 ->
         memoized Demo.clock Demo.echo (fun a => a) 1 1000 "a"%string c1 w1
         = (r, c1, w2).
Proof.
  apply (memoized_again Demo.clock Demo.echo (fun a => a) 1 1000
           "a"%string "a"%string [] 0).
  reflexivity.
Defined.

Lemma memoize_cache_stays_small_witness :
  let c := snd (fst (memoized Demo.clock Demo.echo (fun a => a) 1 1000
                       "b"%string
                       (snd (fst (memoized Demo.clock Demo.echo (fun a => a) 1 1000
                                    "a"%string [] 0))) 1)) in
  NoDup c.*1 /\ JSMap.size c <= Z.max 1 4.
Proof.
  cbv zeta.
  apply (memoize_cache_stays_small Demo.clock Demo.echo (fun a => a) 1 1000).
  apply cache_call, cache_call, cache_new.
Defined.

Lemma evict_drops_the_oldest_quarter_witness :
  let c := [("a", {| value_of := "x"; timestamp := 3 |});
            ("b", {| value_of := "y"; timestamp := 2 |});
            ("c", {| value_of := "z"; timestamp := 5 |});
            ("d", {| value_of := "u"; timestamp := 1 |})]%string in
  evict c = [("a", {| value_of := "x"; timestamp := 3 |});
             ("b", {| value_of := "y"; timestamp := 2 |});
             ("c", {| value_of := "z"; timestamp := 5 |})]%string
  /\ length (evict c) = (length c - length c / 4)%nat
  /\ evict c `sublist_of` c
  /\ forall e e',
       e ∈ evict c -> e' ∈ c -> e' ∉ evict c ->
       timestamp (snd e') <= timestamp (snd e).
Proof.
  cbv zeta. split; [vm_compute; reflexivity|].
  apply (evict_drops_the_oldest_quarter
           [("a", {| value_of := "x"; timestamp := 3 |});
            ("b", {| value_of := "y"; timestamp := 2 |});
            ("c", {| value_of := "z"; timestamp := 5 |});
            ("d", {| value_of := "u"; timestamp := 1 |})]%string).
  compute_done.
Defined.
